(** * Sysiphe v2: domain guessing, e-mail harvesting and scoring

    A shallow embedding of the Python scripts of the repository:

    - [guess/sysiphe_guess_emails.py]        (module [GuessV1])
    - [guess/sysiphe_guess_emails_v2.py]     (module [GuessV2])
    - [guess/sysiphe_guess_verify_email.py]  (module [GuessVerify])
    - [pipeline_100%/sysiphe_scrape_emails_from_sites.py] (module [Scrape])
    - [search/sysiphe_search_email.py]       (module [Search])

    Python [str] values are modelled as lists of characters; the model
    covers ASCII text (code points below 128), on which [str.lower],
    [str.strip], [\w] and [\s] behave as written here.  Python [int] is [Z].
    Network capabilities (DNS, HTTP, the search provider) are oracles of a
    record [Net]; every call is recorded in a trace of events.  The
    database of the scraping script is an oracle too, [Scrape.Db]. *)

From Stdlib Require Import List Ascii Bool Arith ZArith Lia Permutation Sorted.
Import ListNotations.

(** ** Strings *)

Definition str := list ascii.

Inductive strlit : Set := LNil | LCons (a : ascii) (s : strlit).

Fixpoint strlit_of_bytes (l : list Byte.byte) : strlit :=
  match l with
  | [] => LNil
  | b :: r => LCons (ascii_of_byte b) (strlit_of_bytes r)
  end.

Fixpoint bytes_of_strlit (s : strlit) : list Byte.byte :=
  match s with
  | LNil => []
  | LCons a r => byte_of_ascii a :: bytes_of_strlit r
  end.

Declare Scope str_scope.
Delimit Scope str_scope with str.
#[warnings="-via-type-remapping,-via-type-mismatch"]
String Notation str strlit_of_bytes bytes_of_strlit
  (via strlit mapping [[nil] => LNil, [cons] => LCons]) : str_scope.
Open Scope str_scope.

Definition str_eq_dec : forall a b : str, {a = b} + {a <> b} :=
  list_eq_dec ascii_dec.

Definition str_eqb (a b : str) : bool :=
  if str_eq_dec a b then true else false.

(** Character classes, by code point. *)
Definition code (c : ascii) : nat := nat_of_ascii c.

Definition in_range (lo hi : nat) (c : ascii) : bool :=
  (lo <=? code c) && (code c <=? hi).

Definition is_upper (c : ascii) : bool := in_range 65 90 c.
Definition is_lower (c : ascii) : bool := in_range 97 122 c.
Definition is_alpha (c : ascii) : bool := is_upper c || is_lower c.
Definition is_digit (c : ascii) : bool := in_range 48 57 c.

Definition one_of (cs : str) (c : ascii) : bool :=
  existsb (Ascii.eqb c) cs.

(** [str.isspace] on ASCII: TAB..CR, FS..US and the blank. *)
Definition is_space (c : ascii) : bool :=
  in_range 9 13 c || in_range 28 32 c.

(** [\w] on ASCII. *)
Definition is_word (c : ascii) : bool :=
  is_alpha c || is_digit c || Ascii.eqb c "_"%char.

Definition lower_c (c : ascii) : ascii :=
  if is_upper c then ascii_of_nat (code c + 32) else c.

Definition upper_c (c : ascii) : ascii :=
  if is_lower c then ascii_of_nat (code c - 32) else c.

(** [s.lower()] and [s.upper()] *)
Definition lower (s : str) : str := map lower_c s.
Definition upper (s : str) : str := map upper_c s.

(** [s.lstrip(chars)], [s.rstrip(chars)] for a predicate on characters *)
Fixpoint lstrip_by (p : ascii -> bool) (s : str) : str :=
  match s with
  | [] => []
  | c :: s' => if p c then lstrip_by p s' else s
  end.

Definition rstrip_by (p : ascii -> bool) (s : str) : str :=
  rev (lstrip_by p (rev s)).

(** [s.strip()] *)
Definition strip (s : str) : str := rstrip_by is_space (lstrip_by is_space s).

(** [s.startswith(p)], [s.endswith(p)] *)
Fixpoint startswith (p s : str) : bool :=
  match p, s with
  | [], _ => true
  | _ :: _, [] => false
  | a :: p', b :: s' => Ascii.eqb a b && startswith p' s'
  end.

Definition endswith (p s : str) : bool := startswith (rev p) (rev s).

(** [needle in hay] *)
Fixpoint contains (needle hay : str) : bool :=
  startswith needle hay ||
  match hay with
  | [] => false
  | _ :: hay' => contains needle hay'
  end.

(** [s.split()] : split on runs of white space, no empty pieces.
    [cur] is the piece being read, reversed. *)
Fixpoint split_ws_from (cur : str) (s : str) : list str :=
  match s with
  | [] => match cur with [] => [] | _ => [rev cur] end
  | c :: s' =>
      if is_space c
      then match cur with
           | [] => split_ws_from [] s'
           | _ => rev cur :: split_ws_from [] s'
           end
      else split_ws_from (c :: cur) s'
  end.

Definition split_ws (s : str) : list str := split_ws_from [] s.

(** [s.split(sep, 1)] for a one-character separator: the text before the
    first [sep] and the text after it, or [s] alone. *)
Fixpoint split_once_from (sep : ascii) (cur : str) (s : str) : list str :=
  match s with
  | [] => [rev cur]
  | c :: s' =>
      if Ascii.eqb c sep then [rev cur; s']
      else split_once_from sep (c :: cur) s'
  end.

Definition split_once (sep : ascii) (s : str) : list str :=
  split_once_from sep [] s.

(** [s.split(sep)[0]] for a one-character separator *)
Fixpoint before_first (sep : ascii) (s : str) : str :=
  match s with
  | [] => []
  | c :: s' => if Ascii.eqb c sep then [] else c :: before_first sep s'
  end.

(** [sep.join(parts)] *)
Fixpoint join (sep : str) (parts : list str) : str :=
  match parts with
  | [] => []
  | [p] => p
  | p :: rest => p ++ sep ++ join sep rest
  end.

(** [s.replace(old, new)] for a non-empty [old]; [fuel] bounds the scan
    and [S (length s)] is always enough. *)
Fixpoint replace_from (fuel : nat) (old new s : str) : str :=
  match fuel with
  | 0 => s
  | S fuel' =>
      match s with
      | [] => []
      | c :: s' =>
          if startswith old s
          then new ++ replace_from fuel' old new (skipn (length old) s)
          else c :: replace_from fuel' old new s'
      end
  end.

Definition replace (old new s : str) : str :=
  replace_from (S (length s)) old new s.

(** Comparison of strings, code point by code point, as [<=] on [str]. *)
Fixpoint str_leb (a b : str) : bool :=
  match a, b with
  | [], _ => true
  | _ :: _, [] => false
  | x :: a', y :: b' =>
      if code x <? code y then true
      else if code y <? code x then false
      else str_leb a' b'
  end.

(** [sorted(l)] on strings.  All sorting algorithms agree on a list of
    strings, the order being total; this one inserts. *)
Fixpoint insert_sorted (x : str) (l : list str) : list str :=
  match l with
  | [] => [x]
  | y :: l' => if str_leb x y then x :: l else y :: insert_sorted x l'
  end.

Definition sorted (l : list str) : list str :=
  fold_right insert_sorted [] l.

(** ** Regular expressions ([re])

    The fragment of Python's [re] the scripts use, with the semantics of
    its backtracking matcher: alternatives are tried greedily, longest
    repetition first, and the first success wins. *)

Inductive regex : Type :=
| Eps                          (* the empty pattern *)
| Cls (p : ascii -> bool)      (* one character of a class, [[...]] *)
| Bnd                          (* [\b] *)
| Cat (r1 r2 : regex)          (* [r1 r2] *)
| Opt (r : regex)              (* [r?] *)
| Rep (lo : nat) (r : regex).  (* [r{lo,}]; [r+] is [Rep 1 r] *)

Declare Scope regex_scope.
Delimit Scope regex_scope with regex.
Bind Scope regex_scope with regex.
Notation "r1 >> r2" := (Cat r1 r2)
  (at level 61, right associativity) : regex_scope.

Definition Chr (c : ascii) : regex := Cls (Ascii.eqb c).

(** A literal word *)
Fixpoint lit (s : str) : regex :=
  match s with
  | [] => Eps
  | [c] => Chr c
  | c :: s' => Cat (Chr c) (lit s')
  end.

(** [re.IGNORECASE], on ASCII text: a character matches when one of its
    cases does.  (Beyond ASCII, Python lets [[A-Z]] match four more
    characters, U+0130, U+0131, U+017F and U+212A, and counts the letters
    of every script as word characters for [\b]; the statements that
    depend on it carry the hypothesis [ascii_text].) *)
Definition icase_class (p : ascii -> bool) (c : ascii) : bool :=
  p c || p (lower_c c) || p (upper_c c).

Fixpoint icase (r : regex) : regex :=
  match r with
  | Eps => Eps
  | Cls p => Cls (icase_class p)
  | Bnd => Bnd
  | Cat r1 r2 => Cat (icase r1) (icase r2)
  | Opt r1 => Opt (icase r1)
  | Rep lo r1 => Rep lo (icase r1)
  end.

Definition is_word_opt (c : option ascii) : bool :=
  match c with
  | Some c => is_word c
  | None => false
  end.

(** The matcher reads [s], the text from the current position on, and
    knows [prev], the character before it ([None] at the start of the
    text).  [k] is what remains to be matched; the answer is the text left
    after the whole match.  A repetition stops when an iteration reads
    nothing, so [length s] iterations are all there can be. *)
Fixpoint rmatch (r : regex) (prev : option ascii) (s : str)
    (k : option ascii -> str -> option str) {struct r} : option str :=
  match r with
  | Eps => k prev s
  | Cls p =>
      match s with
      | c :: s' => if p c then k (Some c) s' else None
      | [] => None
      end
  | Bnd =>
      if xorb (is_word_opt prev) (is_word_opt (hd_error s))
      then k prev s else None
  | Cat r1 r2 =>
      rmatch r1 prev s (fun prev' s' => rmatch r2 prev' s' k)
  | Opt r1 =>
      match rmatch r1 prev s k with
      | Some rest => Some rest
      | None => k prev s
      end
  | Rep lo r1 =>
      (fix loop (fuel lo : nat) (prev : option ascii) (s : str)
         {struct fuel} : option str :=
         let stop := if lo =? 0 then k prev s else None in
         match fuel with
         | 0 => stop
         | S fuel' =>
             match rmatch r1 prev s
                     (fun prev' s' =>
                        if length s' <? length s
                        then loop fuel' (pred lo) prev' s'
                        else None)
             with
             | Some rest => Some rest
             | None => stop
             end
         end) (length s) lo prev s
  end.

(** [pattern.match] at one position: the matched text and what follows. *)
Definition match_here (r : regex) (prev : option ascii) (s : str)
  : option (str * str) :=
  match rmatch r prev s (fun _ rest => Some rest) with
  | Some rest => let n := length s - length rest in
                 Some (firstn n s, skipn n s)
  | None => None
  end.

(** The scan of [finditer], [findall] and [sub]: leftmost matches that do
    not overlap.  The patterns of the scripts match no empty text; on an
    empty match the scan moves on by one character. *)
Fixpoint scan (r : regex) (fuel : nat) (prev : option ascii) (s : str)
  : list (str + ascii) :=
  match fuel with
  | 0 => []
  | S fuel' =>
      match match_here r prev s, s with
      | Some (c0 :: m, rest), _ =>
          inl (c0 :: m) :: scan r fuel' (Some (last m c0)) rest
      | _, c :: s' => inr c :: scan r fuel' (Some c) s'
      | _, [] => []
      end
  end.

(** The pieces of [s]: matches ([inl]) and the characters between. *)
Definition pieces (r : regex) (s : str) : list (str + ascii) :=
  scan r (S (length s)) None s.

(** [[m.group(0) for m in r.finditer(s)]]; also [r.findall(s)] for a
    pattern without groups. *)
Definition finditer (r : regex) (s : str) : list str :=
  flat_map (fun p => match p with inl m => [m] | inr _ => [] end)
           (pieces r s).

(** [re.sub(r, repl, s)] *)
Definition re_sub (r : regex) (repl : str) (s : str) : str :=
  flat_map (fun p => match p with inl _ => repl | inr c => [c] end)
           (pieces r s).

(** ** Python sets

    A [set] of strings is kept as the sequence of its insertions.  The
    order in which Python iterates over it depends on the hashes of the
    strings, which change from one interpreter process to the next; within
    a process it is a function of the insertions.  [PySetOrder] is that
    function: any order of the distinct elements. *)

Definition pyset := list str.

(** The elements of a set, each once, by first insertion *)
Fixpoint dedup (l : list str) : list str :=
  match l with
  | [] => []
  | x :: l' => x :: filter (fun y => negb (str_eqb x y)) (dedup l')
  end.

Class PySetOrder := {
  set_iter : pyset -> list str;
  set_iter_perm : forall l, Permutation (set_iter l) (dedup l)
}.

(** Two orders a process may have: the insertions as they came, and the
    same backwards. *)
Definition insertion_order : PySetOrder :=
  {| set_iter := dedup;
     set_iter_perm := fun l => Permutation_refl _ |}.

Definition reversed_order : PySetOrder :=
  {| set_iter := fun l => rev (dedup l);
     set_iter_perm := fun l => Permutation_sym (Permutation_rev _) |}.

(** ** Effects: a trace of external calls, and exceptions *)

(** An exception, by the name of its class ([type(e).__name__]); all are
    subclasses of [Exception]. *)
Definition exn := str.

Inductive event : Type :=
| EvDns (domain : str)      (* [dns.resolver.resolve(domain, "MX")] *)
| EvHttp (url : str)        (* [requests.get(url, ...)] on a site *)
| EvSearch (query : str)    (* [requests.get] on the search provider *)
| EvSleep.                  (* [time.sleep] *)

Record response := {
  status_code : Z;
  content_type : option str;
  text : str
}.

(** The network, as seen by one run. *)
Record Net := {
  resolve_mx : str -> exn + list str;
  requests_get : str -> exn + response;
  serpapi_links : str -> exn + list str
}.

Inductive result (A : Type) : Type :=
| Ok (a : A)
| Raise (e : exn).
Arguments Ok {A} a.
Arguments Raise {A} e.

(** A computation: the calls it made, and its value or the exception
    that ended it. *)
Definition M (A : Type) : Type := list event * result A.

Definition ret {A} (a : A) : M A := ([], Ok a).

Definition bind {A B} (m : M A) (f : A -> M B) : M B :=
  match m with
  | (t1, Ok a) => let (t2, r) := f a in (t1 ++ t2, r)
  | (t1, Raise e) => (t1, Raise e)
  end.

Definition emit (ev : event) : M unit := ([ev], Ok tt).

Definition lift {A} (r : exn + A) : M A :=
  match r with
  | inl e => ([], Raise e)
  | inr a => ([], Ok a)
  end.

(** [try: m  except Exception as e: h e] *)
Definition try_except {A} (m : M A) (h : exn -> M A) : M A :=
  match m with
  | (t1, Ok a) => (t1, Ok a)
  | (t1, Raise e) => let (t2, r) := h e in (t1 ++ t2, r)
  end.

Declare Scope monad_scope.
Delimit Scope monad_scope with monad.
Notation "x <- m ;; k" := (bind m (fun x => k))
  (at level 61, m at next level, right associativity) : monad_scope.
Notation "m ;; k" := (bind m (fun _ => k))
  (at level 61, right associativity) : monad_scope.

Definition trace {A} (m : M A) : list event := fst m.
Definition outcome {A} (m : M A) : result A := snd m.

(** CSV rows as [csv.DictReader] yields them *)
Definition row := list (str * str).

(** [r.get(key)] *)
Fixpoint row_get (key : str) (r : row) : option str :=
  match r with
  | [] => None
  | (k, v) :: r' => if str_eqb k key then Some v else row_get key r'
  end.

(** [x or ""] *)
Definition or_empty (x : option str) : str :=
  match x with
  | Some v => v
  | None => []
  end.

(** Python loops: the body says whether to go on ([continue], or the end
    of the body) or to [break]. *)
Inductive flow (S : Type) : Type :=
| Next (s : S)
| Break (s : S).
Arguments Next {S} s.
Arguments Break {S} s.

Fixpoint for_each {A S : Type} (l : list A) (s : S)
    (body : S -> A -> M (flow S)) : M S :=
  match l with
  | [] => ret s
  | a :: l' =>
      bind (body s a) (fun f =>
        match f with
        | Next s' => for_each l' s' body
        | Break s' => ret s'
        end)
  end.

(** A [for] loop whose body may [return]: the value of the first
    iteration that returns, or [None] when the loop runs to its end. *)
Fixpoint for_return {A R : Type} (l : list A) (body : A -> option R)
  : option R :=
  match l with
  | [] => None
  | a :: l' =>
      match body a with
      | Some v => Some v
      | None => for_return l' body
      end
  end.

Definition nonempty (s : str) : bool :=
  match s with
  | [] => false
  | _ :: _ => true
  end.

Definition nonempty_list {A} (l : list A) : bool :=
  match l with
  | [] => false
  | _ :: _ => true
  end.

Definition mem (x : str) (l : list str) : bool := existsb (str_eqb x) l.

Open Scope monad_scope.

(** ** Names: [normalize_name], the same in both guessing scripts *)

Module Names.

Definition word (w : str) : regex := (Bnd >> lit w >> Bnd)%regex.

Definition LEGAL_SUFFIXES : list regex :=
  [ word "PTY"; word "PTY LTD"; word "LIMITED"; word "LTD";
    word "PROPRIETARY"; word "PROPRIETARY LIMITED";
    word "GROUP";
    (Bnd >> lit "HOLDING" >> Opt (Chr "S") >> Bnd)%regex;
    word "AUSTRALIA" ].

(** [[^A-Z0-9 ]] *)
Definition not_name_char (c : ascii) : bool :=
  negb (is_upper c || is_digit c || Ascii.eqb c " ").

Definition normalize_name (name : str) : str :=
  let n := upper name in
  let n := fold_left (fun n suf => re_sub suf "" n) LEGAL_SUFFIXES n in
  let n := re_sub (Cls not_name_char) "" n in
  let n := strip (re_sub (Rep 1 (Cls is_space)) " " n) in
  lower n.

End Names.

(** ** [guess/sysiphe_guess_emails.py] *)

Module GuessV1.

Definition normalize_name := Names.normalize_name.

Definition EMAIL_PREFIXES_AU : list str :=
  ["info"; "contact"; "hello"; "enquiries"; "enquiry";
   "sales"; "support"; "admin"].

Definition DOMAIN_SUFFIXES_AU : list str :=
  [".com.au"; ".net.au"; ".org.au"; ".com"].

Record guess := {
  abn : str;
  legal_name : str;
  guessed_domain : str;
  email : str;
  method : str
}.

(** [r.get("legal_name") or r.get("business_name") or ""] *)
Definition row_name (r : row) : str :=
  match row_get "legal_name" r with
  | Some (c :: n) => c :: n
  | _ => match row_get "business_name" r with
         | Some (c :: n) => c :: n
         | _ => ""
         end
  end.

Section Run.
Context {order : PySetOrder} (net : Net).

Definition generate_domain_candidates (base : str) : list str :=
  let tokens := split_ws base in
  let joined := join "" tokens in
  let dashed := join "-" tokens in
  let candidates : pyset :=
    flat_map (fun core =>
                if 4 <=? length core
                then map (fun suf => core ++ suf) DOMAIN_SUFFIXES_AU
                else [])
             (set_iter [joined; dashed]) in
  set_iter candidates.

Definition has_mx (domain : str) : M bool :=
  try_except
    (emit (EvDns domain) ;;
     answers <- lift (resolve_mx net domain) ;;
     ret (0 <? length answers))
    (fun _ => ret false).

Definition generate_emails (domain : str) : list str :=
  map (fun p => p ++ "@" ++ domain) EMAIL_PREFIXES_AU.

(** The loop over the domains of one company: the first domain with
    MX records gives the guesses, and ends the loop. *)
Definition domains_loop (r : row) (legal_name : str)
    (domains : list str) (results : list guess) : M (list guess) :=
  for_each domains results (fun results dom =>
    ok <- has_mx dom ;;
    if ok
    then ret (Break (results ++
           map (fun em => {| abn := or_empty (row_get "abn" r);
                             legal_name := legal_name;
                             guessed_domain := dom;
                             email := em;
                             method := "guess_mx" |})
               (generate_emails dom)))
    else ret (Next results)).

(** [main], from the rows read to the rows written *)
Definition main (rows : list row) : M (list guess) :=
  for_each rows [] (fun results r =>
    let legal_name := row_name r in
    if negb (nonempty (strip legal_name)) then ret (Next results)
    else
      let norm := normalize_name legal_name in
      let domains := generate_domain_candidates norm in
      results' <- domains_loop r legal_name domains results ;;
      ret (Next results')).

End Run.

End GuessV1.

(** ** [guess/sysiphe_guess_emails_v2.py] *)

Module GuessV2.

Definition normalize_name := Names.normalize_name.

Definition PREFERRED_PREFIXES_AU : list str :=
  ["enquiries"; "enquiry"; "contact"; "info"; "hello"; "sales"; "support"].

Definition DOMAIN_SUFFIXES_AU : list str :=
  [".com.au"; ".net.au"; ".org.au"; ".com"].

Definition GENERIC_TOKENS : list str :=
  ["insurance"; "steel"; "hardware"; "investments"; "finance";
   "solutions"; "services"; "group"].

Definition within (lo hi : nat) (s : str) : bool :=
  (lo <=? length s) && (length s <=? hi).

(** The set [cores] of [domain_core_candidates], as it is filled: the
    joined name, the hyphenated name and the first two tokens, each added
    when its length passes its test. *)
Definition accepted_cores (tokens : list str) : pyset :=
  let joined := join "" tokens in
  let dashed := join "-" tokens in
  let cores : pyset := [] in
  let cores := if within 4 24 joined then cores ++ [joined] else cores in
  let cores := if within 4 28 dashed then cores ++ [dashed] else cores in
  if 2 <=? length tokens
  then let core2 := join "" (firstn 2 tokens) in
       if within 4 18 core2 then cores ++ [core2] else cores
  else cores.

Record guess := {
  abn : str;
  legal_name : str;
  display_name : str;
  guessed_domain : str;
  email : str;
  confidence : Z;
  site_ok : str;
  mx : str;
  method : str
}.

Record totals := {
  results : list guess;
  tested : nat;
  kept : nat
}.

Definition domain_candidates (cores : list str) : list str :=
  flat_map (fun core => map (fun suf => core ++ suf) DOMAIN_SUFFIXES_AU)
           cores.

Definition is_obvious_sink (mx_list : list str) : bool := false.

(** [business_name or legal_name], both stripped *)
Definition row_name (r : row) : str :=
  let legal_name := strip (or_empty (row_get "legal_name" r)) in
  let business_name := strip (or_empty (row_get "business_name" r)) in
  if nonempty business_name then business_name else legal_name.

(** The body of the loop of [best_email] is a [return]. *)
Definition best_email_loop (domain : str) : option str :=
  for_return PREFERRED_PREFIXES_AU (fun p => Some (p ++ "@" ++ domain)).

Definition best_email (domain : str) : str :=
  match best_email_loop domain with
  | Some address => address
  | None => "info@" ++ domain
  end.

Definition confidence_score (domain norm_name : str)
    (mx_list : list str) (site_ok : bool) : Z :=
  let score := 0%Z in
  let score := if nonempty_list mx_list then (score + 40)%Z else score in
  let score := if site_ok then (score + 30)%Z else score in
  let tokens := split_ws norm_name in
  let score :=
    match tokens with
    | [] => score
    | t0 :: _ =>
        let core := before_first "." domain in
        let score := if contains t0 core then (score + 20)%Z else score in
        match tokens with
        | _ :: t1 :: _ => if contains t1 core then (score + 10)%Z else score
        | _ => score
        end
    end in
  Z.min score 100.

Section Run.
Context {order : PySetOrder} (net : Net).

Definition domain_core_candidates (norm : str) : list str :=
  let tokens := filter nonempty (split_ws norm) in
  match tokens with
  | [] => []
  | t0 :: _ =>
      if (length tokens =? 1) && mem t0 GENERIC_TOKENS then []
      else set_iter (accepted_cores tokens)
  end.

Definition mx_hosts (domain : str) : M (list str) :=
  try_except
    (emit (EvDns domain) ;;
     answers <- lift (resolve_mx net domain) ;;
     ret (map (fun r => lower (rstrip_by (Ascii.eqb ".") r)) answers))
    (fun _ => ret []).

Definition site_responds (domain : str) : M bool :=
  for_each ["https://"; "http://"] false (fun _ scheme =>
    let url := scheme ++ domain in
    try_except
      (emit (EvHttp url) ;;
       r <- lift (requests_get net url) ;;
       if (status_code r <? 500)%Z then ret (Break true)
       else ret (Next false))
      (fun _ => ret (Next false))).

(** The state of the loop over the candidates of one company *)
Definition probe_state : Type := nat * option guess.

Definition probe (r : row) (legal_name name norm : str)
    (st : probe_state) (dom : str) : M (flow probe_state) :=
  let '(tested, best) := st in
  let tested := S tested in
  mx_list <- mx_hosts dom ;;
  if negb (nonempty_list mx_list) then ret (Next (tested, best))
  else if is_obvious_sink mx_list then ret (Next (tested, best))
  else
    site_ok <- site_responds dom ;;
    let score := confidence_score dom norm mx_list site_ok in
    let better :=
      match best with
      | None => true
      | Some b => (confidence b <? score)%Z
      end in
    if better
    then ret (Next (tested,
           Some {| abn := or_empty (row_get "abn" r);
                   legal_name := legal_name;
                   display_name := name;
                   guessed_domain := dom;
                   email := best_email dom;
                   confidence := score;
                   site_ok := if site_ok then "yes" else "no";
                   mx := join ";" (firstn 3 mx_list);
                   method := "guess_mx_http" |}))
    else ret (Next (tested, best)).

Definition company (st : totals) (r : row) : M (flow totals) :=
  let legal_name := strip (or_empty (row_get "legal_name" r)) in
  let name := row_name r in
  if negb (nonempty name) then ret (Next st)
  else
    let norm := normalize_name name in
    let cores := domain_core_candidates norm in
    if negb (nonempty_list cores) then ret (Next st)
    else
      let candidates := domain_candidates cores in
      p <- for_each candidates (tested st, None)
             (probe r legal_name name norm) ;;
      match snd p with
      | Some best =>
          ret (Next {| results := results st ++ [best];
                       tested := fst p;
                       kept := S (kept st) |})
      | None =>
          ret (Next {| results := results st;
                       tested := fst p;
                       kept := kept st |})
      end.

(** [main], from the rows read to the rows written *)
Definition main (rows : list row) : M totals :=
  for_each rows {| results := []; tested := 0; kept := 0 |} company.

End Run.

End GuessV2.

(** ** [guess/sysiphe_guess_verify_email.py] *)

Module GuessVerify.

(** [[a-zA-Z0-9._%+-]] *)
Definition local_char (c : ascii) : bool :=
  is_lower c || is_upper c || is_digit c || one_of "._%+-" c.

(** [[a-zA-Z0-9-]] *)
Definition label_char (c : ascii) : bool :=
  is_lower c || is_upper c || is_digit c || Ascii.eqb c "-".

(** [[a-zA-Z]] *)
Definition tld_char (c : ascii) : bool := is_lower c || is_upper c.

(** [\b[a-zA-Z0-9._%+-]+@([a-zA-Z0-9-]+\.)+[a-zA-Z]{2,}\b] *)
Definition EMAIL_RE : regex :=
  (Bnd >> Rep 1 (Cls local_char) >> Chr "@" >>
   Rep 1 (Rep 1 (Cls label_char) >> Chr ".") >>
   Rep 2 (Cls tld_char) >> Bnd)%regex.

Definition BAD_EMAIL_HINTS : list str :=
  ["example.com"; "yourcompany.com"; "email.com"; "test.com"; "domain.com"].

Section Run.
Context {order : PySetOrder}.

Definition extract_emails (txt : str) : list str :=
  let emails : pyset := map lower (finditer EMAIL_RE txt) in
  let out :=
    filter (fun e => negb (existsb (fun bad => contains bad e)
                                   BAD_EMAIL_HINTS))
           (set_iter emails) in
  sorted out.

End Run.

Definition CONTACT_PATHS : list str :=
  ["/contact"; "/contact-us"; "/about"; "/about-us"; "/support";
   "/enquiries"].

(** [norm_domain(d)]; [d] is [None] for a missing value ([d or ""]). *)
Definition norm_domain (d : option str) : str :=
  let d := lower (strip (or_empty d)) in
  let d := replace "http://" "" (replace "https://" "" d) in
  let d := before_first "/" d in
  if startswith "www." d then skipn 4 d else d.

Definition preferred : list str :=
  ["contact@"; "info@"; "hello@"; "enquiries@"; "enquiry@"; "sales@";
   "support@"; "admin@"].

(** The two loops of [pick_best_email]: the first address, in the order
    of the list, that starts with the earliest prefix some address starts
    with. *)
Definition preferred_email (prefixes emails : list str) : option str :=
  for_return prefixes (fun p =>
    for_return emails (fun e =>
      if startswith p e then Some e else None)).

Definition pick_best_email (emails : list str) : option str :=
  match emails with
  | [] => None
  | e0 :: _ =>
      match preferred_email preferred emails with
      | Some e => Some e
      | None => Some e0
      end
  end.

(** A row of the output *)
Record verified_row := {
  abn : str;
  legal_name : str;
  domain : str;
  email : str;
  found_url : str;
  method : str
}.

Section Site.
Context {order : PySetOrder} (net : Net).

Definition fetch (url : str) : M (option str) :=
  try_except
    (emit (EvHttp url) ;;
     r <- lift (requests_get net url) ;;
     if (status_code r =? 200)%Z then ret (Some (text r))
     else ret None)
    (fun _ => ret None).

(** The address and the page it was found on, or [None] for
    [(None, None)]. *)
Definition verify_email_on_site (domain : str) : M (option (str * str)) :=
  let base := "https://" ++ domain in
  for_each ("" :: CONTACT_PATHS) None (fun _ path =>
    let url := if nonempty path
               then rstrip_by (Ascii.eqb "/") base ++ path
               else base in
    html <- fetch url ;;
    match html with
    | None | Some [] => ret (Next None)
    | Some html =>
        let emails := extract_emails html in
        match pick_best_email emails with
        | Some (c :: e) => ret (Break (Some (c :: e, url)))
        | _ => ret (Next None)
        end
    end).

(** The rows written and the count [found] *)
Definition verify_state : Type := list verified_row * nat.

Definition company (st : verify_state) (r : row) : M (flow verify_state) :=
  let abn := strip (or_empty (row_get "abn" r)) in
  let name := strip (or_empty (row_get "legal_name" r)) in
  let dom := norm_domain (row_get "guessed_domain" r) in
  if negb (nonempty dom) then ret (Next st)
  else
    res <- verify_email_on_site dom ;;
    let st' :=
      match res with
      | Some (email, url) =>
          (fst st ++ [{| abn := abn; legal_name := name; domain := dom;
                         email := email; found_url := url;
                         method := "verify_on_site" |}],
           S (snd st))
      | None => st
      end in
    emit EvSleep ;;
    ret (Next st').

(** [main], from the rows read to the rows written *)
Definition main (rows : list row) : M verify_state :=
  for_each rows ([], 0) company.

End Site.

End GuessVerify.

(** ** [pipeline_100%/sysiphe_scrape_emails_from_sites.py] *)

Module Scrape.

(** [[a-zA-Z0-9._%+-]] *)
Definition local_char (c : ascii) : bool :=
  is_lower c || is_upper c || is_digit c || one_of "._%+-" c.

(** [[a-zA-Z0-9.-]] *)
Definition host_char (c : ascii) : bool :=
  is_lower c || is_upper c || is_digit c || one_of ".-" c.

(** [[a-zA-Z]] *)
Definition tld_char (c : ascii) : bool := is_lower c || is_upper c.

(** [\b[a-zA-Z0-9._%+-]+@[a-zA-Z0-9.-]+\.[a-zA-Z]{2,}\b] *)
Definition EMAIL_RE : regex :=
  (Bnd >> Rep 1 (Cls local_char) >> Chr "@" >>
   Rep 1 (Cls host_char) >> Chr "." >>
   Rep 2 (Cls tld_char) >> Bnd)%regex.

Definition BAD_EMAIL_HINTS : list str :=
  ["example.com"; "yourcompany.com"; "email.com"].

Section Run.
Context {order : PySetOrder}.

Definition extract_emails (html : str) : list str :=
  let emails : pyset := map lower (finditer EMAIL_RE html) in
  let clean :=
    filter (fun e => negb (existsb (fun bad => contains bad e)
                                   BAD_EMAIL_HINTS))
           (set_iter emails) in
  sorted clean.

End Run.

Definition preferred_prefixes : list str :=
  ["info@"; "contact@"; "hello@"; "sales@"; "support@"; "admin@";
   "enquiries@"; "enquiry@"; "office@"].

(** The two loops of [pick_best_email] *)
Definition preferred_email (prefixes emails : list str) : option str :=
  for_return prefixes (fun p =>
    for_return emails (fun e =>
      if startswith p e then Some e else None)).

Definition pick_best_email (emails : list str) : str :=
  match emails with
  | [] => ""
  | e0 :: _ =>
      match preferred_email preferred_prefixes emails with
      | Some e => e
      | None => e0
      end
  end.

(** The pages of a site that [main] reads *)
Definition pages (site_url : str) : list str :=
  [site_url; site_url ++ "/contact"; site_url ++ "/contact-us";
   site_url ++ "/about"; site_url ++ "/about-us"; site_url ++ "/support";
   site_url ++ "/help"].

(** A row of [csv.DictReader]: a value for each field of the header,
    [None] for a field that the line is short of. *)
Definition csv_row : Type := list (str * option str).

(** [r[key]]: [KeyError] when the header has no such field *)
Fixpoint getitem (key : str) (r : csv_row) : exn + option str :=
  match r with
  | [] => inl "KeyError"
  | (k, v) :: r' => if str_eqb k key then inr v else getitem key r'
  end.

(** [l[:n]]: a negative [n] counts from the end. *)
Definition slice_to {A : Type} (n : Z) (l : list A) : list A :=
  if (0 <=? n)%Z then firstn (Z.to_nat n) l
  else firstn (length l - Z.to_nat (- n)) l.

(** The parameters of one [INSERT] into [targets_contacts] *)
Record contact := {
  target_id : option str;
  email : str;
  found_method : str;
  found_url : str
}.

(** The database, as seen by one run: [psycopg2.connect], the
    [execute] of an insert in its cursor, and [conn.close]. *)
Record Db := {
  connect : exn + unit;
  execute : contact -> exn + unit;
  close : exn + unit
}.

(** The inserts executed, and the counts [ok_email] and [fail] *)
Record totals := {
  inserted : list contact;
  ok_email : nat;
  fail : nat
}.

Section Site.
Context {order : PySetOrder} (net : Net) (db : Db).

(** [raise_for_status] raises on the statuses from 400 to 599. *)
Definition fetch_url (url : str) : M str :=
  emit (EvHttp url) ;;
  r <- lift (requests_get net url) ;;
  if (400 <=? status_code r)%Z && (status_code r <? 600)%Z
  then lift (inl "HTTPError")
  else ret (text r).

(** The body of the loop over the pages: the set [emails_found] grows
    by the addresses of the page, or stays when the page fails. *)
Definition read_page (emails_found : pyset) (u : str) : M (flow pyset) :=
  try_except
    (html <- fetch_url u ;;
     ret (Next (emails_found ++ extract_emails html)))
    (fun _ => ret (Next emails_found)).

(** The body of the loop over the rows.  The tuple [pages] is built
    before the [try]: [site_url + "/contact"] raises [TypeError] when
    [site_url] is [None]. *)
Definition site (st : totals) (r : option str * option str)
  : M (flow totals) :=
  let '(target_id, site_url) := r in
  match site_url with
  | None => lift (inl "TypeError")
  | Some site_url =>
      emails_found <- for_each (pages site_url) [] read_page ;;
      let best := pick_best_email (sorted (set_iter emails_found)) in
      st' <-
        (if nonempty best
         then
           let c := {| target_id := target_id; email := best;
                       found_method := "site_scrape";
                       found_url := site_url |} in
           lift (execute db c) ;;
           ret {| inserted := inserted st ++ [c];
                  ok_email := S (ok_email st);
                  fail := fail st |}
         else ret {| inserted := inserted st;
                     ok_email := ok_email st;
                     fail := S (fail st) |}) ;;
      emit EvSleep ;;
      ret (Next st')
  end.

(** The loop that reads the file: the pair of the two fields of each
    row *)
Definition read_rows (csv_rows : list csv_row)
  : M (list (option str * option str)) :=
  for_each csv_rows [] (fun rows r =>
    target_id <- lift (getitem "target_id" r) ;;
    website_url <- lift (getitem "website_url" r) ;;
    ret (Next (rows ++ [(target_id, website_url)]))).

(** [main], from the rows of the CSV file to the inserts; [batch] is
    [BATCH]. *)
Definition main (batch : Z) (csv_rows : list csv_row) : M totals :=
  rows <- read_rows csv_rows ;;
  let rows := slice_to batch rows in
  lift (connect db) ;;
  st <- for_each rows {| inserted := []; ok_email := 0; fail := 0 |} site ;;
  lift (close db) ;;
  ret st.

End Site.

End Scrape.

(** ** [search/sysiphe_search_email.py] *)

Module Search.

(** [[A-Z0-9._%+-]] *)
Definition local_char (c : ascii) : bool :=
  is_upper c || is_digit c || one_of "._%+-" c.

(** [[A-Z0-9.-]] *)
Definition host_char (c : ascii) : bool :=
  is_upper c || is_digit c || one_of ".-" c.

(** [[A-Z]] *)
Definition tld_char (c : ascii) : bool := is_upper c.

(** [\b[A-Z0-9._%+-]+@[A-Z0-9.-]+\.[A-Z]{2,}\b], with [re.IGNORECASE] *)
Definition EMAIL_RE : regex :=
  icase (Bnd >> Rep 1 (Cls local_char) >> Chr "@" >>
         Rep 1 (Cls host_char) >> Chr "." >>
         Rep 2 (Cls tld_char) >> Bnd)%regex.

Definition LOCALPART_PRIORITY : list str :=
  ["contact"; "hello"; "info"; "support"; "sales"; "admin";
   "enquiries"; "enquiry"; "privacy"].

(** The dataclass [FoundEmail]; its fields carry [fe_] to keep them apart
    from the keys of the output rows. *)
Record FoundEmail := {
  fe_email : str;
  fe_source_url : str;
  fe_confidence : Z;
  fe_reason : str
}.

Definition normalize_email (email : str) : str := lower (strip email).

Definition domain_from_email (email : str) : str :=
  match split_once "@" email with
  | [_; d] => strip (lower d)
  | _ => ""
  end.

Definition free : list str :=
  ["gmail.com"; "googlemail.com"; "outlook.com"; "hotmail.com"; "live.com";
   "yahoo.com"; "yahoo.com.au"; "icloud.com"; "aol.com"; "proton.me";
   "protonmail.com"].

(** The loop over [enumerate(LOCALPART_PRIORITY)], which stops at the
    first local part that is the one of the address: the bonus and the
    tag, from rank [i] on. *)
Fixpoint localpart_bonus (i : Z) (lps : list str) (localpart : str)
  : option (Z * str) :=
  match lps with
  | [] => None
  | lp :: rest =>
      if str_eqb localpart lp
      then Some (Z.max 0 (25 - i * 3), "lp=" ++ lp)
      else localpart_bonus (i + 1) rest localpart
  end.

Definition score_email (email : str) (expected_domain : option str)
  : Z * str :=
  let e := normalize_email email in
  let dom := domain_from_email e in
  let localpart := hd "" (split_once "@" e) in
  let score := 50%Z in
  let reason : list str := [] in
  let '(score, reason) :=
    if mem dom free
    then ((score - 35)%Z, reason ++ ["free_provider"])
    else (score, reason) in
  let '(score, reason) :=
    match expected_domain with
    | Some (c :: d) =>
        let exp := strip (lower (c :: d)) in
        let exp := before_first "/"
                     (replace "https://" "" (replace "http://" "" exp)) in
        let exp := lstrip_by (one_of "www.") exp in
        if str_eqb dom exp
        then ((score + 35)%Z, reason ++ ["domain_match"])
        else if endswith ("." ++ exp) dom
        then ((score + 20)%Z, reason ++ ["subdomain_match"])
        else ((score - 10)%Z, reason ++ ["domain_mismatch"])
    | _ => (score, reason)
    end in
  let '(score, reason) :=
    match localpart_bonus 0 LOCALPART_PRIORITY localpart with
    | Some (bonus, tag) => ((score + bonus)%Z, reason ++ [tag])
    | None => (score, reason)
    end in
  let score := Z.max 0 (Z.min 100 score) in
  (score, if nonempty_list reason then join "," reason else "generic").

Definition build_query (legal_name state postcode : str) : str :=
  let name := strip legal_name in
  let extra :=
    join " " (map strip (filter (fun x => nonempty x && nonempty (strip x))
                                [state; postcode])) in
  let quote : str := ["034"%char] in
  if nonempty extra
  then quote ++ name ++ quote ++ " " ++ extra ++ " contact email"
  else quote ++ name ++ quote ++ " contact email".

(** A row of the output *)
Record found := {
  abn : str;
  legal_name : str;
  email : str;
  confidence : Z;
  source_url : str;
  reason : str;
  query : str
}.

(** [(row.get("legal_name") or row.get("business_name") or "").strip()] *)
Definition row_name (r : row) : str :=
  strip (match row_get "legal_name" r with
         | Some (c :: n) => c :: n
         | _ => match row_get "business_name" r with
                | Some (c :: n) => c :: n
                | _ => ""
                end
         end).

Record arguments := {
  links : Z;
  user_agent : str;
  expected_domain_field : str
}.

Record totals := {
  results : list found;
  tested : nat;
  n_found : nat
}.

Section Run.
Context {order : PySetOrder} (net : Net).

Definition pick_best_email (emails : pyset)
    (expected_domain : option str) (source_url : str)
  : option FoundEmail :=
  fold_left
    (fun best em =>
       let '(s, why) := score_email em expected_domain in
       let better :=
         match best with
         | None => true
         | Some b => (fe_confidence b <? s)%Z
         end in
       if better
       then Some {| fe_email := normalize_email em;
                    fe_source_url := source_url;
                    fe_confidence := s;
                    fe_reason := why |}
       else best)
    (set_iter emails) None.

(** The provider answers with the [link] of each of its organic
    results ([""] for a result without one), or the request, its status
    or its JSON raises. *)
Definition search_serpapi (query : str) (num : Z) : M (list str) :=
  emit (EvSearch query) ;;
  organic <- lift (serpapi_links net query) ;;
  ret (filter nonempty (firstn (Z.to_nat num) organic)).

Definition fetch_page (url : str) : M (option str) :=
  try_except
    (emit (EvHttp url) ;;
     r <- lift (requests_get net url) ;;
     if (400 <=? status_code r)%Z then ret None
     else
       let ctype := lower (or_empty (content_type r)) in
       if negb (contains "text/html" ctype)
          && negb (contains "text/plain" ctype)
       then ret None
       else ret (Some (text r)))
    (fun _ => ret None).

Definition extract_emails_from_text (txt : option str) : pyset :=
  finditer EMAIL_RE (or_empty txt).

(** The state of the loop over the result pages of one company *)
Definition fetch_state : Type := Z * option FoundEmail.

Definition page (args : arguments) (expected_domain : option str)
    (st : fetch_state) (url : str) : M (flow fetch_state) :=
  let '(fetched, best) := st in
  if (links args <=? fetched)%Z then ret (Break st)
  else
    let fetched := (fetched + 1)%Z in
    html <- fetch_page url ;;
    match html with
    | None | Some [] => ret (Next (fetched, best))
    | Some html =>
        let emails := extract_emails_from_text (Some html) in
        if negb (nonempty_list emails) then ret (Next (fetched, best))
        else
          let candidate := pick_best_email emails expected_domain url in
          let best :=
            match candidate, best with
            | Some c, None => Some c
            | Some c, Some b =>
                if (fe_confidence b <? fe_confidence c)%Z then Some c
                else Some b
            | None, _ => best
            end in
          match best with
          | Some b =>
              if (85 <=? fe_confidence b)%Z
              then ret (Break (fetched, best))
              else ret (Next (fetched, best))
          | None => ret (Next (fetched, best))
          end
    end.

Definition company (args : arguments) (st : totals) (r : row)
  : M (flow totals) :=
  let tested := S (tested st) in
  let abn := strip (or_empty (row_get "abn" r)) in
  let legal_name := row_name r in
  let state := strip (or_empty (row_get "main_state" r)) in
  let postcode := strip (or_empty (row_get "main_postcode" r)) in
  let expected_domain :=
    if nonempty (expected_domain_field args)
    then match strip (or_empty (row_get (expected_domain_field args) r))
         with
         | [] => None
         | d => Some d
         end
    else None in
  if negb (nonempty legal_name)
  then ret (Next {| results := results st ++
                      [{| abn := abn; legal_name := ""; email := "";
                          confidence := 0; source_url := "";
                          reason := "missing_legal_name";
                          query := "" |}];
                    tested := tested; n_found := n_found st |})
  else
    let query := build_query legal_name state postcode in
    (* 1) search: the [try] holds this call alone *)
    searched <-
      try_except
        (urls <- search_serpapi query (Z.max 5 (links args)) ;;
         ret (inr urls))
        (fun e =>
           emit EvSleep ;;
           ret (inl {| results := results st ++
                         [{| abn := abn; legal_name := legal_name;
                             email := ""; confidence := 0;
                             source_url := "";
                             reason := "search_error:" ++ e;
                             query := query |}];
                       tested := tested; n_found := n_found st |})) ;;
    match searched with
    | inl st' => ret (Next st')
    | inr urls =>
        (* 2) fetch a couple of pages and extract *)
        p <- for_each urls (0%Z, None) (page args expected_domain) ;;
        let st' :=
          match snd p with
          | Some best =>
              {| results := results st ++
                   [{| abn := abn; legal_name := legal_name;
                       email := fe_email best;
                       confidence := fe_confidence best;
                       source_url := fe_source_url best;
                       reason := fe_reason best;
                       query := query |}];
                 tested := tested; n_found := S (n_found st) |}
          | None =>
              {| results := results st ++
                   [{| abn := abn; legal_name := legal_name;
                       email := ""; confidence := 0;
                       source_url := "";
                       reason := "not_found";
                       query := query |}];
                 tested := tested; n_found := n_found st |}
          end in
        emit EvSleep ;;
        ret (Next st')
    end.

(** [main], from the rows read to the rows written *)
Definition main (args : arguments) (rows : list row) : M totals :=
  for_each rows {| results := []; tested := 0; n_found := 0 |}
           (company args).

End Run.

End Search.

(** ** Vocabulary of the properties *)

(** The position of the first [x] in [l] *)
Fixpoint index_of (x : str) (l : list str) : option nat :=
  match l with
  | [] => None
  | y :: l' => if str_eqb x y then Some 0
               else option_map S (index_of x l')
  end.

(** [a] and [b] are both in [l], and [a] comes first *)
Definition before (a b : str) (l : list str) : bool :=
  match index_of a l, index_of b l with
  | Some i, Some j => i <? j
  | _, _ => false
  end.

(** [a <= b] on strings *)
Definition str_le (a b : str) : Prop := str_leb a b = true.

(** No marker of [hints] occurs in [e] *)
Definition marker_free (hints : list str) (e : str) : Prop :=
  forall bad, In bad hints -> contains bad e = false.

(** Two patterns of the same shape whose classes hold the same
    characters *)
Fixpoint regex_eqv (r r' : regex) : Prop :=
  match r, r' with
  | Eps, Eps => True
  | Cls p, Cls q => forall c, p c = q c
  | Bnd, Bnd => True
  | Cat a b, Cat a' b' => regex_eqv a a' /\ regex_eqv b b'
  | Opt a, Opt a' => regex_eqv a a'
  | Rep n a, Rep n' a' => n = n' /\ regex_eqv a a'
  | _, _ => False
  end.

(** The order of section 4.2: every candidate made of the full name,
    joined or hyphenated, comes before every candidate made of the first
    two tokens. *)
Definition full_name_first {order : PySetOrder} (norm : str) : Prop :=
  let tokens := split_ws norm in
  let cands :=
    GuessV2.domain_candidates (GuessV2.domain_core_candidates norm) in
  forall full suf suf',
    full = join "" tokens \/ full = join "-" tokens ->
    full <> join "" (firstn 2 tokens) ->
    In (full ++ suf) cands ->
    In (join "" (firstn 2 tokens) ++ suf') cands ->
    before (full ++ suf) (join "" (firstn 2 tokens) ++ suf') cands = true.

(** The domains asked of the DNS, in the order of the calls *)
Definition dns_calls (t : list event) : list str :=
  flat_map (fun ev => match ev with EvDns d => [d] | _ => [] end) t.

(** The URLs requested over HTTP, in the order of the calls *)
Definition http_calls (t : list event) : list str :=
  flat_map (fun ev => match ev with EvHttp u => [u] | _ => [] end) t.

(** The queries sent to the search provider *)
Definition search_calls (t : list event) : list str :=
  flat_map (fun ev => match ev with EvSearch q => [q] | _ => [] end) t.

(** What the network says of a domain, as [sysiphe_guess_emails_v2.py]
    reads it: its mail exchangers, whether its site responds, and its
    score for a company of normalized name [norm]. *)
Definition mx_of (net : Net) (d : str) : list str :=
  match resolve_mx net d with
  | inr answers => map (fun r => lower (rstrip_by (Ascii.eqb ".") r)) answers
  | inl _ => []
  end.

Definition verified (net : Net) (d : str) : bool := nonempty_list (mx_of net d).

Definition responds (net : Net) (url : str) : bool :=
  match requests_get net url with
  | inr r => (status_code r <? 500)%Z
  | inl _ => false
  end.

Definition site_of (net : Net) (d : str) : bool :=
  responds net ("https://" ++ d) || responds net ("http://" ++ d).

Definition score_of (net : Net) (norm d : str) : Z :=
  GuessV2.confidence_score d norm (mx_of net d) (site_of net d).

(** The best guess once [dom] has been probed, [best] being the best of
    the candidates before it *)
Definition best_after (net : Net) (r : row) (legal_name name norm : str)
    (best : option GuessV2.guess) (dom : str) : option GuessV2.guess :=
  if verified net dom
  then if match best with
          | None => true
          | Some b => (GuessV2.confidence b <? score_of net norm dom)%Z
          end
       then Some {| GuessV2.abn := or_empty (row_get "abn" r);
                    GuessV2.legal_name := legal_name;
                    GuessV2.display_name := name;
                    GuessV2.guessed_domain := dom;
                    GuessV2.email := GuessV2.best_email dom;
                    GuessV2.confidence := score_of net norm dom;
                    GuessV2.site_ok := if site_of net dom then "yes" else "no";
                    GuessV2.mx := join ";" (firstn 3 (mx_of net dom));
                    GuessV2.method := "guess_mx_http" |}
       else best
  else best.

(** [best] is the choice among [cands] of the loop of
    [sysiphe_guess_emails_v2.py]: none when no candidate has mail, or
    else a candidate with mail whose score no other one with mail
    exceeds, and that those before it do not reach. *)
Definition earliest_best (net : Net) (norm : str) (cands : list str)
    (best : option GuessV2.guess) : Prop :=
  match best with
  | None => forall c, In c cands -> verified net c = false
  | Some b =>
      exists l1 l2,
        cands = l1 ++ GuessV2.guessed_domain b :: l2
        /\ verified net (GuessV2.guessed_domain b) = true
        /\ GuessV2.confidence b
           = score_of net norm (GuessV2.guessed_domain b)
        /\ (forall c, In c l1 -> verified net c = true ->
                      (score_of net norm c < GuessV2.confidence b)%Z)
        /\ (forall c, In c l2 -> verified net c = true ->
                      (score_of net norm c <= GuessV2.confidence b)%Z)
  end.

(** The guesses [sysiphe_guess_emails.py] writes for a domain *)
Definition guesses_v1 (r : row) (legal_name dom : str)
  : list GuessV1.guess :=
  map (fun em => {| GuessV1.abn := or_empty (row_get "abn" r);
                    GuessV1.legal_name := legal_name;
                    GuessV1.guessed_domain := dom;
                    GuessV1.email := em;
                    GuessV1.method := "guess_mx" |})
      (GuessV1.generate_emails dom).

(** The guessed domains of a finished run of [sysiphe_guess_emails_v2.py] *)
Definition guessed_domains (m : M GuessV2.totals) : list str :=
  match outcome m with
  | Ok st => map GuessV2.guessed_domain (GuessV2.results st)
  | Raise _ => []
  end.

(** The candidate domains of a row in [sysiphe_guess_emails_v2.py] *)
Definition row_candidates {order : PySetOrder} (r : row) : list str :=
  let name := GuessV2.row_name r in
  if nonempty name
  then GuessV2.domain_candidates
         (GuessV2.domain_core_candidates (GuessV2.normalize_name name))
  else [].

(** The query of a row in [sysiphe_search_email.py] *)
Definition row_query (r : row) : str :=
  Search.build_query (Search.row_name r)
    (strip (or_empty (row_get "main_state" r)))
    (strip (or_empty (row_get "main_postcode" r))).

(** The row [sysiphe_search_email.py] writes when the search raises [e] *)
Definition search_error_row (r : row) (e : exn) : Search.found :=
  {| Search.abn := strip (or_empty (row_get "abn" r));
     Search.legal_name := Search.row_name r;
     Search.email := "";
     Search.confidence := 0;
     Search.source_url := "";
     Search.reason := "search_error:" ++ e;
     Search.query := row_query r |}.

(** [out] is a faithful record of [r] as far as the search goes: when the
    search for a named company raises, [out] says so. *)
Definition recorded (net : Net) (r : row) (out : Search.found) : Prop :=
  forall e,
    nonempty (Search.row_name r) = true ->
    serpapi_links net (row_query r) = inl e ->
    out = search_error_row r e.

(** The texts a pattern can match, the word boundaries left aside *)
Fixpoint shape (r : regex) (m : str) : Prop :=
  match r with
  | Eps => m = []
  | Cls p => exists c, m = [c] /\ p c = true
  | Bnd => m = []
  | Cat r1 r2 => exists m1 m2, m = m1 ++ m2 /\ shape r1 m1 /\ shape r2 m2
  | Opt r1 => m = [] \/ shape r1 m
  | Rep lo r1 =>
      exists ms, m = concat ms /\ Forall (shape r1) ms /\ lo <= length ms
  end.

(** [m] occurs in [s] *)
Definition occurs_in (m s : str) : Prop :=
  exists pre post, s = pre ++ m ++ post.

(** All the characters of [s] are of the class [p] *)
Definition all_of (p : ascii -> bool) (s : str) : Prop :=
  Forall (fun c => p c = true) s.

(** An address as the patterns of the harvesters see it: a local part,
    ["@"], a host, ["."] and a last label of two letters or more; [hostc]
    is the class of the characters of the host. *)
Definition address_shape (localc hostc tldc : ascii -> bool) (m : str)
  : Prop :=
  exists local host tld,
    m = local ++ "@" ++ host ++ "." ++ tld
    /\ local <> [] /\ all_of localc local
    /\ host <> [] /\ all_of hostc host
    /\ 2 <= length tld /\ all_of tldc tld.

(** The classes of the addresses once in lower case: [[a-z0-9._%+-]] and
    [[a-z0-9.-]] *)
Definition lower_local_char (c : ascii) : bool :=
  is_lower c || is_digit c || one_of "._%+-" c.

Definition lower_host_char (c : ascii) : bool :=
  is_lower c || is_digit c || one_of ".-" c.

(** [[a-z0-9 ]], the characters of a normalized name, and [[a-z0-9-]],
    those of a core *)
Definition norm_char (c : ascii) : bool :=
  is_lower c || is_digit c || Ascii.eqb c " ".

Definition core_char (c : ascii) : bool :=
  is_lower c || is_digit c || Ascii.eqb c "-".

Definition alnum_char (c : ascii) : bool := is_lower c || is_digit c.

(** The requests [site_responds] makes for a domain: HTTPS, and HTTP
    when HTTPS gave no answer below 500. *)
Definition site_requests (net : Net) (d : str) : list str :=
  if responds net ("https://" ++ d)
  then ["https://" ++ d]
  else ["https://" ++ d; "http://" ++ d].

(** A candidate of the row has mail. *)
Definition has_mail {order : PySetOrder} (net : Net) (r : row) : bool :=
  existsb (verified net) (row_candidates r).

Definition opt_list {A : Type} (o : option A) : list A :=
  match o with
  | Some a => [a]
  | None => []
  end.

(** The guess that the loop over the candidates of a row ends with *)
Definition company_best {order : PySetOrder} (net : Net) (r : row)
  : option GuessV2.guess :=
  fold_left
    (best_after net r (strip (or_empty (row_get "legal_name" r)))
       (GuessV2.row_name r) (GuessV2.normalize_name (GuessV2.row_name r)))
    (row_candidates r) None.

(** The HTTP requests made for a candidate: those of [site_responds]
    when the candidate has mail, none otherwise. *)
Definition probe_requests (net : Net) (d : str) : list str :=
  if verified net d then site_requests net d else [].

(** The candidate domains of a row in [sysiphe_guess_emails.py] *)
Definition row_candidates_v1 {order : PySetOrder} (r : row) : list str :=
  if nonempty (strip (GuessV1.row_name r))
  then GuessV1.generate_domain_candidates
         (GuessV1.normalize_name (GuessV1.row_name r))
  else [].

(** The candidates asked of the DNS by a loop that stops at the first
    with mail *)
Fixpoint looked_up (net : Net) (cands : list str) : list str :=
  match cands with
  | [] => []
  | c :: cands' => if verified net c then [c] else c :: looked_up net cands'
  end.

(** The guesses of a row in [sysiphe_guess_emails.py]: those of its first
    candidate with mail *)
Definition row_guesses_v1 {order : PySetOrder} (net : Net) (r : row)
  : list GuessV1.guess :=
  match find (verified net) (row_candidates_v1 r) with
  | Some d => guesses_v1 r (GuessV1.row_name r) d
  | None => []
  end.

(** The number of pauses in a trace *)
Definition sleeps (t : list event) : nat :=
  length (filter (fun ev => match ev with EvSleep => true | _ => false end) t).

(** The candidate that [pick_best_email] of [sysiphe_search_email.py]
    makes of an address *)
Definition candidate_of (expected_domain : option str) (source_url em : str)
  : Search.FoundEmail :=
  {| Search.fe_email := Search.normalize_email em;
     Search.fe_source_url := source_url;
     Search.fe_confidence := fst (Search.score_email em expected_domain);
     Search.fe_reason := snd (Search.score_email em expected_domain) |}.

(** The links of the provider that [sysiphe_search_email.py] may fetch for
    a row: the non-empty ones of the first [max(5, links)]. *)
Definition row_links (net : Net) (args : Search.arguments) (r : row)
  : list str :=
  match serpapi_links net (row_query r) with
  | inr organic =>
      filter nonempty
        (firstn (Z.to_nat (Z.max 5 (Search.links args))) organic)
  | inl _ => []
  end.

(** [s.split(sep)] for a one-character separator *)
Fixpoint split_on_from (sep : ascii) (cur s : str) : list str :=
  match s with
  | [] => [rev cur]
  | c :: s' =>
      if Ascii.eqb c sep then rev cur :: split_on_from sep [] s'
      else split_on_from sep (c :: cur) s'
  end.

(** The tags of a reason: [reason.split(",")] *)
Definition tags (reason : str) : list str := split_on_from "," [] reason.

(** [e] is the choice of the site harvesters among [emails]: the first
    address that starts with [p], [p] being the earliest of [prefixes]
    that some address starts with; or the first address of all, when no
    address starts with a prefix. *)
Definition best_by_prefix (prefixes emails : list str) (e : str) : Prop :=
  (exists pre p post l1 l2,
      prefixes = pre ++ p :: post
      /\ emails = l1 ++ e :: l2
      /\ startswith p e = true
      /\ (forall q e', In q pre -> In e' emails -> startswith q e' = false)
      /\ (forall e', In e' l1 -> startswith p e' = false))
  \/ ((forall q e', In q prefixes -> In e' emails ->
                    startswith q e' = false)
      /\ exists l, emails = e :: l).

(** The text of the page at [url] as [fetch] of
    [sysiphe_guess_verify_email.py] gives it: the status must be 200. *)
Definition page_text (net : Net) (url : str) : option str :=
  match requests_get net url with
  | inr r => if (status_code r =? 200)%Z then Some (text r) else None
  | inl _ => None
  end.

(** The pages [verify_email_on_site] reads, in order *)
Definition site_urls (domain : str) : list str :=
  map (fun path =>
         if nonempty path
         then rstrip_by (Ascii.eqb "/") ("https://" ++ domain) ++ path
         else "https://" ++ domain)
      ("" :: GuessVerify.CONTACT_PATHS).

(** The address [verify_email_on_site] finds on the page at [url], if
    any *)
Definition found_on {order : PySetOrder} (net : Net) (url : str)
  : option str :=
  match page_text net url with
  | Some (c :: html) =>
      match GuessVerify.pick_best_email
              (GuessVerify.extract_emails (c :: html)) with
      | Some (a :: e) => Some (a :: e)
      | _ => None
      end
  | _ => None
  end.

(** The text of the page at [url] as [fetch_url] of
    [sysiphe_scrape_emails_from_sites.py] gives it: no exception, and a
    status that [raise_for_status] accepts. *)
Definition scrape_text (net : Net) (url : str) : option str :=
  match requests_get net url with
  | inr r =>
      if (400 <=? status_code r)%Z && (status_code r <? 600)%Z then None
      else Some (text r)
  | inl _ => None
  end.

(** The addresses [read_page] adds for the page at [url] *)
Definition page_emails {order : PySetOrder} (net : Net) (url : str)
  : list str :=
  match scrape_text net url with
  | Some html => Scrape.extract_emails html
  | None => []
  end.

(** The domain that [main] of [sysiphe_guess_verify_email.py] tests for a
    row, and whether there is one *)
Definition row_domain (r : row) : str :=
  GuessVerify.norm_domain (row_get "guessed_domain" r).

Definition has_domain (r : row) : bool := nonempty (row_domain r).

(** The addresses that [main] of [sysiphe_scrape_emails_from_sites.py]
    collects on the pages of a site, and whether there is one *)
Definition site_emails {order : PySetOrder} (net : Net) (site_url : str)
  : list str :=
  flat_map (page_emails net) (Scrape.pages site_url).

Definition site_has_email {order : PySetOrder} (net : Net)
    (r : option str * option str) : bool :=
  match snd r with
  | Some site_url => nonempty_list (site_emails net site_url)
  | None => false
  end.

(** The row has a [website_url]. *)
Definition has_url (r : option str * option str) : bool :=
  match snd r with
  | Some _ => true
  | None => false
  end.

(** The requests and the pause of [main] of
    [sysiphe_scrape_emails_from_sites.py] for a row that has a
    [website_url] *)
Definition site_events (r : option str * option str) : list event :=
  match snd r with
  | Some site_url => map EvHttp (Scrape.pages site_url) ++ [EvSleep]
  | None => []
  end.

(** The file has the two fields [main] reads, and [rows] are their values
    row by row. *)
Definition read_as (csv_rows : list Scrape.csv_row)
    (rows : list (option str * option str)) : Prop :=
  Forall2 (fun r p =>
             Scrape.getitem "target_id" r = inr (fst p)
             /\ Scrape.getitem "website_url" r = inr (snd p))
          csv_rows rows.

(** The database accepts the connection, every insert and the close. *)
Definition accepts (db : Scrape.Db) : Prop :=
  Scrape.connect db = inr tt
  /\ (forall c, Scrape.execute db c = inr tt)
  /\ Scrape.close db = inr tt.

(** The text [fetch_page] of [sysiphe_search_email.py] gives for the page
    at [url]: no exception, a status under 400, and a content type that
    holds [text/html] or [text/plain]. *)
Definition search_text (net : Net) (url : str) : option str :=
  match requests_get net url with
  | inr r =>
      let ctype := lower (or_empty (content_type r)) in
      if (status_code r <? 400)%Z
         && (contains "text/html" ctype || contains "text/plain" ctype)
      then Some (text r)
      else None
  | inl _ => None
  end.

(** The expected domain of a row, when the run names a field for it *)
Definition row_expected (args : Search.arguments) (r : row) : option str :=
  if nonempty (Search.expected_domain_field args)
  then match strip (or_empty (row_get (Search.expected_domain_field args) r))
       with
       | [] => None
       | d => Some d
       end
  else None.

(** The points [confidence_score] gives for the name: 20 when the first
    token of the name is in the first label of the domain, and 10 when
    there is a second token and it is in that label. *)
Definition name_bonus (domain norm_name : str) : Z :=
  let core := before_first "." domain in
  match split_ws norm_name with
  | [] => 0
  | t0 :: rest =>
      (if contains t0 core then 20 else 0)
      + match rest with
        | t1 :: _ => if contains t1 core then 10 else 0
        | [] => 0
        end
  end%Z.

(** ASCII text: every character has a code under 128.  On such text the
    patterns, [lower], [upper] and [strip] of this development are those
    of Python. *)
Definition ascii_text (s : str) : Prop :=
  all_of (fun c => code c <? 128) s.

(** ** Two networks and some rows to run the scripts on *)

(** Two domains of Acme have mail; only the site of the second answers. *)
Definition acme_net : Net :=
  {| resolve_mx := fun d =>
       if str_eqb d "acme.com.au" then inr ["mx1.acme.com.au."]
       else if str_eqb d "acme.com" then inr ["ASPMX.L.GOOGLE.COM."]
       else inl "NXDOMAIN";
     requests_get := fun url =>
       if str_eqb url "https://acme.com"
       then inr {| status_code := 200;
                   content_type := Some "text/html; charset=utf-8";
                   text := "<a href='mailto:Info@Acme.com'>mail</a>" |}
       else inl "ConnectionError";
     serpapi_links := fun q => inr ["https://acme.com"] |}.

(** Nothing answers. *)
Definition offline : Net :=
  {| resolve_mx := fun _ => inl "NXDOMAIN";
     requests_get := fun _ => inl "ConnectionError";
     serpapi_links := fun _ => inl "ConnectionError" |}.

(** Two companies of the same normalized name *)
Definition two_acme_rows : list row :=
  [ [("abn", "51824753556"); ("legal_name", "Acme Pty Ltd")];
    [("abn", "90000000001"); ("legal_name", "ACME Limited")] ].

(** The defaults of the command line of [sysiphe_search_email.py] *)
Definition default_args : Search.arguments :=
  {| Search.links := 2;
     Search.user_agent := "Mozilla/5.0 (X11; Linux x86_64)";
     Search.expected_domain_field := "" |}.

Definition row_of (name : str) : row :=
  [("abn", "51824753556"); ("legal_name", name)].

(** A database that accepts everything *)
Definition open_db : Scrape.Db :=
  {| Scrape.connect := inr tt;
     Scrape.execute := fun _ => inr tt;
     Scrape.close := inr tt |}.

(** A file of two lines, the second short of its [website_url] *)
Definition acme_csv : list Scrape.csv_row :=
  [ [("target_id", Some "t1"); ("website_url", Some "https://acme.com")];
    [("target_id", Some "t2"); ("website_url", None)] ].

(** * Properties *)

(** ** Sets and their iteration *)

Lemma str_eqb_eq (a b : str) : str_eqb a b = true <-> a = b.
Proof.
  unfold str_eqb. destruct (str_eq_dec a b); split; congruence.
Qed.

Lemma str_eqb_refl (a : str) : str_eqb a a = true.
Proof. now apply str_eqb_eq. Qed.

Lemma mem_In (x : str) (l : list str) : mem x l = true <-> In x l.
Proof.
  unfold mem. rewrite existsb_exists. split.
  - intros (y & Hy & E). apply str_eqb_eq in E. now subst.
  - intros H. exists x. split; [assumption | apply str_eqb_refl].
Qed.

Lemma In_dedup (x : str) (l : list str) : In x (dedup l) <-> In x l.
Proof.
  induction l as [|y l IH]; simpl; [tauto|].
  rewrite filter_In, IH. split.
  - intros [H | [H _]]; auto.
  - intros [H | H]; auto.
    destruct (str_eq_dec y x) as [E | N]; [now left | right].
    split; [assumption|].
    unfold str_eqb. now destruct (str_eq_dec y x).
Qed.

Lemma NoDup_dedup (l : list str) : NoDup (dedup l).
Proof.
  induction l as [|y l IH]; simpl; constructor.
  - rewrite filter_In. intros [_ H].
    now rewrite str_eqb_refl in H.
  - now apply NoDup_filter.
Qed.

Section SetFacts.
Context {order : PySetOrder}.

Lemma In_set_iter (x : str) (l : pyset) : In x (set_iter l) <-> In x l.
Proof.
  rewrite <- (In_dedup x l). split; apply Permutation_in.
  - apply set_iter_perm.
  - apply Permutation_sym, set_iter_perm.
Qed.

Lemma NoDup_set_iter (l : pyset) : NoDup (set_iter l).
Proof.
  apply Permutation_NoDup with (l := dedup l).
  - apply Permutation_sym, set_iter_perm.
  - apply NoDup_dedup.
Qed.

Lemma set_iter_nil : set_iter [] = [].
Proof. apply Permutation_nil, Permutation_sym, (set_iter_perm []). Qed.

End SetFacts.

(** ** Tokens *)

Lemma split_ws_from_nonempty (s cur : str) :
  Forall (fun t => t <> []) (split_ws_from cur s).
Proof.
  revert cur. induction s as [|c s IH]; intros cur; simpl.
  - destruct cur as [|a cur]; constructor; [|constructor].
    simpl. intros E. now apply app_eq_nil in E as [_ E].
  - destruct (is_space c); [|apply IH].
    destruct cur as [|a cur]; [apply IH|].
    constructor; [|apply IH].
    simpl. intros E. now apply app_eq_nil in E as [_ E].
Qed.

Lemma filter_nonempty_split_ws (s : str) :
  filter nonempty (split_ws s) = split_ws s.
Proof.
  unfold split_ws.
  pose proof (split_ws_from_nonempty s []) as H.
  induction H as [|t l Ht _ IH]; simpl; [reflexivity|].
  destruct t; [contradiction | simpl; now rewrite IH].
Qed.

(** ** The candidate generator of [sysiphe_guess_emails_v2.py] *)

Lemma suffix_cancel (c1 c2 s1 s2 : str) :
  In s1 GuessV2.DOMAIN_SUFFIXES_AU -> In s2 GuessV2.DOMAIN_SUFFIXES_AU ->
  c1 ++ s1 = c2 ++ s2 -> c1 = c2 /\ s1 = s2.
Proof.
  intros H1 H2 E.
  apply (f_equal (@rev ascii)) in E. rewrite !rev_app_distr in E.
  assert (R : rev c1 = rev c2 -> c1 = c2).
  { intros R. rewrite <- (rev_involutive c1), R. apply rev_involutive. }
  simpl in H1, H2.
  repeat match goal with
         | H : _ \/ _ |- _ => destruct H as [H | H]
         | H : False |- _ => contradiction
         end; subst; simpl in E; try discriminate;
    try (split; [apply R; congruence | reflexivity]);
    exfalso; congruence.
Qed.

Lemma NoDup_domain_candidates (cores : list str) :
  NoDup cores -> NoDup (GuessV2.domain_candidates cores).
Proof.
  unfold GuessV2.domain_candidates.
  induction 1 as [|core cores Hnot Hnd IH]; cbn [flat_map]; [constructor|].
  apply NoDup_app.
  - apply NoDup_map_NoDup_ForallPairs.
    + intros s1 s2 _ _ E. now apply app_inv_head in E.
    + unfold GuessV2.DOMAIN_SUFFIXES_AU.
      repeat constructor; simpl; intuition discriminate.
  - exact IH.
  - intros d Hd Hd'.
    apply in_map_iff in Hd as (s1 & <- & Hs1).
    apply in_flat_map in Hd' as (core' & Hc' & Hd').
    apply in_map_iff in Hd' as (s2 & E & Hs2).
    apply suffix_cancel in E as [E _]; try assumption.
    subst. contradiction.
Qed.

Lemma In_accepted_cores (tokens : list str) (core : str) :
  In core (GuessV2.accepted_cores tokens) ->
  (core = join "" tokens /\ 4 <= length core <= 24) \/
  (core = join "-" tokens /\ 4 <= length core <= 28) \/
  (core = join "" (firstn 2 tokens) /\ 2 <= length tokens
   /\ 4 <= length core <= 18).
Proof.
  unfold GuessV2.accepted_cores, GuessV2.within.
  destruct (Nat.leb_spec 4 (length (join "" tokens)));
    destruct (Nat.leb_spec (length (join "" tokens)) 24);
    destruct (Nat.leb_spec 4 (length (join "-" tokens)));
    destruct (Nat.leb_spec (length (join "-" tokens)) 28);
    destruct (Nat.leb_spec 2 (length tokens));
    try destruct (Nat.leb_spec 4 (length (join "" (firstn 2 tokens))));
    try destruct (Nat.leb_spec (length (join "" (firstn 2 tokens))) 18);
    simpl; intros Hin;
    repeat match goal with
           | H : _ \/ _ |- _ => destruct H as [H | H]
           | H : False |- _ => contradiction
           end; subst; auto 6.
Qed.

Section Generator.
Context {order : PySetOrder}.

Lemma In_domain_core_candidates (norm core : str) :
  In core (GuessV2.domain_core_candidates norm) ->
  In core (GuessV2.accepted_cores (split_ws norm)).
Proof.
  unfold GuessV2.domain_core_candidates.
  rewrite filter_nonempty_split_ws.
  destruct (split_ws norm) as [|t0 ts]; [intros []|].
  destruct (_ && _); [intros []|].
  apply In_set_iter.
Qed.

Lemma NoDup_domain_core_candidates (norm : str) :
  NoDup (GuessV2.domain_core_candidates norm).
Proof.
  unfold GuessV2.domain_core_candidates.
  destruct (filter _ _) as [|t0 ts]; [constructor|].
  destruct (_ && _); [constructor | apply NoDup_set_iter].
Qed.

End Generator.

(** ** C10: the guessed address *)

(** C10.  For every domain [d], [best_email d] is ["enquiries@" ++ d]:
    the loop over the preferred prefixes returns in its first iteration,
    with the first prefix, so no other local part is produced and the
    ["info@"] line after the loop is never reached. *)
Theorem C10_best_email_enquiries (d : str) :
  GuessV2.best_email d = "enquiries@" ++ d
  /\ GuessV2.best_email_loop d = Some ("enquiries@" ++ d)
  /\ hd_error GuessV2.PREFERRED_PREFIXES_AU = Some "enquiries"
  /\ GuessV2.best_email d <> "info@" ++ d.
Proof.
  repeat split. discriminate.
Qed.

(** ** C9: nothing from no token, or from one generic token *)

(** C9.  When the name has no token, or exactly one token and that token
    is in [GENERIC_TOKENS], the generator gives no core and so no
    candidate domain. *)
Theorem C9_no_candidates_for_generic {order : PySetOrder} (norm : str) :
  split_ws norm = [] \/
  (exists t, split_ws norm = [t] /\ In t GuessV2.GENERIC_TOKENS) ->
  GuessV2.domain_core_candidates norm = []
  /\ GuessV2.domain_candidates (GuessV2.domain_core_candidates norm) = [].
Proof.
  intros H.
  assert (E : GuessV2.domain_core_candidates norm = []).
  { unfold GuessV2.domain_core_candidates.
    rewrite filter_nonempty_split_ws.
    destruct H as [-> | (t & -> & Ht)]; [reflexivity|].
    apply mem_In in Ht. cbn [length Nat.eqb andb]. now rewrite Ht. }
  rewrite E. split; reflexivity.
Qed.

(** The single token ["group"] is generic. *)
Lemma C9_group_witness :
  In "group" GuessV2.GENERIC_TOKENS
  /\ @GuessV2.domain_core_candidates insertion_order "group" = []
  /\ GuessV2.domain_candidates
       (@GuessV2.domain_core_candidates insertion_order "group") = [].
Proof.
  assert (G : In "group" GuessV2.GENERIC_TOKENS) by (simpl; tauto).
  split; [exact G|].
  apply (@C9_no_candidates_for_generic insertion_order "group").
  right. exists "group". split; [reflexivity | exact G].
Defined.

(** ** C4: the length of the cores *)

(** The generator of the first script, [generate_domain_candidates] of
    [sysiphe_guess_emails.py], has the minimum and no maximum. *)
Lemma generate_domain_candidates_min {order : PySetOrder} (base d : str) :
  In d (GuessV1.generate_domain_candidates base) ->
  exists core suf,
    d = core ++ suf /\ In suf GuessV1.DOMAIN_SUFFIXES_AU
    /\ 4 <= length core
    /\ (core = join "" (split_ws base) \/ core = join "-" (split_ws base)).
Proof.
  unfold GuessV1.generate_domain_candidates. intros H.
  apply In_set_iter, in_flat_map in H as (core & Hc & H).
  destruct (Nat.leb_spec 4 (length core)); [|contradiction].
  apply in_map_iff in H as (suf & <- & Hsuf).
  exists core, suf. repeat split; try assumption.
  apply (proj1 (In_set_iter _ _)) in Hc.
  destruct Hc as [<- | [<- | []]]; auto.
Qed.

Example generate_domain_candidates_long :
  In "abcdefghijklmnopqrstuvwxyzabcdefgh.com"
     (@GuessV1.generate_domain_candidates insertion_order
        "abcdefghijklmnopqrstuvwxyzabcdefgh").
Proof. vm_compute. tauto. Qed.

(** C4, as the code has it.  In [sysiphe_guess_emails_v2.py] every
    candidate domain is a core followed by a configured suffix, and the
    core is at least 4 and at most 28 characters long: it is the joined
    name with at most 24 characters, or the hyphenated name with at most
    28, or the first two tokens joined with at most 18.  In
    [sysiphe_guess_emails.py] every candidate domain is the joined or the
    hyphenated name, of at least 4 characters, followed by a configured
    suffix: that generator has the minimum and no maximum. *)
Theorem C4_core_length_bounds {order : PySetOrder} (norm d : str) :
  (In d (GuessV2.domain_candidates (GuessV2.domain_core_candidates norm)) ->
   exists core suf,
     d = core ++ suf
     /\ In suf GuessV2.DOMAIN_SUFFIXES_AU
     /\ 4 <= length core <= 28
     /\ ((core = join "" (split_ws norm) /\ length core <= 24) \/
         (core = join "-" (split_ws norm) /\ length core <= 28) \/
         (core = join "" (firstn 2 (split_ws norm)) /\ length core <= 18)))
  /\ (In d (GuessV1.generate_domain_candidates norm) ->
      exists core suf,
        d = core ++ suf
        /\ In suf GuessV1.DOMAIN_SUFFIXES_AU
        /\ 4 <= length core
        /\ (core = join "" (split_ws norm)
            \/ core = join "-" (split_ws norm))).
Proof.
  split; [|apply generate_domain_candidates_min].
  intros H. unfold GuessV2.domain_candidates in H.
  apply in_flat_map in H as (core & Hcore & H).
  apply in_map_iff in H as (suf & <- & Hsuf).
  exists core, suf.
  apply In_domain_core_candidates, In_accepted_cores in Hcore.
  repeat split; try assumption; try lia; intuition lia.
Qed.

Lemma C4_acme_witness :
  exists core suf,
    "acme-steel.com.au" = core ++ suf
    /\ In suf GuessV2.DOMAIN_SUFFIXES_AU
    /\ 4 <= length core <= 28
    /\ ((core = join "" (split_ws "acme steel") /\ length core <= 24) \/
        (core = join "-" (split_ws "acme steel") /\ length core <= 28) \/
        (core = join "" (firstn 2 (split_ws "acme steel"))
         /\ length core <= 18)).
Proof.
  apply (proj1 (@C4_core_length_bounds insertion_order "acme steel"
                  "acme-steel.com.au")).
  vm_compute. tauto.
Defined.

(** The first script emits a candidate whose core has 34 characters: no
    core of at most 28 characters and no configured suffix make it. *)
Lemma C4_no_maximum_counterexample :
  In "abcdefghijklmnopqrstuvwxyzabcdefgh.com"
     (@GuessV1.generate_domain_candidates insertion_order
        "abcdefghijklmnopqrstuvwxyzabcdefgh")
  /\ ~ (forall (order : PySetOrder) (base d : str),
          In d (GuessV1.generate_domain_candidates base) ->
          exists core suf,
            d = core ++ suf
            /\ In suf GuessV1.DOMAIN_SUFFIXES_AU
            /\ 4 <= length core <= 28).
Proof.
  assert (G : In "abcdefghijklmnopqrstuvwxyzabcdefgh.com"
                 (@GuessV1.generate_domain_candidates insertion_order
                    "abcdefghijklmnopqrstuvwxyzabcdefgh"))
    by (vm_compute; tauto).
  split; [exact G|].
  intros H.
  destruct (H insertion_order _ _ G) as (core & suf & E & Hs & _ & L).
  apply (f_equal (@length ascii)) in E. rewrite length_app in E.
  assert (S7 : length suf <= 7).
  { destruct Hs as [<- | [<- | [<- | [<- | []]]]]; simpl; lia. }
  cbn [length] in E. unfold str in *. lia.
Qed.

(** ** C3: what is stable in the generator, and what is not *)

(** C3, as the code has it.  Within one interpreter process (a fixed
    iteration order of sets) the candidate sequence depends on the tokens
    alone: two names with the same tokens give the same sequence.  The
    sequence has no duplicate, and it lists distinct accepted cores one
    after the other, each with the suffixes in their configured order.
    Which core comes first is the set's affair. *)
Theorem C3_generator_stable {order : PySetOrder} (n1 n2 : str) :
  split_ws n1 = split_ws n2 ->
  GuessV2.domain_candidates (GuessV2.domain_core_candidates n1)
  = GuessV2.domain_candidates (GuessV2.domain_core_candidates n2)
  /\ NoDup (GuessV2.domain_candidates (GuessV2.domain_core_candidates n1))
  /\ exists cores,
       NoDup cores
       /\ (forall c, In c cores ->
                     In c (GuessV2.accepted_cores (split_ws n1)))
       /\ GuessV2.domain_candidates (GuessV2.domain_core_candidates n1)
          = flat_map (fun core =>
                        map (fun suf => core ++ suf)
                            GuessV2.DOMAIN_SUFFIXES_AU) cores.
Proof.
  intros E. split; [|split].
  - unfold GuessV2.domain_core_candidates.
    now rewrite !filter_nonempty_split_ws, E.
  - apply NoDup_domain_candidates, NoDup_domain_core_candidates.
  - exists (GuessV2.domain_core_candidates n1). split; [|split].
    + apply NoDup_domain_core_candidates.
    + intros c. apply In_domain_core_candidates.
    + reflexivity.
Qed.

Lemma C3_stable_witness :
  GuessV2.domain_candidates
    (@GuessV2.domain_core_candidates insertion_order "acme  steel")
  = GuessV2.domain_candidates
      (@GuessV2.domain_core_candidates insertion_order " acme steel ")
  /\ NoDup (GuessV2.domain_candidates
              (@GuessV2.domain_core_candidates insertion_order "acme  steel")).
Proof.
  destruct (@C3_generator_stable insertion_order "acme  steel" " acme steel ")
    as (E & N & _); [reflexivity|].
  split; [exact E | exact N].
Defined.

(** With the iteration order [reversed_order] the two-token core of
    "acme steel works" comes before the cores of the full name: the
    candidates of [acmesteel] precede those of [acmesteelworks] and of
    [acme-steel-works]. *)
Lemma C3_order_counterexample :
  GuessV2.domain_candidates
    (@GuessV2.domain_core_candidates reversed_order "acme steel works")
  = ["acmesteel.com.au"; "acmesteel.net.au"; "acmesteel.org.au";
     "acmesteel.com";
     "acme-steel-works.com.au"; "acme-steel-works.net.au";
     "acme-steel-works.org.au"; "acme-steel-works.com";
     "acmesteelworks.com.au"; "acmesteelworks.net.au";
     "acmesteelworks.org.au"; "acmesteelworks.com"]
  /\ ~ @full_name_first reversed_order "acme steel works".
Proof.
  split; [vm_compute; reflexivity|].
  intros H.
  assert (T : before ("acmesteelworks" ++ ".com.au")
                (join "" (firstn 2 (split_ws "acme steel works"))
                 ++ ".com.au")
                (GuessV2.domain_candidates
                   (@GuessV2.domain_core_candidates reversed_order
                      "acme steel works")) = true).
  { apply H.
    - left. vm_compute. reflexivity.
    - vm_compute. discriminate.
    - vm_compute. tauto.
    - vm_compute. tauto. }
  vm_compute in T. discriminate.
Qed.

(** ** C5: the score of an address *)

Lemma score_email_clamped (email : str) (expected_domain : option str) :
  (0 <= fst (Search.score_email email expected_domain) <= 100)%Z.
Proof.
  unfold Search.score_email. cbv zeta.
  destruct (mem _ Search.free);
    destruct expected_domain as [[|c d]|];
    try destruct (str_eqb _ _); try destruct (endswith _ _);
    destruct (Search.localpart_bonus _ _ _) as [[b t]|];
    cbn [fst]; lia.
Qed.

(** A free-mail address with no preferred local part scores at most 50,
    whatever the expected domain. *)
Lemma score_email_bob (expected_domain : option str) :
  (fst (Search.score_email "bob@gmail.com" expected_domain) <= 50)%Z.
Proof.
  unfold Search.score_email. cbv zeta.
  assert (F : mem (Search.domain_from_email
                     (Search.normalize_email "bob@gmail.com")) Search.free
              = true) by (vm_compute; reflexivity).
  assert (B : Search.localpart_bonus 0 Search.LOCALPART_PRIORITY
                (hd "" (split_once "@"
                          (Search.normalize_email "bob@gmail.com")))
              = None) by (vm_compute; reflexivity).
  rewrite F, B.
  destruct expected_domain as [[|c d]|];
    try destruct (str_eqb _ _); try destruct (endswith _ _);
    cbn [fst]; lia.
Qed.

(** C5.  The score is an integer between 0 and 100.  With the expected
    domain "acme.com.au" the address "info@acme.com.au" scores at least 85
    (it scores 100) and its reason has the tag [domain_match].  The address
    "bob@gmail.com" scores at most 50 whatever the expected domain, and 15
    when none is known. *)
Theorem C5_score_email :
  (forall email expected_domain,
      (0 <= fst (Search.score_email email expected_domain) <= 100)%Z)
  /\ Search.score_email "info@acme.com.au" (Some "acme.com.au")
     = (100%Z, "domain_match,lp=info")
  /\ (85 <= fst (Search.score_email "info@acme.com.au"
                   (Some "acme.com.au")))%Z
  /\ contains "domain_match"
       (snd (Search.score_email "info@acme.com.au" (Some "acme.com.au")))
     = true
  /\ (forall expected_domain,
         (fst (Search.score_email "bob@gmail.com" expected_domain)
          <= 50)%Z)
  /\ Search.score_email "bob@gmail.com" None = (15%Z, "free_provider")
  /\ Search.score_email "bob@gmail.com" (Some "acme.com.au")
     = (5%Z, "free_provider,domain_mismatch").
Proof.
  split; [apply score_email_clamped|].
  split; [vm_compute; reflexivity|].
  split; [vm_compute; discriminate|].
  split; [vm_compute; reflexivity|].
  split; [apply score_email_bob|].
  split; vm_compute; reflexivity.
Qed.

(** ** Sorting, lower case *)

Lemma str_leb_total (a b : str) : str_leb a b = false -> str_leb b a = true.
Proof.
  revert b. induction a as [|x a IH]; intros [|y b]; simpl; try congruence.
  destruct (Nat.ltb_spec (code x) (code y)), (Nat.ltb_spec (code y) (code x));
    try congruence; try lia.
  apply IH.
Qed.

Lemma str_le_trans (a b c : str) : str_le a b -> str_le b c -> str_le a c.
Proof.
  unfold str_le. revert b c.
  induction a as [|x a IH]; intros [|y b] [|z c]; simpl; try congruence.
  destruct (Nat.ltb_spec (code x) (code y)), (Nat.ltb_spec (code y) (code x)),
    (Nat.ltb_spec (code y) (code z)), (Nat.ltb_spec (code z) (code y)),
    (Nat.ltb_spec (code x) (code z)), (Nat.ltb_spec (code z) (code x));
    try congruence; try lia.
  apply IH.
Qed.

Lemma insert_sorted_perm (x : str) (l : list str) :
  Permutation (insert_sorted x l) (x :: l).
Proof.
  induction l as [|y l IH]; simpl; [reflexivity|].
  destruct (str_leb x y); [reflexivity|].
  rewrite IH. apply perm_swap.
Qed.

Lemma sorted_perm (l : list str) : Permutation (sorted l) l.
Proof.
  induction l as [|x l IH]; simpl; [reflexivity|].
  rewrite insert_sorted_perm. now constructor.
Qed.

Lemma insert_sorted_Sorted (x : str) (l : list str) :
  Sorted str_le l -> Sorted str_le (insert_sorted x l).
Proof.
  induction 1 as [|y l Hs IH Hhd]; simpl; [repeat constructor|].
  destruct (str_leb x y) eqn:E.
  - repeat constructor; assumption.
  - constructor; [exact IH|].
    apply str_leb_total in E.
    destruct Hhd as [|z l Hyz]; simpl.
    + now constructor.
    + destruct (str_leb x z); now constructor.
Qed.

Lemma sorted_Sorted (l : list str) : StronglySorted str_le (sorted l).
Proof.
  apply Sorted_StronglySorted; [exact str_le_trans|].
  induction l as [|x l IH]; simpl; [constructor|].
  now apply insert_sorted_Sorted.
Qed.

Lemma lower_c_idem (c : ascii) : lower_c (lower_c c) = lower_c c.
Proof.
  destruct c as [[] [] [] [] [] [] [] []]; reflexivity.
Qed.

Lemma lower_idem (s : str) : lower (lower s) = lower s.
Proof.
  unfold lower. rewrite map_map. apply map_ext. exact lower_c_idem.
Qed.

(** ** What both harvesters do with the matches of their pattern *)

Section Harvest.
Context {order : PySetOrder}.
Variable hints : list str.
Variable matches : list str.

Let out : list str :=
  sorted (filter (fun e => negb (existsb (fun bad => contains bad e) hints))
                 (set_iter (map lower matches))).

Lemma harvest_In (e : str) :
  In e out <->
  (exists m, In m matches /\ e = lower m) /\ marker_free hints e.
Proof.
  unfold out, marker_free.
  split.
  - intros H. apply (Permutation_in _ (sorted_perm _)) in H.
    apply filter_In in H as [H F].
    apply In_set_iter, in_map_iff in H as (m & <- & Hm).
    split; [now exists m|].
    intros bad Hbad. apply negb_true_iff in F.
    destruct (contains bad (lower m)) eqn:C; [|reflexivity].
    rewrite <- F. symmetry. apply existsb_exists. now exists bad.
  - intros [(m & Hm & ->) F].
    apply (Permutation_in _ (Permutation_sym (sorted_perm _))).
    apply filter_In. split.
    + apply In_set_iter, in_map_iff. now exists m.
    + apply negb_true_iff.
      destruct (existsb _ hints) eqn:X; [|reflexivity].
      apply existsb_exists in X as (bad & Hbad & C).
      now rewrite (F bad Hbad) in C.
Qed.

Lemma harvest_NoDup : NoDup out.
Proof.
  unfold out.
  apply (Permutation_NoDup (Permutation_sym (sorted_perm _))).
  apply NoDup_filter, NoDup_set_iter.
Qed.

Lemma harvest_sorted : StronglySorted str_le out.
Proof. apply sorted_Sorted. Qed.

Lemma harvest_lower (e : str) : In e out -> lower e = e.
Proof.
  intros H. apply harvest_In in H as [(m & _ & ->) _]. apply lower_idem.
Qed.

End Harvest.

(** ** C6: what the site harvesters return *)

(** C6.  Whatever the page holds, the addresses that [extract_emails]
    returns, in [sysiphe_guess_verify_email.py] and in
    [sysiphe_scrape_emails_from_sites.py], contain none of the markers of
    [BAD_EMAIL_HINTS], are in lower case, are all different, and come in
    increasing order of strings. *)
Theorem C6_extract_emails_clean {order : PySetOrder} (page : str) :
  ((forall e, In e (GuessVerify.extract_emails page) ->
              marker_free GuessVerify.BAD_EMAIL_HINTS e /\ lower e = e)
   /\ NoDup (GuessVerify.extract_emails page)
   /\ StronglySorted str_le (GuessVerify.extract_emails page))
  /\
  ((forall e, In e (Scrape.extract_emails page) ->
              marker_free Scrape.BAD_EMAIL_HINTS e /\ lower e = e)
   /\ NoDup (Scrape.extract_emails page)
   /\ StronglySorted str_le (Scrape.extract_emails page)).
Proof.
  unfold GuessVerify.extract_emails, Scrape.extract_emails.
  split; (split; [|split]);
    try apply harvest_NoDup; try apply harvest_sorted;
    intros e H; (split; [now apply harvest_In in H | now apply harvest_lower in H]).
Qed.

Lemma C6_page_witness :
  @GuessVerify.extract_emails insertion_order
    "Mail Info@Acme-Steel.com.au, not you@example.com"
  = ["info@acme-steel.com.au"]
  /\ marker_free GuessVerify.BAD_EMAIL_HINTS "info@acme-steel.com.au"
  /\ lower "info@acme-steel.com.au" = "info@acme-steel.com.au".
Proof.
  split; [vm_compute; reflexivity|].
  destruct (@C6_extract_emails_clean insertion_order
              "Mail Info@Acme-Steel.com.au, not you@example.com")
    as [[H _] _].
  apply H. vm_compute. tauto.
Defined.

(** ** Patterns that differ in the writing of their classes only *)

Lemma rmatch_ext (r : regex) :
  forall r' prev s k k',
    regex_eqv r r' ->
    (forall p t, k p t = k' p t) ->
    rmatch r prev s k = rmatch r' prev s k'.
Proof.
  induction r as [|p| |r1 IH1 r2 IH2|r1 IH1|lo r1 IH1];
    intros [|q| |r1' r2'|r1'|lo' r1'] prev s k k' E Hk;
    simpl in E; try contradiction.
  - apply Hk.
  - simpl. destruct s as [|c s]; [reflexivity|].
    rewrite E. destruct (q c); [apply Hk | reflexivity].
  - simpl. destruct (xorb _ _); [apply Hk | reflexivity].
  - destruct E as [E1 E2]. simpl.
    apply IH1; [exact E1|]. intros p t. now apply IH2.
  - simpl. rewrite (IH1 r1' prev s k k' E Hk).
    destruct (rmatch r1' prev s k'); [reflexivity | apply Hk].
  - destruct E as [<- E]. simpl.
    generalize (length s). intros fuel.
    revert lo prev s.
    induction fuel as [|fuel IHf]; intros lo prev s.
    + rewrite Hk. reflexivity.
    + rewrite Hk.
      erewrite IH1; [reflexivity | exact E |].
      intros p t. cbv beta.
      destruct (length t <? length s); [apply IHf | reflexivity].
Qed.

Lemma match_here_ext (r r' : regex) (prev : option ascii) (s : str) :
  regex_eqv r r' -> match_here r prev s = match_here r' prev s.
Proof.
  intros E. unfold match_here.
  now rewrite (rmatch_ext r r' prev s _ (fun _ rest => Some rest) E).
Qed.

Lemma finditer_ext (r r' : regex) (s : str) :
  regex_eqv r r' -> finditer r s = finditer r' s.
Proof.
  intros E. unfold finditer, pieces. f_equal.
  generalize (S (length s)) as fuel. generalize (@None ascii) as prev.
  intros prev fuel. revert prev s.
  induction fuel as [|fuel IH]; intros prev s; simpl; [reflexivity|].
  rewrite (match_here_ext r r' prev s E).
  destruct (match_here r' prev s) as [[[|c0 m] rest]|];
    destruct s as [|c s]; try reflexivity; now rewrite IH.
Qed.

(** On ASCII text, with [re.IGNORECASE], the pattern of the search script
    is the pattern of the scraping script. *)
Lemma search_pattern_is_scrape_pattern :
  regex_eqv Search.EMAIL_RE Scrape.EMAIL_RE.
Proof.
  unfold Search.EMAIL_RE, Scrape.EMAIL_RE. simpl.
  repeat split; intros c;
    destruct c as [[] [] [] [] [] [] [] []]; reflexivity.
Qed.

(** ** C7: the search path extracts, and does not filter *)

(** On a page with a capital letter and a placeholder address the search
    path returns both addresses as written; the site harvester returns
    one, in lower case. *)
Lemma C7_same_logic_counterexample :
  Search.extract_emails_from_text
    (Some "Mail Info@Acme.com.au, not you@example.com")
  = ["Info@Acme.com.au"; "you@example.com"]
  /\ @GuessVerify.extract_emails insertion_order
       "Mail Info@Acme.com.au, not you@example.com"
     = ["info@acme.com.au"]
  /\ ~ (forall (order : PySetOrder) (page e : str),
          In e (Search.extract_emails_from_text (Some page)) <->
          In e (GuessVerify.extract_emails page)).
Proof.
  split; [vm_compute; reflexivity|].
  split; [vm_compute; reflexivity|].
  intros H.
  specialize (H insertion_order
                "Mail Info@Acme.com.au, not you@example.com"
                "you@example.com").
  destruct H as [H _].
  assert (F : In "you@example.com"
                (@GuessVerify.extract_emails insertion_order
                   "Mail Info@Acme.com.au, not you@example.com")).
  { apply H. vm_compute. tauto. }
  vm_compute in F. clear H.
  destruct F as [F | []]. discriminate F.
Qed.

(** ** Running computations *)

Lemma bind_ok {A B : Type} (t : list event) (a : A) (f : A -> M B) :
  bind (t, Ok a) f = (t ++ trace (f a), outcome (f a)).
Proof. unfold bind, trace, outcome. now destruct (f a). Qed.

Lemma dns_calls_app (t1 t2 : list event) :
  dns_calls (t1 ++ t2) = dns_calls t1 ++ dns_calls t2.
Proof. apply flat_map_app. Qed.

(** A loop whose body never raises and never breaks runs over the whole
    list; [step] is what the body does to the state and [calls] what it
    asks of the DNS. *)
Lemma for_each_total {A S : Type} (body : S -> A -> M (flow S))
    (step : S -> A -> S) (calls : A -> list str) :
  (forall s a, exists t, body s a = (t, Ok (Next (step s a)))
                         /\ dns_calls t = calls a) ->
  forall l s, exists t,
      for_each l s body = (t, Ok (fold_left step l s))
      /\ dns_calls t = flat_map calls l.
Proof.
  intros Hbody l. induction l as [|a l IH]; intros s; simpl.
  - exists []. split; reflexivity.
  - destruct (Hbody s a) as (t1 & -> & H1).
    destruct (IH (step s a)) as (t2 & E2 & H2).
    rewrite bind_ok, E2. exists (t1 ++ t2). split; [reflexivity|].
    simpl. now rewrite dns_calls_app, H1, H2.
Qed.

(** ** The probes of [sysiphe_guess_emails_v2.py] *)

Section Probes.
Context {order : PySetOrder} (net : Net).

Lemma mx_hosts_run (d : str) :
  GuessV2.mx_hosts net d = ([EvDns d], Ok (mx_of net d)).
Proof.
  unfold GuessV2.mx_hosts, mx_of.
  destruct (resolve_mx net d); reflexivity.
Qed.

Lemma site_responds_run (d : str) :
  exists t, GuessV2.site_responds net d = (t, Ok (site_of net d))
            /\ dns_calls t = [].
Proof.
  unfold GuessV2.site_responds, site_of, responds.
  cbn [for_each]. cbv beta zeta.
  remember (requests_get net ("https://" ++ d)) as g1.
  remember (requests_get net ("http://" ++ d)) as g2.
  destruct g1 as [e1|r1], g2 as [e2|r2]; simpl;
    try destruct (status_code r1 <? 500)%Z;
    try destruct (status_code r2 <? 500)%Z;
    simpl; eexists; split; reflexivity.
Qed.

Lemma probe_run (r : row) (legal_name name norm : str)
    (st : nat * option GuessV2.guess) (dom : str) :
  exists t,
    GuessV2.probe net r legal_name name norm st dom
    = (t, Ok (Next (S (fst st),
                    best_after net r legal_name name norm (snd st) dom)))
    /\ dns_calls t = [dom].
Proof.
  destruct st as [tested best].
  unfold GuessV2.probe, best_after, verified, score_of.
  rewrite mx_hosts_run, bind_ok. cbn [fst snd].
  destruct (nonempty_list (mx_of net dom)); cbn [negb];
    [|eexists; split; reflexivity].
  unfold GuessV2.is_obvious_sink.
  destruct (site_responds_run dom) as (t & -> & Ht).
  rewrite bind_ok.
  destruct (match best with None => true | Some _ => _ end);
    eexists; (split; [reflexivity|]);
    cbn [trace outcome fst snd ret]; rewrite !dns_calls_app, Ht;
    reflexivity.
Qed.

Lemma candidates_run (r : row) (legal_name name norm : str)
    (cands : list str) (st : nat * option GuessV2.guess) :
  exists t,
    for_each cands st (GuessV2.probe net r legal_name name norm)
    = (t, Ok (fold_left
                (fun st dom =>
                   (S (fst st),
                    best_after net r legal_name name norm (snd st) dom))
                cands st))
    /\ dns_calls t = cands.
Proof.
  destruct (for_each_total
              (GuessV2.probe net r legal_name name norm)
              (fun st dom =>
                 (S (fst st),
                  best_after net r legal_name name norm (snd st) dom))
              (fun dom => [dom])
              (probe_run r legal_name name norm) cands st)
    as (t & E & H).
  exists t. split; [exact E|].
  rewrite H. clear. induction cands; simpl; congruence.
Qed.

Lemma fold_tested (f : option GuessV2.guess -> str -> option GuessV2.guess)
    (cands : list str) (st : nat * option GuessV2.guess) :
  fold_left (fun st dom => (S (fst st), f (snd st) dom)) cands st
  = (fst st + length cands, fold_left f cands (snd st)).
Proof.
  revert st. induction cands as [|d cands IH]; intros [n b]; simpl.
  - now rewrite Nat.add_0_r.
  - rewrite IH. simpl. f_equal. lia.
Qed.

Lemma company_run (st : GuessV2.totals) (r : row) :
  exists t st',
    GuessV2.company net st r = (t, Ok (Next st'))
    /\ dns_calls t = row_candidates r
    /\ GuessV2.tested st'
       = GuessV2.tested st + length (row_candidates r).
Proof.
  unfold GuessV2.company, row_candidates. cbv zeta.
  destruct (nonempty (GuessV2.row_name r)); cbn [negb];
    [|exists [], st; repeat split; simpl; lia].
  destruct (GuessV2.domain_core_candidates _) as [|c cores] eqn:Ecores;
    cbn [nonempty_list negb];
    [exists [], st; repeat split; simpl; lia|].
  destruct (candidates_run r
              (strip (or_empty (row_get "legal_name" r)))
              (GuessV2.row_name r)
              (GuessV2.normalize_name (GuessV2.row_name r))
              (GuessV2.domain_candidates (c :: cores))
              (GuessV2.tested st, None)) as (t & -> & Ht).
  rewrite bind_ok, fold_tested. cbn [fst snd].
  destruct (fold_left _ _ None);
    eexists; eexists; (split; [reflexivity|]);
    cbn [trace outcome fst snd ret GuessV2.tested];
    rewrite app_nil_r; (split; [exact Ht | reflexivity]).
Qed.

Lemma main_run (rows : list row) (st : GuessV2.totals) :
  exists t st',
    for_each rows st (GuessV2.company net) = (t, Ok st')
    /\ dns_calls t = flat_map row_candidates rows
    /\ GuessV2.tested st'
       = GuessV2.tested st + length (flat_map row_candidates rows).
Proof.
  revert st. induction rows as [|r rows IH]; intros st; simpl.
  - exists [], st. repeat split. lia.
  - destruct (company_run st r) as (t1 & st1 & -> & H1 & T1).
    destruct (IH st1) as (t2 & st2 & E2 & H2 & T2).
    rewrite bind_ok, E2. exists (t1 ++ t2), st2.
    split; [reflexivity|]. split.
    + now rewrite dns_calls_app, H1, H2.
    + rewrite T2, T1, length_app. lia.
Qed.

Lemma NoDup_row_candidates (r : row) : NoDup (row_candidates r).
Proof.
  unfold row_candidates. destruct (nonempty _); [|constructor].
  apply NoDup_domain_candidates, NoDup_domain_core_candidates.
Qed.

End Probes.

Lemma count_occ_flat_map_NoDup {A : Type} (f : A -> list str)
    (l : list A) (d : str) :
  (forall a, NoDup (f a)) ->
  count_occ str_eq_dec (flat_map f l) d
  = length (filter (fun a => mem d (f a)) l).
Proof.
  intros Hnd. induction l as [|a l IH]; simpl; [reflexivity|].
  rewrite count_occ_app, IH.
  destruct (mem d (f a)) eqn:E; simpl.
  - apply mem_In in E.
    now rewrite (proj1 (NoDup_count_occ' str_eq_dec (f a)) (Hnd a) d E).
  - assert (N : ~ In d (f a)).
    { intros H. apply mem_In in H. congruence. }
    now rewrite (proj1 (count_occ_not_In str_eq_dec (f a) d) N).
Qed.

(** ** C1: the lookups of a run *)

(** C1, as the code has it.  A run of [sysiphe_guess_emails_v2.py] keeps
    no verdict from one candidate to the next: it asks the DNS for every
    candidate of every row, in order, and counts them in [tested].  The
    candidates of one row are all different, so a domain is looked up as
    many times as there are rows that have it among their candidates. *)
Theorem C1_every_candidate_is_looked_up {order : PySetOrder}
    (net : Net) (rows : list row) :
  exists st,
    outcome (GuessV2.main net rows) = Ok st
    /\ dns_calls (trace (GuessV2.main net rows))
       = flat_map row_candidates rows
    /\ GuessV2.tested st = length (flat_map row_candidates rows)
    /\ (forall r, NoDup (row_candidates r))
    /\ forall d,
         count_occ str_eq_dec (dns_calls (trace (GuessV2.main net rows))) d
         = length (filter (fun r => mem d (row_candidates r)) rows).
Proof.
  unfold GuessV2.main.
  destruct (main_run net rows
              {| GuessV2.results := []; GuessV2.tested := 0;
                 GuessV2.kept := 0 |}) as (t & st & -> & Ht & Hn).
  exists st. cbn [trace outcome fst snd].
  split; [reflexivity|]. split; [exact Ht|]. split; [exact Hn|].
  split; [apply NoDup_row_candidates|].
  intros d. rewrite Ht.
  apply count_occ_flat_map_NoDup, NoDup_row_candidates.
Qed.

(** Two companies of the same normalized name: their common domain is
    asked of the DNS twice, and its site is requested twice. *)
Lemma C1_memo_counterexample :
  count_occ str_eq_dec
    (dns_calls (trace (@GuessV2.main insertion_order acme_net
                         two_acme_rows)))
    "acme.com.au" = 2
  /\ count_occ str_eq_dec
       (http_calls (trace (@GuessV2.main insertion_order acme_net
                             two_acme_rows)))
       "https://acme.com.au" = 2.
Proof.
  split; vm_compute; reflexivity.
Qed.

(** ** C2: which candidate is chosen, and which are probed *)

Lemma verified_answers (net : Net) (d : str) :
  verified net d
  = match resolve_mx net d with
    | inr (_ :: _) => true
    | _ => false
    end.
Proof.
  unfold verified, mx_of. now destruct (resolve_mx net d) as [|[|]].
Qed.

Section FirstWithMail.
Context {order : PySetOrder} (net : Net).

Lemma has_mx_run (d : str) :
  GuessV1.has_mx net d = ([EvDns d], Ok (verified net d)).
Proof.
  rewrite verified_answers. unfold GuessV1.has_mx.
  now destruct (resolve_mx net d) as [|[|]].
Qed.

Lemma domains_loop_none (r : row) (legal_name : str)
    (domains : list str) (results : list GuessV1.guess) :
  (forall c, In c domains -> verified net c = false) ->
  GuessV1.domains_loop net r legal_name domains results
  = (map EvDns domains, Ok results).
Proof.
  unfold GuessV1.domains_loop.
  induction domains as [|c domains IH]; intros H; cbn [for_each map];
    [reflexivity|].
  rewrite has_mx_run, bind_ok, (H c (or_introl eq_refl)).
  cbn [trace outcome fst snd ret]. rewrite bind_ok. cbv beta iota.
  rewrite IH by (intros; apply H; now right). reflexivity.
Qed.

Lemma domains_loop_first (r : row) (legal_name : str)
    (pre post : list str) (d : str) (results : list GuessV1.guess) :
  (forall c, In c pre -> verified net c = false) ->
  verified net d = true ->
  GuessV1.domains_loop net r legal_name (pre ++ d :: post) results
  = (map EvDns (pre ++ [d]),
     Ok (results ++ guesses_v1 r legal_name d)).
Proof.
  unfold GuessV1.domains_loop, guesses_v1.
  induction pre as [|c pre IH]; intros H Hd; cbn [for_each map app].
  - rewrite has_mx_run, bind_ok, Hd. reflexivity.
  - rewrite has_mx_run, bind_ok, (H c (or_introl eq_refl)).
    cbn [trace outcome fst snd ret]. rewrite bind_ok. cbv beta iota.
    rewrite IH by (try assumption; intros; apply H; now right).
    reflexivity.
Qed.

Lemma dns_calls_map_EvDns (l : list str) : dns_calls (map EvDns l) = l.
Proof. induction l; simpl; congruence. Qed.

End FirstWithMail.

Section BestScored.
Context (net : Net) (r : row) (legal_name name norm : str).

Lemma earliest_best_step (seen : list str) (best : option GuessV2.guess)
    (d : str) :
  earliest_best net norm seen best ->
  earliest_best net norm (seen ++ [d])
    (best_after net r legal_name name norm best d).
Proof.
  unfold best_after. intros Inv.
  destruct (verified net d) eqn:V.
  - destruct best as [b|]; simpl in Inv.
    + destruct Inv as (l1 & l2 & -> & Vb & Cb & H1 & H2).
      destruct (Z.ltb_spec (GuessV2.confidence b) (score_of net norm d)).
      * simpl. exists (l1 ++ GuessV2.guessed_domain b :: l2), [].
        repeat split; try assumption.
        -- intros c Hc Vc.
           apply in_app_or in Hc as [Hc | [<- | Hc]].
           ++ specialize (H1 c Hc Vc). lia.
           ++ lia.
           ++ specialize (H2 c Hc Vc). lia.
        -- intros c [].
      * simpl. exists l1, (l2 ++ [d]).
        repeat split; try assumption.
        -- now rewrite <- app_assoc.
        -- intros c Hc Vc.
           apply in_app_or in Hc as [Hc | [<- | []]]; [auto | lia].
    + simpl. exists seen, []. repeat split; try assumption.
      * intros c Hc Vc. rewrite (Inv c Hc) in Vc. discriminate.
      * intros c [].
  - destruct best as [b|]; simpl in *.
    + destruct Inv as (l1 & l2 & -> & Vb & Cb & H1 & H2).
      exists l1, (l2 ++ [d]). repeat split; try assumption.
      * now rewrite <- app_assoc.
      * intros c Hc Vc.
        apply in_app_or in Hc as [Hc | [<- | []]]; [auto | congruence].
    + intros c Hc. apply in_app_or in Hc as [Hc | [<- | []]]; auto.
Qed.

Lemma earliest_best_fold (cands seen : list str)
    (best : option GuessV2.guess) :
  earliest_best net norm seen best ->
  earliest_best net norm (seen ++ cands)
    (fold_left (best_after net r legal_name name norm) cands best).
Proof.
  revert seen best.
  induction cands as [|d cands IH]; intros seen best Inv; simpl.
  - now rewrite app_nil_r.
  - replace (seen ++ d :: cands) with ((seen ++ [d]) ++ cands)
      by now rewrite <- app_assoc.
    apply IH, earliest_best_step, Inv.
Qed.

End BestScored.

(** C2, as the code has it.  Take the candidates of a company, of which
    [d] is the first with mail.  [sysiphe_guess_emails.py] asks the DNS for
    the candidates up to [d], writes its guesses for [d] and asks for no
    candidate after it.  [sysiphe_guess_emails_v2.py] asks the DNS for
    every candidate, those after [d] too, and keeps the candidate with mail
    of the highest confidence, the earliest of them when several have it. *)
Theorem C2_first_with_mail_or_best_scored {order : PySetOrder}
    (net : Net) (r : row) (legal_name name norm : str)
    (pre post : list str) (d : str)
    (results : list GuessV1.guess) (tested : nat) :
  (forall c, In c pre -> verified net c = false) ->
  verified net d = true ->
  (dns_calls (trace (GuessV1.domains_loop net r legal_name
                       (pre ++ d :: post) results))
   = pre ++ [d]
   /\ outcome (GuessV1.domains_loop net r legal_name
                 (pre ++ d :: post) results)
      = Ok (results ++ guesses_v1 r legal_name d))
  /\
  (exists best,
      outcome (for_each (pre ++ d :: post) (tested, None)
                 (GuessV2.probe net r legal_name name norm))
      = Ok (tested + length (pre ++ d :: post), Some best)
      /\ dns_calls (trace (for_each (pre ++ d :: post) (tested, None)
                             (GuessV2.probe net r legal_name name norm)))
         = pre ++ d :: post
      /\ earliest_best net norm (pre ++ d :: post) (Some best)).
Proof.
  intros Hpre Hd. split.
  - rewrite (domains_loop_first net r legal_name pre post d results Hpre Hd).
    cbn [trace outcome fst snd]. split; [|reflexivity].
    apply dns_calls_map_EvDns.
  - destruct (candidates_run net r legal_name name norm
                (pre ++ d :: post) (tested, None)) as (t & -> & Ht).
    rewrite fold_tested. cbn [trace outcome fst snd].
    pose proof (earliest_best_fold net r legal_name name norm
                  (pre ++ d :: post) [] None (fun c (H : In c []) =>
                                                match H with end)) as Inv.
    cbn [app] in Inv.
    destruct (fold_left _ _ None) as [best|].
    + exists best. repeat split; assumption.
    + simpl in Inv. rewrite Inv in Hd by (apply in_elt). discriminate.
Qed.

Lemma C2_acme_witness :
  dns_calls (trace (@GuessV1.domains_loop acme_net (row_of "Acme Pty Ltd")
                      "Acme Pty Ltd"
                      ["acme.net.au"; "acme.com.au"; "acme.com"] []))
  = ["acme.net.au"; "acme.com.au"]
  /\ exists best,
       outcome (for_each ["acme.net.au"; "acme.com.au"; "acme.com"]
                  (0, None)
                  (GuessV2.probe acme_net (row_of "Acme Pty Ltd")
                     "Acme Pty Ltd" "Acme Pty Ltd" "acme"))
       = Ok (3, Some best)
       /\ earliest_best acme_net "acme"
            ["acme.net.au"; "acme.com.au"; "acme.com"] (Some best).
Proof.
  destruct (@C2_first_with_mail_or_best_scored insertion_order acme_net
              (row_of "Acme Pty Ltd") "Acme Pty Ltd" "Acme Pty Ltd" "acme"
              ["acme.net.au"] ["acme.com"] "acme.com.au" [] 0)
    as [[H1 _] (best & H2 & _ & H3)].
  - intros c [<- | []]. vm_compute. reflexivity.
  - vm_compute. reflexivity.
  - split; [exact H1|]. exists best. split; [exact H2 | exact H3].
Defined.

(** The first candidate of Acme with mail is "acme.com.au".  The second
    script goes on to ask the DNS for the three candidates after it, and
    chooses the last of them. *)
Lemma C2_short_circuit_counterexample :
  @row_candidates insertion_order (row_of "Acme Pty Ltd")
  = ["acme.com.au"; "acme.net.au"; "acme.org.au"; "acme.com"]
  /\ verified acme_net "acme.com.au" = true
  /\ dns_calls (trace (@GuessV2.main insertion_order acme_net
                         [row_of "Acme Pty Ltd"]))
     = ["acme.com.au"; "acme.net.au"; "acme.org.au"; "acme.com"]
  /\ guessed_domains (@GuessV2.main insertion_order acme_net
                        [row_of "Acme Pty Ltd"])
     = ["acme.com"].
Proof.
  repeat split; vm_compute; reflexivity.
Qed.

(** ** C8: a search that raises *)

Lemma search_calls_app (t1 t2 : list event) :
  search_calls (t1 ++ t2) = search_calls t1 ++ search_calls t2.
Proof. apply flat_map_app. Qed.

Section SearchRun.
Context {order : PySetOrder} (net : Net) (args : Search.arguments).

Lemma fetch_page_run (url : str) :
  exists v, Search.fetch_page net url = ([EvHttp url], Ok v).
Proof.
  unfold Search.fetch_page.
  destruct (requests_get net url) as [e|r]; simpl;
    [eexists; reflexivity|].
  destruct (400 <=? status_code r)%Z; simpl; [eexists; reflexivity|].
  destruct (negb _ && negb _); simpl; eexists; reflexivity.
Qed.

Lemma fetch_page_raise (url : str) (e : exn) :
  requests_get net url = inl e ->
  Search.fetch_page net url = ([EvHttp url], Ok None).
Proof.
  intros E. unfold Search.fetch_page. now rewrite E.
Qed.

Lemma page_run (expected_domain : option str)
    (st : Z * option Search.FoundEmail) (url : str) :
  exists t f,
    Search.page net args expected_domain st url = (t, Ok f)
    /\ search_calls t = [].
Proof.
  unfold Search.page. destruct st as [fetched best].
  destruct (Search.links args <=? fetched)%Z;
    [exists [], (Break (fetched, best)); split; reflexivity|].
  destruct (fetch_page_run url) as (v & ->). rewrite bind_ok.
  destruct v as [[|c html]|];
    try (eexists; eexists; split; reflexivity).
  destruct (nonempty_list _); cbn [negb];
    [|eexists; eexists; split; reflexivity].
  destruct (Search.pick_best_email _ _ _) as [cand|];
    destruct best as [b|];
    try destruct (Search.fe_confidence b <? Search.fe_confidence cand)%Z;
    try destruct (85 <=? Search.fe_confidence _)%Z;
    eexists; eexists; split; reflexivity.
Qed.

Lemma pages_run (expected_domain : option str) (urls : list str)
    (st : Z * option Search.FoundEmail) :
  exists t p,
    for_each urls st (Search.page net args expected_domain) = (t, Ok p)
    /\ search_calls t = [].
Proof.
  revert st. induction urls as [|url urls IH]; intros st; cbn [for_each].
  - exists [], st. split; reflexivity.
  - destruct (page_run expected_domain st url) as (t1 & f & -> & H1).
    rewrite bind_ok. destruct f as [st'|st'].
    + destruct (IH st') as (t2 & p & -> & H2).
      exists (t1 ++ t2), p. split; [reflexivity|].
      now rewrite search_calls_app, H1, H2.
    + exists (t1 ++ []), st'. split; [reflexivity|].
      now rewrite search_calls_app, H1.
Qed.

Lemma company_run_search (st : Search.totals) (r : row) :
  exists t st' out,
    Search.company net args st r = (t, Ok (Next st'))
    /\ Search.results st' = Search.results st ++ [out]
    /\ Search.tested st' = S (Search.tested st)
    /\ recorded net r out
    /\ search_calls t
       = if nonempty (Search.row_name r) then [row_query r] else [].
Proof.
  unfold Search.company, recorded. cbv zeta.
  destruct (nonempty (Search.row_name r)) eqn:Named; cbn [negb].
  2:{ eexists; eexists; eexists. split; [reflexivity|].
      cbn [Search.results Search.tested].
      repeat split. intros e N. discriminate. }
  fold (row_query r). unfold Search.search_serpapi.
  destruct (serpapi_links net (row_query r)) as [e|organic] eqn:Found.
  - eexists; eexists; eexists. split; [reflexivity|].
    cbn [Search.results Search.tested]. repeat split.
    intros e' _ E. now injection E as <-.
  - cbn [emit lift bind ret try_except app].
    match goal with
    | |- context [for_each ?urls ?s0 (Search.page net args ?x)] =>
        destruct (pages_run x urls s0) as (t & p & E & Ht)
    end.
    rewrite E. cbn [bind app].
    destruct (snd p);
      eexists; eexists; eexists; (split; [reflexivity|]);
      cbn [Search.results Search.tested];
      (split; [reflexivity|]); (split; [reflexivity|]);
      (split; [intros e _ D; discriminate|]);
      cbn [search_calls flat_map app];
      fold (search_calls (t ++ [EvSleep]));
      rewrite search_calls_app, Ht; reflexivity.
Qed.

Lemma main_run_search (rows : list row) (st : Search.totals) :
  exists t st' outs,
    for_each rows st (Search.company net args) = (t, Ok st')
    /\ Search.results st' = Search.results st ++ outs
    /\ Forall2 (recorded net) rows outs
    /\ Search.tested st' = Search.tested st + length rows
    /\ search_calls t
       = map row_query
           (filter (fun r => nonempty (Search.row_name r)) rows).
Proof.
  revert st. induction rows as [|r rows IH]; intros st; cbn [for_each].
  - exists [], st, []. repeat split.
    + now rewrite app_nil_r.
    + constructor.
    + simpl. lia.
  - destruct (company_run_search st r)
      as (t1 & st1 & out & -> & R1 & T1 & Rec & S1).
    destruct (IH st1) as (t2 & st2 & outs & E2 & R2 & F2 & T2 & S2).
    rewrite bind_ok, E2. exists (t1 ++ t2), st2, (out :: outs).
    split; [reflexivity|]. split; [|split; [|split]].
    + rewrite R2, R1, <- app_assoc. reflexivity.
    + now constructor.
    + rewrite T2, T1. simpl. lia.
    + rewrite search_calls_app, S1, S2. simpl.
      now destruct (nonempty (Search.row_name r)).
Qed.

End SearchRun.

(** C8.  Whatever the network does, a run of [sysiphe_search_email.py]
    over a batch ends without raising and has written one row for each
    company, in order.  When the search for a company raises an exception
    [e], the row of that company has the reason ["search_error:" ++ e], [e]
    being the name of the class of the exception, and no address; the
    search is made all the same for every company after it.  A page whose
    download raises counts as a page without text. *)
Theorem C8_search_errors_are_recorded {order : PySetOrder}
    (net : Net) (args : Search.arguments) (rows : list row) :
  (exists st,
      outcome (Search.main net args rows) = Ok st
      /\ Forall2 (recorded net) rows (Search.results st)
      /\ Search.tested st = length rows)
  /\ search_calls (trace (Search.main net args rows))
     = map row_query (filter (fun r => nonempty (Search.row_name r)) rows)
  /\ (forall url e,
         requests_get net url = inl e ->
         Search.fetch_page net url = ([EvHttp url], Ok None)).
Proof.
  unfold Search.main.
  destruct (main_run_search net args rows
              {| Search.results := []; Search.tested := 0;
                 Search.n_found := 0 |})
    as (t & st & outs & -> & R & F & T & S).
  cbn [trace outcome fst snd Search.results Search.tested app] in *.
  split; [|split].
  - exists st. rewrite R. repeat split; assumption.
  - exact S.
  - apply fetch_page_raise.
Qed.

(** With no network at all, both companies of a batch of two get their
    [search_error] row. *)
Lemma C8_offline_witness :
  exists st,
    outcome (@Search.main insertion_order offline default_args
               [row_of "Acme Pty Ltd"; row_of "Bolt Pty Ltd"]) = Ok st
    /\ Search.results st
       = [search_error_row (row_of "Acme Pty Ltd") "ConnectionError";
          search_error_row (row_of "Bolt Pty Ltd") "ConnectionError"].
Proof.
  destruct (@C8_search_errors_are_recorded insertion_order offline
              default_args [row_of "Acme Pty Ltd"; row_of "Bolt Pty Ltd"])
    as [(st & E & F & _) _].
  exists st. split; [exact E|].
  inversion F as [|r1 o1 rs1 os1 R1 F1]; subst.
  inversion F1 as [|r2 o2 rs2 os2 R2 F2]; subst.
  inversion F2; subst.
  rewrite (R1 "ConnectionError" eq_refl eq_refl).
  rewrite (R2 "ConnectionError" eq_refl eq_refl).
  reflexivity.
Defined.

(** * More of the code *)

(** ** What the matcher matches *)

Lemma rmatch_sound (r : regex) :
  forall prev s k rest,
    rmatch r prev s k = Some rest ->
    exists m s' prev',
      s = m ++ s' /\ shape r m /\ k prev' s' = Some rest.
Proof.
  induction r as [|p| |r1 IH1 r2 IH2|r1 IH1|lo r1 IH1];
    intros prev s k rest H; simpl in H.
  - exists [], s, prev. repeat split. exact H.
  - destruct s as [|c s]; [discriminate|].
    destruct (p c) eqn:P; [|discriminate].
    exists [c], s, (Some c). repeat split; [|exact H].
    now exists c.
  - destruct (xorb _ _); [|discriminate].
    exists [], s, prev. repeat split. exact H.
  - apply IH1 in H as (m1 & s1 & p1 & -> & S1 & H).
    apply IH2 in H as (m2 & s2 & p2 & -> & S2 & H).
    exists (m1 ++ m2), s2, p2. split; [now rewrite app_assoc|].
    split; [|exact H]. now exists m1, m2.
  - destruct (rmatch r1 prev s k) as [x|] eqn:E.
    + injection H as ->.
      apply IH1 in E as (m & s' & p' & -> & S1 & E).
      exists m, s', p'. repeat split; [now right | exact E].
    + exists [], s, prev. repeat split; [now left | exact H].
  - revert H. generalize (length s). intros fuel. revert lo prev s.
    induction fuel as [|fuel IHf]; intros lo prev s H.
    + destruct (Nat.eqb_spec lo 0); [subst|discriminate].
      exists [], s, prev. repeat split; [|exact H].
      exists []. repeat split; [constructor | simpl; lia].
    + match type of H with
      | match ?X with _ => _ end = _ => destruct X as [x|] eqn:E
      end.
      * injection H as ->.
        apply IH1 in E as (m1 & s1 & p1 & -> & S1 & E).
        destruct (length s1 <? length (m1 ++ s1)); [|discriminate].
        apply IHf in E as (m & s' & p' & -> & (ms & -> & F & L) & E).
        exists (m1 ++ concat ms), s', p'.
        split; [now rewrite app_assoc|]. split; [|exact E].
        exists (m1 :: ms). repeat split; [now constructor | simpl; lia].
      * destruct (Nat.eqb_spec lo 0); [subst|discriminate].
        exists [], s, prev. repeat split; [|exact H].
        exists []. repeat split; [constructor | simpl; lia].
Qed.

Lemma match_here_sound (r : regex) (prev : option ascii) (s m rest : str) :
  match_here r prev s = Some (m, rest) -> s = m ++ rest /\ shape r m.
Proof.
  unfold match_here.
  destruct (rmatch r prev s _) as [rest0|] eqn:E; [|discriminate].
  apply rmatch_sound in E as (m0 & s' & _ & -> & Sh & E).
  injection E as <-. intros H. injection H as <- <-.
  rewrite length_app, Nat.add_sub.
  rewrite firstn_app, Nat.sub_diag, firstn_all, app_nil_r.
  rewrite skipn_app, Nat.sub_diag, skipn_all, app_nil_l.
  split; [reflexivity | exact Sh].
Qed.

Lemma occurs_in_cons (m s : str) (c : ascii) :
  occurs_in m s -> occurs_in m (c :: s).
Proof. intros (pre & post & ->). now exists (c :: pre), post. Qed.

Lemma occurs_in_app (m pre s : str) :
  occurs_in m s -> occurs_in m (pre ++ s).
Proof.
  intros (p & post & ->). exists (pre ++ p), post. now rewrite app_assoc.
Qed.

Lemma scan_sound (r : regex) (fuel : nat) :
  forall prev s m,
    In (inl m) (scan r fuel prev s) -> shape r m /\ occurs_in m s.
Proof.
  induction fuel as [|fuel IH]; intros prev s m H; simpl in H; [easy|].
  destruct (match_here r prev s) as [[[|c0 m0] rest]|] eqn:E.
  - destruct s as [|c s]; [easy|].
    destruct H as [H | H]; [discriminate|].
    apply IH in H as [Sh O]. split; [exact Sh | now apply occurs_in_cons].
  - apply match_here_sound in E as [-> Sh].
    destruct H as [H | H].
    + injection H as <-. split; [exact Sh|]. now exists [], rest.
    + apply IH in H as [Sh' O]. split; [exact Sh'|].
      now apply occurs_in_app.
  - destruct s as [|c s]; [easy|].
    destruct H as [H | H]; [discriminate|].
    apply IH in H as [Sh O]. split; [exact Sh | now apply occurs_in_cons].
Qed.

Lemma finditer_sound (r : regex) (s m : str) :
  In m (finditer r s) -> shape r m /\ occurs_in m s.
Proof.
  unfold finditer, pieces. intros H.
  apply in_flat_map in H as ([m'|c] & H & Hm); [|easy].
  destruct Hm as [<- | []]. now apply scan_sound in H.
Qed.

Lemma shape_plus_class (lo : nat) (p : ascii -> bool) (m : str) :
  shape (Rep lo (Cls p)) m -> lo <= length m /\ all_of p m.
Proof.
  intros (ms & -> & F & L). revert lo L.
  induction F as [|x ms (c & -> & P) F IH]; intros lo L; simpl in *.
  - split; [lia | constructor].
  - destruct (IH (pred lo)) as [L' A]; [lia|].
    split; [lia | now constructor].
Qed.

Lemma shape_chr (c : ascii) (m : str) : shape (Chr c) m -> m = [c].
Proof.
  intros (x & -> & E). apply Ascii.eqb_eq in E. now subst.
Qed.

(** ** The form of the addresses *)

Lemma all_of_app (p : ascii -> bool) (a b : str) :
  all_of p a -> all_of p b -> all_of p (a ++ b).
Proof. intros A B. apply Forall_app. now split. Qed.

Lemma all_of_weaken (p q : ascii -> bool) (s : str) :
  (forall c, p c = true -> q c = true) -> all_of p s -> all_of q s.
Proof. intros H. apply Forall_impl. exact H. Qed.

Lemma all_of_lower (p q : ascii -> bool) (s : str) :
  (forall c, p c = true -> q (lower_c c) = true) ->
  all_of p s -> all_of q (lower s).
Proof.
  intros H A. unfold lower, all_of. apply Forall_map.
  revert A. apply Forall_impl. exact H.
Qed.

Lemma scrape_shape (m : str) :
  shape Scrape.EMAIL_RE m ->
  address_shape Scrape.local_char Scrape.host_char Scrape.tld_char m.
Proof.
  unfold Scrape.EMAIL_RE. cbn [shape].
  intros (b1 & r1 & -> & -> & l & r2 & -> & L & a & r3 & -> & A
          & h & r4 & -> & H & d & r5 & -> & D & t & b2 & -> & T & ->).
  apply shape_plus_class in L as [L1 L2], H as [H1 H2], T as [T1 T2].
  apply shape_chr in A as ->, D as ->.
  exists l, h, t. rewrite app_nil_r. cbn [app].
  repeat split; try assumption; try lia.
  - intros ->. simpl in L1. lia.
  - intros ->. simpl in H1. lia.
Qed.

(** The labels of a host, each with its dot, make a host and a dot. *)
Lemma labels_host (ms : list str) :
  Forall (shape (Rep 1 (Cls GuessVerify.label_char) >> Chr ".")%regex) ms ->
  1 <= length ms ->
  exists host, concat ms = host ++ "."
               /\ host <> [] /\ all_of Scrape.host_char host.
Proof.
  assert (W : forall c, GuessVerify.label_char c = true ->
                        Scrape.host_char c = true).
  { intros c. destruct c as [[] [] [] [] [] [] [] []];
      vm_compute; congruence. }
  induction 1 as [|x ms (l & d & -> & L & D) F IH]; simpl; intros Hlen;
    [lia|].
  apply shape_plus_class in L as [L1 L2]. apply shape_chr in D as ->.
  apply (all_of_weaken _ _ _ W) in L2.
  destruct ms as [|y ms].
  - exists l. simpl. rewrite app_nil_r. repeat split; [|exact L2].
    intros ->. simpl in L1. lia.
  - destruct IH as (host & E & N & A); [simpl; lia|].
    exists (l ++ "." ++ host). change (concat (y :: ms)) with (y ++ concat ms) in *.
    rewrite E. split; [now rewrite <- !app_assoc|]. split.
    + intros X. apply app_eq_nil in X as [-> _]. simpl in L1. lia.
    + apply all_of_app; [exact L2|].
      apply all_of_app; [|exact A]. now repeat constructor.
Qed.

Lemma guess_verify_shape (m : str) :
  shape GuessVerify.EMAIL_RE m ->
  address_shape GuessVerify.local_char Scrape.host_char
                GuessVerify.tld_char m.
Proof.
  unfold GuessVerify.EMAIL_RE. cbn [shape].
  intros (b1 & r1 & -> & -> & l & r2 & -> & L & a & r3 & -> & A
          & h & r4 & -> & (ms & -> & F & Hlen) & t & b2 & -> & T & ->).
  apply shape_plus_class in L as [L1 L2], T as [T1 T2].
  apply shape_chr in A as ->.
  destruct (labels_host ms F Hlen) as (host & -> & N & H).
  exists l, host, t. rewrite app_nil_r. cbn [app].
  repeat split; try assumption; try lia.
  - now rewrite <- app_assoc.
  - intros ->. simpl in L1. lia.
Qed.

Lemma address_shape_lower (localc hostc tldc : ascii -> bool) (m : str) :
  (forall c, localc c = true -> lower_local_char (lower_c c) = true) ->
  (forall c, hostc c = true -> lower_host_char (lower_c c) = true) ->
  (forall c, tldc c = true -> is_lower (lower_c c) = true) ->
  address_shape localc hostc tldc m ->
  address_shape lower_local_char lower_host_char is_lower (lower m).
Proof.
  intros HL HH HT (l & h & t & -> & NL & AL & NH & AH & LT & AT).
  exists (lower l), (lower h), (lower t). unfold lower in *.
  rewrite !map_app. cbn [map]. repeat split.
  - intros E. apply map_eq_nil in E. contradiction.
  - now apply (all_of_lower localc).
  - intros E. apply map_eq_nil in E. contradiction.
  - now apply (all_of_lower hostc).
  - now rewrite length_map.
  - now apply (all_of_lower tldc).
Qed.

Lemma lower_classes :
  (forall c, Scrape.local_char c = true ->
             lower_local_char (lower_c c) = true)
  /\ (forall c, Scrape.host_char c = true ->
                lower_host_char (lower_c c) = true)
  /\ (forall c, Scrape.tld_char c = true -> is_lower (lower_c c) = true).
Proof.
  repeat split; intros c; destruct c as [[] [] [] [] [] [] [] []];
    vm_compute; congruence.
Qed.

(** ** C7: what the search path and the site harvester have in common *)

(** C7, as the code has it.  The search path does not reuse the logic of
    the site harvester of [sysiphe_guess_verify_email.py].  It returns the
    matches of its own pattern as they are written in the page: it neither
    puts them in lower case nor discards the placeholder addresses.  The
    harvester returns the lower-case forms, without the placeholder
    addresses, of the matches of another pattern, whose host is made of
    labels that hold no dot; each of these matches has the form
    [local@host.tld] that the pattern of the search path describes.  On
    ASCII text the search path finds what the pattern of
    [sysiphe_scrape_emails_from_sites.py] finds, and the harvester of that
    script returns exactly the lower-case forms of the matches of the
    search path that hold no placeholder marker. *)
Theorem C7_search_returns_raw_matches {order : PySetOrder} (page : str) :
  Search.extract_emails_from_text (Some page)
  = finditer Search.EMAIL_RE page
  /\ (forall m, In m (Search.extract_emails_from_text (Some page)) ->
                occurs_in m page)
  /\ (forall e,
        In e (GuessVerify.extract_emails page) <->
        (exists m, In m (finditer GuessVerify.EMAIL_RE page) /\ e = lower m)
        /\ marker_free GuessVerify.BAD_EMAIL_HINTS e)
  /\ (forall m,
        In m (finditer GuessVerify.EMAIL_RE page) ->
        occurs_in m page
        /\ address_shape Scrape.local_char Scrape.host_char
             Scrape.tld_char m)
  /\ (ascii_text page ->
      Search.extract_emails_from_text (Some page)
      = finditer Scrape.EMAIL_RE page
      /\ forall e,
           In e (Scrape.extract_emails page) <->
           (exists m, In m (Search.extract_emails_from_text (Some page))
                      /\ e = lower m)
           /\ marker_free Scrape.BAD_EMAIL_HINTS e).
Proof.
  assert (E : Search.extract_emails_from_text (Some page)
              = finditer Scrape.EMAIL_RE page).
  { unfold Search.extract_emails_from_text. cbn [or_empty].
    apply finditer_ext, search_pattern_is_scrape_pattern. }
  split; [reflexivity|].
  split.
  { intros m H. rewrite E in H. now apply finditer_sound in H. }
  split.
  { intros e. unfold GuessVerify.extract_emails. apply harvest_In. }
  split.
  { intros m H. apply finditer_sound in H as [Sh O].
    split; [exact O | now apply guess_verify_shape]. }
  intros _. split; [exact E|].
  intros e. rewrite E. unfold Scrape.extract_emails. apply harvest_In.
Qed.

(** On an ASCII page the harvester of the scraping script keeps the one
    address of the search path that is no placeholder, in lower case. *)
Lemma C7_page_witness :
  ascii_text "Mail Info@Acme.com.au, not you@example.com"
  /\ Search.extract_emails_from_text
       (Some "Mail Info@Acme.com.au, not you@example.com")
     = ["Info@Acme.com.au"; "you@example.com"]
  /\ In "info@acme.com.au"
        (@Scrape.extract_emails insertion_order
           "Mail Info@Acme.com.au, not you@example.com").
Proof.
  assert (A : ascii_text "Mail Info@Acme.com.au, not you@example.com")
    by (unfold ascii_text, all_of; repeat constructor).
  split; [exact A|].
  destruct (@C7_search_returns_raw_matches insertion_order
              "Mail Info@Acme.com.au, not you@example.com")
    as (_ & _ & _ & _ & H).
  destruct (H A) as [_ H'].
  split; [vm_compute; reflexivity|].
  apply H'. split.
  - exists "Info@Acme.com.au". split; [vm_compute; tauto | reflexivity].
  - intros bad Hb.
    destruct Hb as [<- | [<- | [<- | []]]]; vm_compute; reflexivity.
Defined.

(** The two patterns do not find the same texts, also on ASCII text: an
    empty label stops the pattern of [sysiphe_guess_verify_email.py]. *)
Example patterns_differ :
  finditer GuessVerify.EMAIL_RE "a@b..c.dd@e.ff" = ["b..c.dd@e.ff"]
  /\ Search.extract_emails_from_text (Some "a@b..c.dd@e.ff")
     = ["a@b..c.dd"].
Proof. split; vm_compute; reflexivity. Qed.

(** X1.  Every address that [extract_emails] returns, in
    [sysiphe_guess_verify_email.py] and in
    [sysiphe_scrape_emails_from_sites.py], is the lower-case form of a text
    that occurs in the page, and has the form [local@host.tld]: a
    non-empty local part of [[a-z0-9._%+-]], a non-empty host of
    [[a-z0-9.-]], and a last label of two letters or more. *)
Theorem X1_harvested_addresses_are_in_the_page {order : PySetOrder}
    (page e : str) :
  In e (GuessVerify.extract_emails page) \/ In e (Scrape.extract_emails page) ->
  (exists m, occurs_in m page /\ e = lower m)
  /\ address_shape lower_local_char lower_host_char is_lower e.
Proof.
  destruct lower_classes as (HL & HH & HT).
  unfold GuessVerify.extract_emails, Scrape.extract_emails.
  intros [H | H]; apply harvest_In in H as [(m & Hm & ->) _];
    apply finditer_sound in Hm as [Sh O].
  - split; [now exists m|].
    apply guess_verify_shape in Sh.
    now apply (address_shape_lower _ _ _ m HL HH HT).
  - split; [now exists m|].
    apply scrape_shape in Sh.
    now apply (address_shape_lower _ _ _ m HL HH HT).
Qed.

Lemma X1_page_witness :
  (exists m, occurs_in m "Mail Info@Acme-Steel.com.au, not you@example.com"
             /\ "info@acme-steel.com.au" = lower m)
  /\ address_shape lower_local_char lower_host_char is_lower
       "info@acme-steel.com.au".
Proof.
  apply (@X1_harvested_addresses_are_in_the_page insertion_order
           "Mail Info@Acme-Steel.com.au, not you@example.com").
  left. vm_compute. tauto.
Defined.

(** X2.  On ASCII text, every address that [extract_emails_from_text]
    returns occurs in the text as it is written there, and has the form
    [local@host.tld], in either case of the letters. *)
Theorem X2_search_matches_are_in_the_text (txt m : str) :
  ascii_text txt ->
  In m (Search.extract_emails_from_text (Some txt)) ->
  occurs_in m txt
  /\ address_shape Scrape.local_char Scrape.host_char Scrape.tld_char m.
Proof.
  intros _.
  unfold Search.extract_emails_from_text. cbn [or_empty].
  rewrite (finditer_ext _ _ txt search_pattern_is_scrape_pattern).
  intros H. apply finditer_sound in H as [Sh O].
  split; [exact O | now apply scrape_shape].
Qed.

Lemma X2_text_witness :
  ascii_text "Mail Info@Acme.com.au, not you@example.com"
  /\ occurs_in "Info@Acme.com.au"
       "Mail Info@Acme.com.au, not you@example.com"
  /\ address_shape Scrape.local_char Scrape.host_char Scrape.tld_char
       "Info@Acme.com.au".
Proof.
  assert (A : ascii_text "Mail Info@Acme.com.au, not you@example.com")
    by (unfold ascii_text, all_of; repeat constructor).
  split; [exact A|].
  apply (X2_search_matches_are_in_the_text _ _ A). vm_compute. tauto.
Defined.

(** ** Substitution *)

Lemma match_here_class (p : ascii -> bool) (prev : option ascii) (s : str) :
  match_here (Cls p) prev s
  = match s with
    | c :: s' => if p c then Some ([c], s') else None
    | [] => None
    end.
Proof.
  unfold match_here. destruct s as [|c s]; cbn [rmatch]; [reflexivity|].
  destruct (p c); [|reflexivity]. cbn [length].
  replace (S (length s) - length s) with 1 by lia. reflexivity.
Qed.

(** Replacing a class by nothing deletes its characters. *)
Lemma re_sub_class (p : ascii -> bool) (s : str) :
  re_sub (Cls p) "" s = filter (fun c => negb (p c)) s.
Proof.
  unfold re_sub, pieces. generalize (@None ascii) as prev.
  assert (G : forall fuel prev s, length s < fuel ->
            flat_map (fun x : str + ascii =>
                        match x with inl _ => "" | inr c => [c] end)
                     (scan (Cls p) fuel prev s)
            = filter (fun c => negb (p c)) s).
  { induction fuel as [|fuel IH]; intros prev t L; [lia|].
    cbn [scan]. rewrite match_here_class.
    destruct t as [|c t]; [reflexivity|]. simpl in L.
    destruct (p c) eqn:P; simpl; rewrite P; simpl.
    - apply IH. lia.
    - f_equal. apply IH. lia. }
  intros prev. apply G. lia.
Qed.

(** A substitution writes characters of the text and of the
    replacement only. *)
Lemma re_sub_all_of (P : ascii -> bool) (r : regex) (repl s : str) :
  all_of P repl -> all_of P s -> all_of P (re_sub r repl s).
Proof.
  intros R. unfold re_sub, pieces.
  generalize (S (length s)) as fuel. generalize (@None ascii) as prev.
  intros prev fuel. revert prev s.
  induction fuel as [|fuel IH]; intros prev s A; cbn [scan flat_map];
    [constructor|].
  destruct (match_here r prev s) as [[[|c0 m0] rest]|] eqn:E.
  - destruct s as [|c s]; [constructor|].
    inversion A; subst. cbn [flat_map]. apply all_of_app.
    + now repeat constructor.
    + now apply IH.
  - apply match_here_sound in E as [-> _].
    cbn [flat_map]. apply all_of_app; [exact R|].
    apply IH. unfold all_of in A. apply Forall_app in A. tauto.
  - destruct s as [|c s]; [constructor|].
    inversion A; subst. cbn [flat_map]. apply all_of_app.
    + now repeat constructor.
    + now apply IH.
Qed.

Lemma lstrip_by_all_of (P p : ascii -> bool) (s : str) :
  all_of P s -> all_of P (lstrip_by p s).
Proof.
  induction 1 as [|c s Pc A IH]; simpl; [constructor|].
  destruct (p c); [exact IH | now constructor].
Qed.

Lemma strip_all_of (P : ascii -> bool) (s : str) :
  all_of P s -> all_of P (strip s).
Proof.
  intros A. unfold strip, rstrip_by, all_of.
  apply Forall_rev. apply lstrip_by_all_of. apply Forall_rev.
  now apply lstrip_by_all_of.
Qed.

(** ** The characters of a normalized name and of its domains *)

Lemma normalize_name_all_of (name : str) :
  all_of norm_char (Names.normalize_name name).
Proof.
  unfold Names.normalize_name. cbv zeta.
  apply (all_of_lower (fun c => negb (Names.not_name_char c))).
  { intros c. destruct c as [[] [] [] [] [] [] [] []];
      vm_compute; congruence. }
  apply strip_all_of. apply re_sub_all_of.
  { now repeat constructor. }
  rewrite re_sub_class. unfold all_of.
  apply Forall_forall. intros c H. apply filter_In in H as [_ H]. exact H.
Qed.

(** X3.  Whatever the name of the company, [normalize_name] returns
    lower-case letters, digits and blanks only. *)
Theorem X3_normalize_name_characters (name : str) :
  all_of norm_char (GuessV1.normalize_name name)
  /\ all_of norm_char (GuessV2.normalize_name name).
Proof.
  split; apply normalize_name_all_of.
Qed.
Lemma split_ws_from_all_of (P : ascii -> bool) (s cur : str) :
  all_of P s -> all_of P cur ->
  (forall c, In c cur -> is_space c = false) ->
  Forall (fun t => t <> [] /\ all_of (fun c => P c && negb (is_space c)) t)
         (split_ws_from cur s).
Proof.
  intros A. revert cur.
  assert (R : forall cur, all_of P cur ->
                (forall c, In c cur -> is_space c = false) ->
                all_of (fun c => P c && negb (is_space c)) (rev cur)).
  { intros cur C N. apply Forall_rev, Forall_forall. intros c Hc.
    unfold all_of in C. rewrite Forall_forall in C.
    now rewrite (C c Hc), (N c Hc). }
  assert (E : forall (a : ascii) cur, rev (a :: cur) <> []).
  { intros a cur X. simpl in X. now apply app_eq_nil in X as [_ X]. }
  induction A as [|c s Pc A IH]; intros cur C N; simpl.
  - destruct cur as [|a cur]; constructor; [|constructor].
    split; [apply E | now apply R].
  - destruct (is_space c) eqn:Sp.
    + destruct cur as [|a cur].
      * apply IH; [constructor | intros ? []].
      * constructor; [split; [apply E | now apply R]|].
        apply IH; [constructor | intros ? []].
    + apply IH; [now constructor|].
      intros x [<- | Hx]; [exact Sp | now apply N].
Qed.

Lemma join_tokens (sep : str) (tokens : list str) :
  all_of core_char sep ->
  Forall (fun t => t <> [] /\ all_of alnum_char t) tokens ->
  all_of core_char (join sep tokens)
  /\ (tokens <> [] ->
      exists c rest, join sep tokens = c :: rest /\ alnum_char c = true).
Proof.
  assert (W : forall c, alnum_char c = true -> core_char c = true).
  { intros c H. unfold core_char. unfold alnum_char in H. now rewrite H. }
  intros Hsep. induction 1 as [|t ts [N A] F [IH1 IH2]].
  - cbn [join]. split; [constructor|]. intros H. now contradiction H.
  - assert (Hd : exists c rest, t = c :: rest /\ alnum_char c = true).
    { destruct t as [|c t]; [congruence|]. inversion A; subst.
      now exists c, t. }
    destruct Hd as (c & rest & -> & Hc).
    destruct ts as [|t' ts]; cbn [join].
    + split; [now apply (all_of_weaken _ _ _ W) | now exists c, rest].
    + split.
      * apply all_of_app; [now apply (all_of_weaken _ _ _ W)|].
        now apply all_of_app.
      * intros _. now exists c, (rest ++ sep ++ join sep (t' :: ts)).
Qed.

Lemma normalized_tokens (name : str) :
  Forall (fun t => t <> [] /\ all_of alnum_char t)
         (split_ws (Names.normalize_name name)).
Proof.
  unfold split_ws.
  pose proof (split_ws_from_all_of norm_char (Names.normalize_name name) []
                (normalize_name_all_of name) (Forall_nil _)
                (fun c (H : In c []) => match H with end)) as F.
  revert F. apply Forall_impl. intros t [N A]. split; [exact N|].
  revert A. apply all_of_weaken.
  intros c. destruct c as [[] [] [] [] [] [] [] []]; vm_compute; congruence.
Qed.

(** X4.  Every candidate domain of a row is a core and a configured
    suffix, the core being made of lower-case letters, digits and hyphens
    and beginning with a letter or a digit, whatever the characters of
    the name of the company. *)
Theorem X4_candidates_are_host_names {order : PySetOrder} (r : row)
    (d : str) :
  In d (row_candidates r) ->
  exists core suf,
    d = core ++ suf
    /\ In suf GuessV2.DOMAIN_SUFFIXES_AU
    /\ all_of core_char core
    /\ exists c rest, core = c :: rest /\ alnum_char c = true.
Proof.
  unfold row_candidates. destruct (nonempty _); [|intros []].
  unfold GuessV2.domain_candidates, GuessV2.normalize_name. intros H.
  apply in_flat_map in H as (core & Hcore & H).
  apply in_map_iff in H as (suf & <- & Hsuf).
  exists core, suf. split; [reflexivity|]. split; [exact Hsuf|].
  apply In_domain_core_candidates, In_accepted_cores in Hcore.
  pose proof (normalized_tokens (GuessV2.row_name r)) as T.
  assert (T2 : Forall (fun t => t <> [] /\ all_of alnum_char t)
                 (firstn 2 (split_ws
                              (Names.normalize_name (GuessV2.row_name r))))).
  { rewrite <- (firstn_skipn 2) in T. apply Forall_app in T. tauto. }
  assert (Hyphen : all_of core_char "-") by now repeat constructor.
  assert (None_ : all_of core_char "") by constructor.
  assert (NE : forall (sep : str) ts, 4 <= length (join sep ts) -> ts <> []).
  { intros sep ts L ->. simpl in L. lia. }
  destruct Hcore as [[-> L] | [[-> L] | [-> [_ L]]]];
    match goal with
    | |- context [join ?sep ?ts] =>
        destruct (join_tokens sep ts) as [A Hd];
        [assumption | assumption |
         split; [exact A | apply Hd, (NE sep); lia]]
    end.
Qed.

Lemma X4_smith_witness :
  exists core suf,
    "smith-sons.com.au" = core ++ suf
    /\ In suf GuessV2.DOMAIN_SUFFIXES_AU
    /\ all_of core_char core
    /\ exists c rest, core = c :: rest /\ alnum_char c = true.
Proof.
  apply (@X4_candidates_are_host_names insertion_order
           (row_of "Smith & Sons (Holdings) Pty. Ltd.")).
  vm_compute. tauto.
Defined.

(** ** How many candidates, how many lookups *)

Lemma length_dedup_le (l : list str) : length (dedup l) <= length l.
Proof.
  induction l as [|x l IH]; simpl; [lia|].
  pose proof (filter_length_le (fun y => negb (str_eqb x y)) (dedup l)).
  lia.
Qed.

Lemma length_set_iter_le {order : PySetOrder} (l : pyset) :
  length (set_iter l) <= length l.
Proof.
  rewrite (Permutation_length (set_iter_perm l)). apply length_dedup_le.
Qed.

Lemma length_accepted_cores (tokens : list str) :
  length (GuessV2.accepted_cores tokens) <= 3.
Proof.
  unfold GuessV2.accepted_cores. cbv zeta.
  repeat match goal with
         | |- context [if ?b then _ else _] => destruct b
         end; simpl; lia.
Qed.

Lemma length_domain_candidates (cores : list str) :
  length (GuessV2.domain_candidates cores) = 4 * length cores.
Proof.
  induction cores as [|c cores IH]; [reflexivity|].
  change (GuessV2.domain_candidates (c :: cores))
    with (map (fun suf => c ++ suf) GuessV2.DOMAIN_SUFFIXES_AU
          ++ GuessV2.domain_candidates cores).
  rewrite length_app, length_map. unfold str in *. simpl in *. lia.
Qed.

Lemma length_row_candidates {order : PySetOrder} (r : row) :
  length (row_candidates r) <= 12.
Proof.
  unfold row_candidates. destruct (nonempty _); [|simpl; lia].
  rewrite length_domain_candidates.
  unfold GuessV2.domain_core_candidates.
  destruct (filter _ _) as [|t0 ts]; [simpl; lia|].
  destruct (_ && _); [simpl; lia|].
  pose proof (length_set_iter_le (GuessV2.accepted_cores (t0 :: ts))).
  pose proof (length_accepted_cores (t0 :: ts)). lia.
Qed.

Lemma length_flat_map_le {A B : Type} (f : A -> list B) (n : nat)
    (l : list A) :
  (forall a, length (f a) <= n) -> length (flat_map f l) <= n * length l.
Proof.
  intros H. induction l as [|a l IH]; simpl; [lia|].
  rewrite length_app. specialize (H a). lia.
Qed.

(** X5.  A name gives at most three cores and twelve candidate domains
    in [sysiphe_guess_emails_v2.py], and at most eight candidate domains in
    [sysiphe_guess_emails.py]; a run of the former asks the DNS at most
    twelve times the number of rows of its input. *)
Theorem X5_candidates_are_few {order : PySetOrder} (net : Net)
    (norm : str) (rows : list row) :
  length (GuessV2.domain_core_candidates norm) <= 3
  /\ length (GuessV2.domain_candidates
               (GuessV2.domain_core_candidates norm)) <= 12
  /\ length (GuessV1.generate_domain_candidates norm) <= 8
  /\ length (dns_calls (trace (GuessV2.main net rows)))
     <= 12 * length rows.
Proof.
  assert (C : length (GuessV2.domain_core_candidates norm) <= 3).
  { unfold GuessV2.domain_core_candidates.
    destruct (filter _ _) as [|t0 ts]; [simpl; lia|].
    destruct (_ && _); [simpl; lia|].
    pose proof (length_set_iter_le (GuessV2.accepted_cores (t0 :: ts))).
    pose proof (length_accepted_cores (t0 :: ts)). lia. }
  split; [exact C|]. split; [rewrite length_domain_candidates; lia|].
  split.
  - unfold GuessV1.generate_domain_candidates. cbv zeta.
    etransitivity; [apply length_set_iter_le|].
    etransitivity.
    + apply (length_flat_map_le _ 4). intros core.
      destruct (4 <=? length core); simpl; lia.
    + pose proof (length_set_iter_le
                    [join "" (split_ws norm); join "-" (split_ws norm)])
        as L.
      cbn [length] in L. unfold str, pyset in *. lia.
  - unfold GuessV2.main.
    destruct (main_run net rows
                {| GuessV2.results := []; GuessV2.tested := 0;
                   GuessV2.kept := 0 |}) as (t & st & -> & Ht & _).
    cbn [trace fst]. rewrite Ht.
    apply length_flat_map_le, length_row_candidates.
Qed.

(** ** The score of a domain *)

Lemma confidence_score_parts (domain norm_name : str)
    (mx_list : list str) (site_ok : bool) :
  exists bonus,
    (0 <= bonus <= 30)%Z
    /\ GuessV2.confidence_score domain norm_name mx_list site_ok
       = ((if nonempty_list mx_list then 40 else 0)
          + (if site_ok then 30 else 0) + bonus)%Z
    /\ (0 <= GuessV2.confidence_score domain norm_name mx_list site_ok
        <= 100)%Z.
Proof.
  unfold GuessV2.confidence_score. cbv zeta.
  destruct (nonempty_list mx_list), site_ok;
    destruct (split_ws norm_name) as [|t0 [|t1 ts]];
    try destruct (contains t0 _); try destruct (contains t1 _);
    match goal with
    | |- exists b, _ /\ Z.min ?s 100 = (?a + ?c + b)%Z /\ _ =>
        exists (s - a - c)%Z
    end; lia.
Qed.

(** X6.  The confidence of a domain is the sum of 40 for its mail
    exchangers, 30 for its site, 20 for the first token of the name and 10
    for the second when they are in its first label.  This sum, taken
    before the cap, is at most 100: [min(score, 100)] never lowers it.
    So the score lies between 0 and 100. *)
Theorem X6_confidence_score_range (domain norm_name : str)
    (mx_list : list str) (site_ok : bool) :
  let uncapped :=
    ((if nonempty_list mx_list then 40 else 0)
     + (if site_ok then 30 else 0)
     + name_bonus domain norm_name)%Z in
  GuessV2.confidence_score domain norm_name mx_list site_ok
  = Z.min uncapped 100
  /\ (0 <= name_bonus domain norm_name <= 30)%Z
  /\ (0 <= uncapped <= 100)%Z
  /\ GuessV2.confidence_score domain norm_name mx_list site_ok = uncapped.
Proof.
  unfold GuessV2.confidence_score, name_bonus. cbv zeta.
  destruct (nonempty_list mx_list), site_ok;
    destruct (split_ws norm_name) as [|t0 [|t1 ts]];
    try destruct (contains t0 _); try destruct (contains t1 _);
    repeat split; lia.
Qed.

(** ** The rows and the requests of [sysiphe_guess_emails_v2.py] *)

Lemma http_calls_app (t1 t2 : list event) :
  http_calls (t1 ++ t2) = http_calls t1 ++ http_calls t2.
Proof. apply flat_map_app. Qed.

Section Guesses.
Context {order : PySetOrder} (net : Net).

Lemma site_responds_http (d : str) :
  exists t, GuessV2.site_responds net d = (t, Ok (site_of net d))
            /\ http_calls t = site_requests net d.
Proof.
  unfold GuessV2.site_responds, site_of, site_requests, responds.
  cbn [for_each]. cbv beta zeta.
  remember (requests_get net ("https://" ++ d)) as g1.
  remember (requests_get net ("http://" ++ d)) as g2.
  destruct g1 as [e1|r1], g2 as [e2|r2]; simpl;
    try destruct (status_code r1 <? 500)%Z;
    try destruct (status_code r2 <? 500)%Z;
    simpl; eexists; split; reflexivity.
Qed.

Lemma probe_http (r : row) (legal_name name norm : str)
    (st : nat * option GuessV2.guess) (dom : str) :
  exists t,
    GuessV2.probe net r legal_name name norm st dom
    = (t, Ok (Next (S (fst st),
                    best_after net r legal_name name norm (snd st) dom)))
    /\ http_calls t = probe_requests net dom.
Proof.
  destruct st as [tested best].
  unfold GuessV2.probe, best_after, probe_requests, verified, score_of.
  rewrite mx_hosts_run, bind_ok. cbn [fst snd].
  destruct (nonempty_list (mx_of net dom)); cbn [negb];
    [|eexists; split; reflexivity].
  unfold GuessV2.is_obvious_sink.
  destruct (site_responds_http dom) as (t & -> & Ht).
  rewrite bind_ok.
  destruct (match best with None => true | Some _ => _ end);
    eexists; (split; [reflexivity|]);
    cbn [trace outcome fst snd ret];
    rewrite !http_calls_app, Ht; cbn [http_calls flat_map app];
    now rewrite app_nil_r.
Qed.

Lemma candidates_http (r : row) (legal_name name norm : str)
    (cands : list str) :
  forall st : nat * option GuessV2.guess,
  exists t,
    for_each cands st (GuessV2.probe net r legal_name name norm)
    = (t, Ok (fst st + length cands,
              fold_left (best_after net r legal_name name norm)
                        cands (snd st)))
    /\ http_calls t = flat_map (probe_requests net) cands.
Proof.
  induction cands as [|d cands IH]; intros [n b]; cbn [for_each].
  - exists []. cbn [fst snd fold_left length]. rewrite Nat.add_0_r.
    split; reflexivity.
  - destruct (probe_http r legal_name name norm (n, b) d) as (t1 & -> & H1).
    rewrite bind_ok. cbv beta iota.
    destruct (IH (S (fst (n, b)),
                  best_after net r legal_name name norm (snd (n, b)) d))
      as (t2 & -> & H2).
    exists (t1 ++ t2).
    cbn [trace outcome fst snd fold_left length flat_map Nat.add].
    rewrite Nat.add_succ_r. split; [reflexivity|].
    now rewrite http_calls_app, H1, H2.
Qed.

Lemma company_run_full (st : GuessV2.totals) (r : row) :
  exists t st',
    GuessV2.company net st r = (t, Ok (Next st'))
    /\ GuessV2.results st'
       = GuessV2.results st ++ opt_list (company_best net r)
    /\ GuessV2.kept st'
       = GuessV2.kept st + length (opt_list (company_best net r))
    /\ http_calls t = flat_map (probe_requests net) (row_candidates r).
Proof.
  unfold GuessV2.company, company_best, row_candidates. cbv zeta.
  destruct (nonempty (GuessV2.row_name r)); cbn [negb].
  2:{ exists [], st. cbn [fold_left opt_list length flat_map].
      rewrite app_nil_r, Nat.add_0_r. repeat split. }
  destruct (GuessV2.domain_core_candidates _) as [|c cores] eqn:Ecores;
    cbn [nonempty_list negb].
  { exists [], st. cbn [GuessV2.domain_candidates fold_left opt_list length
                          flat_map].
    rewrite app_nil_r, Nat.add_0_r. repeat split. }
  destruct (candidates_http r
              (strip (or_empty (row_get "legal_name" r)))
              (GuessV2.row_name r)
              (GuessV2.normalize_name (GuessV2.row_name r))
              (GuessV2.domain_candidates (c :: cores))
              (GuessV2.tested st, None)) as (t & -> & Ht).
  rewrite bind_ok. cbn [fst snd].
  destruct (fold_left _ _ None);
    eexists; eexists; (split; [reflexivity|]);
    cbn [trace outcome fst snd ret GuessV2.results GuessV2.kept opt_list
           length];
    rewrite ?app_nil_r, ?Nat.add_0_r, ?Nat.add_1_r;
    repeat split; exact Ht.
Qed.

Lemma main_run_full (rows : list row) (st : GuessV2.totals) :
  exists t st',
    for_each rows st (GuessV2.company net) = (t, Ok st')
    /\ GuessV2.results st'
       = GuessV2.results st
         ++ flat_map (fun r => opt_list (company_best net r)) rows
    /\ GuessV2.kept st'
       = GuessV2.kept st
         + length (flat_map (fun r => opt_list (company_best net r)) rows)
    /\ http_calls t
       = flat_map (probe_requests net) (flat_map row_candidates rows).
Proof.
  revert st. induction rows as [|r rows IH]; intros st; cbn [for_each].
  - exists [], st. cbn [flat_map length].
    rewrite app_nil_r, Nat.add_0_r. repeat split.
  - destruct (company_run_full st r) as (t1 & st1 & -> & R1 & K1 & H1).
    destruct (IH st1) as (t2 & st2 & E2 & R2 & K2 & H2).
    rewrite bind_ok, E2. exists (t1 ++ t2), st2.
    cbn [trace outcome fst snd flat_map].
    split; [reflexivity|]. split; [|split].
    + rewrite R2, R1. now rewrite app_assoc.
    + rewrite K2, K1, length_app. lia.
    + now rewrite http_calls_app, H1, H2, flat_map_app.
Qed.

(** The guess kept for a row is the one the loop builds for one of the
    candidates that have mail. *)
Lemma best_is_built (r : row) (legal_name name norm : str)
    (cands : list str) :
  forall best b,
    (forall b0, best = Some b0 ->
                exists d, verified net d = true
                          /\ best_after net r legal_name name norm None d
                             = Some b0) ->
    fold_left (best_after net r legal_name name norm) cands best = Some b ->
    exists d, verified net d = true
              /\ best_after net r legal_name name norm None d = Some b.
Proof.
  induction cands as [|c cands IH]; intros best b Inv H; cbn [fold_left] in H.
  - now apply Inv.
  - apply IH in H; [exact H|].
    intros b0 E. unfold best_after in E.
    destruct (verified net c) eqn:V; [|now apply Inv].
    destruct (match best with None => true | Some _ => _ end);
      [|now apply Inv].
    exists c. split; [exact V|]. unfold best_after. now rewrite V.
Qed.

Lemma company_best_some (r : row) (b : GuessV2.guess) :
  company_best net r = Some b ->
  In (GuessV2.guessed_domain b) (row_candidates r)
  /\ verified net (GuessV2.guessed_domain b) = true
  /\ GuessV2.display_name b = GuessV2.row_name r
  /\ GuessV2.email b = "enquiries@" ++ GuessV2.guessed_domain b
  /\ GuessV2.confidence b
     = score_of net (GuessV2.normalize_name (GuessV2.row_name r))
         (GuessV2.guessed_domain b)
  /\ (40 <= GuessV2.confidence b <= 100)%Z
  /\ GuessV2.method b = "guess_mx_http".
Proof.
  unfold company_best. intros H.
  pose proof (earliest_best_fold net r
                (strip (or_empty (row_get "legal_name" r)))
                (GuessV2.row_name r)
                (GuessV2.normalize_name (GuessV2.row_name r))
                (row_candidates r) [] None
                (fun c (X : In c []) => match X with end)) as Inv.
  cbn [app] in Inv. rewrite H in Inv.
  destruct Inv as (l1 & l2 & E & V & _).
  apply best_is_built in H as (d & Vd & B); [|discriminate].
  unfold best_after in B. rewrite Vd in B. injection B as <-.
  cbn [GuessV2.guessed_domain GuessV2.display_name GuessV2.email
         GuessV2.confidence GuessV2.method] in *.
  split; [rewrite E; apply in_elt|]. split; [exact V|].
  repeat split.
  - unfold score_of.
    destruct (confidence_score_parts d
                (GuessV2.normalize_name (GuessV2.row_name r))
                (mx_of net d) (site_of net d)) as (bonus & Hb & -> & _).
    unfold verified in Vd. rewrite Vd. destruct (site_of net d); lia.
  - unfold score_of.
    destruct (confidence_score_parts d
                (GuessV2.normalize_name (GuessV2.row_name r))
                (mx_of net d) (site_of net d)) as (bonus & _ & _ & H).
    lia.
Qed.

Lemma company_best_none (r : row) :
  company_best net r = None <-> has_mail net r = false.
Proof.
  unfold company_best, has_mail.
  pose proof (earliest_best_fold net r
                (strip (or_empty (row_get "legal_name" r)))
                (GuessV2.row_name r)
                (GuessV2.normalize_name (GuessV2.row_name r))
                (row_candidates r) [] None
                (fun c (X : In c []) => match X with end)) as Inv.
  cbn [app] in Inv.
  destruct (fold_left _ _ None) as [b|].
  - destruct Inv as (l1 & l2 & E & V & _). split; [discriminate|].
    intros N. exfalso.
    assert (X : existsb (verified net) (row_candidates r) = true).
    { apply existsb_exists. exists (GuessV2.guessed_domain b).
      split; [rewrite E; apply in_elt | exact V]. }
    congruence.
  - split; [|reflexivity]. intros _.
    destruct (existsb _ _) eqn:X; [|reflexivity].
    apply existsb_exists in X as (c & Hc & Vc).
    simpl in Inv. rewrite (Inv c Hc) in Vc. discriminate.
Qed.

End Guesses.

(** X7.  A run of [sysiphe_guess_emails_v2.py] writes one row for each
    company that has a candidate domain with mail, in the order of the
    input, and none for the others; [kept] counts them.  The domain of a
    row is a candidate of its company and has mail, its address is
    ["enquiries@"] and the domain, and its confidence is the score of the
    domain, between 40 and 100. *)
Theorem X7_rows_of_a_run {order : PySetOrder} (net : Net)
    (rows : list row) :
  exists st,
    outcome (GuessV2.main net rows) = Ok st
    /\ GuessV2.kept st = length (GuessV2.results st)
    /\ map GuessV2.display_name (GuessV2.results st)
       = map GuessV2.row_name (filter (has_mail net) rows)
    /\ forall b, In b (GuessV2.results st) ->
         exists r,
           In r rows
           /\ GuessV2.display_name b = GuessV2.row_name r
           /\ In (GuessV2.guessed_domain b) (row_candidates r)
           /\ verified net (GuessV2.guessed_domain b) = true
           /\ GuessV2.email b = "enquiries@" ++ GuessV2.guessed_domain b
           /\ GuessV2.confidence b
              = score_of net (GuessV2.normalize_name (GuessV2.row_name r))
                  (GuessV2.guessed_domain b)
           /\ (40 <= GuessV2.confidence b <= 100)%Z
           /\ GuessV2.method b = "guess_mx_http".
Proof.
  unfold GuessV2.main.
  destruct (main_run_full net rows
              {| GuessV2.results := []; GuessV2.tested := 0;
                 GuessV2.kept := 0 |}) as (t & st & -> & R & K & _).
  cbn [GuessV2.results GuessV2.kept app Nat.add] in R, K.
  exists st. cbn [outcome snd]. rewrite R, K.
  split; [reflexivity|]. split; [reflexivity|]. split.
  - clear. induction rows as [|r rows IH]; [reflexivity|].
    cbn [flat_map filter]. rewrite map_app, IH.
    destruct (company_best net r) as [b|] eqn:E.
    + destruct (has_mail net r) eqn:M.
      * apply company_best_some in E as (_ & _ & D & _).
        cbn [opt_list map app]. now rewrite D.
      * apply company_best_none in M. congruence.
    + apply company_best_none in E. now rewrite E.
  - intros b Hb. apply in_flat_map in Hb as (r & Hr & Hb).
    destruct (company_best net r) as [b'|] eqn:E; [|destruct Hb].
    destruct Hb as [<- | []].
    apply company_best_some in E as (C & V & D & Em & Sc & Rg & Me).
    exists r. repeat split; try assumption; lia.
Qed.

(** X8.  A run of [sysiphe_guess_emails_v2.py] requests the site of the
    candidates that have mail, and of no other domain: over HTTPS, and then
    over HTTP when HTTPS raised or answered with a status of 500 or
    more. *)
Theorem X8_requests_of_a_run {order : PySetOrder} (net : Net)
    (rows : list row) :
  http_calls (trace (GuessV2.main net rows))
  = flat_map (fun d =>
                if verified net d
                then if responds net ("https://" ++ d)
                     then ["https://" ++ d]
                     else ["https://" ++ d; "http://" ++ d]
                else [])
             (flat_map row_candidates rows).
Proof.
  unfold GuessV2.main.
  destruct (main_run_full net rows
              {| GuessV2.results := []; GuessV2.tested := 0;
                 GuessV2.kept := 0 |}) as (t & st & -> & _ & _ & H).
  exact H.
Qed.

Lemma X7_acme_witness :
  exists st,
    outcome (@GuessV2.main insertion_order acme_net two_acme_rows) = Ok st
    /\ map GuessV2.email (GuessV2.results st)
       = ["enquiries@acme.com"; "enquiries@acme.com"].
Proof.
  destruct (@X7_rows_of_a_run insertion_order acme_net two_acme_rows)
    as (st & E & _).
  exists st. split; [exact E|].
  vm_compute in E. injection E as <-. reflexivity.
Defined.

(** ** The rows and the lookups of [sysiphe_guess_emails.py] *)

Section FirstScript.
Context {order : PySetOrder} (net : Net).

Lemma domains_loop_run (r : row) (legal_name : str) (domains : list str)
    (results : list GuessV1.guess) :
  GuessV1.domains_loop net r legal_name domains results
  = (map EvDns (looked_up net domains),
     Ok (results ++ match find (verified net) domains with
                    | Some d => guesses_v1 r legal_name d
                    | None => []
                    end)).
Proof.
  unfold GuessV1.domains_loop, guesses_v1.
  induction domains as [|c domains IH]; cbn [for_each find looked_up map].
  - now rewrite app_nil_r.
  - rewrite has_mx_run, bind_ok. destruct (verified net c).
    + reflexivity.
    + cbn [trace outcome fst snd ret]. rewrite bind_ok. cbv beta iota.
      rewrite IH. reflexivity.
Qed.

Lemma looked_up_length (cands : list str) :
  length (looked_up net cands) <= length cands.
Proof.
  induction cands as [|c cands IH]; simpl; [lia|].
  destruct (verified net c); simpl; lia.
Qed.

Lemma main_v1_run (rows : list row) (results : list GuessV1.guess) :
  for_each rows results
    (fun results r =>
       let legal_name := GuessV1.row_name r in
       if negb (nonempty (strip legal_name)) then ret (Next results)
       else
         let norm := GuessV1.normalize_name legal_name in
         let domains := GuessV1.generate_domain_candidates norm in
         results' <- GuessV1.domains_loop net r legal_name domains results ;;
         ret (Next results'))
  = (map EvDns (flat_map (fun r => looked_up net (row_candidates_v1 r)) rows),
     Ok (results ++ flat_map (row_guesses_v1 net) rows)).
Proof.
  revert results.
  induction rows as [|r rows IH]; intros results; cbn [for_each flat_map map].
  - now rewrite app_nil_r.
  - assert (G : row_guesses_v1 net r
                = match find (verified net) (row_candidates_v1 r) with
                  | Some d => guesses_v1 r (GuessV1.row_name r) d
                  | None => []
                  end) by reflexivity.
    assert (C : row_candidates_v1 r
                = if nonempty (strip (GuessV1.row_name r))
                  then GuessV1.generate_domain_candidates
                         (GuessV1.normalize_name (GuessV1.row_name r))
                  else []) by reflexivity.
    rewrite G, C. cbv zeta.
    destruct (nonempty (strip (GuessV1.row_name r))); cbn [negb].
    + rewrite domains_loop_run, bind_ok.
      cbn [trace outcome fst snd ret]. rewrite bind_ok. cbv beta iota.
      rewrite IH. cbn [trace outcome fst snd].
      now rewrite app_nil_r, map_app, <- app_assoc.
    + unfold ret at 1. rewrite bind_ok. cbv beta iota. rewrite IH.
      cbn [trace outcome fst snd find looked_up app]. reflexivity.
Qed.

Lemma length_row_candidates_v1 (r : row) :
  length (row_candidates_v1 r) <= 8.
Proof.
  unfold row_candidates_v1. destruct (nonempty _); [|simpl; lia].
  unfold GuessV1.generate_domain_candidates. cbv zeta.
  etransitivity; [apply length_set_iter_le|].
  etransitivity.
  - apply (length_flat_map_le _ 4). intros core.
    destruct (4 <=? length core); simpl; lia.
  - match goal with
    | |- 4 * length (set_iter ?l) <= 8 =>
        pose proof (length_set_iter_le l) as L
    end.
    cbn [length] in L. unfold str, pyset in *. lia.
Qed.

End FirstScript.

(** X9.  A run of [sysiphe_guess_emails.py] ends without raising.  For
    each row it asks the DNS for the candidates of the row up to the first
    that has mail, in all at most eight times the number of rows, and
    writes the eight addresses of that domain, one for each prefix of
    [EMAIL_PREFIXES_AU]; a row without such a candidate writes nothing. *)
Theorem X9_rows_of_the_first_script {order : PySetOrder} (net : Net)
    (rows : list row) :
  outcome (GuessV1.main net rows) = Ok (flat_map (row_guesses_v1 net) rows)
  /\ dns_calls (trace (GuessV1.main net rows))
     = flat_map (fun r => looked_up net (row_candidates_v1 r)) rows
  /\ length (dns_calls (trace (GuessV1.main net rows))) <= 8 * length rows
  /\ (forall r, length (row_guesses_v1 net r) = 0
                \/ length (row_guesses_v1 net r) = 8)
  /\ forall g, In g (flat_map (row_guesses_v1 net) rows) ->
       verified net (GuessV1.guessed_domain g) = true
       /\ exists p, In p GuessV1.EMAIL_PREFIXES_AU
                    /\ GuessV1.email g
                       = p ++ "@" ++ GuessV1.guessed_domain g.
Proof.
  unfold GuessV1.main. rewrite (main_v1_run net rows []).
  cbn [trace outcome fst snd app].
  split; [reflexivity|]. rewrite dns_calls_map_EvDns.
  split; [reflexivity|]. split; [|split].
  - apply length_flat_map_le. intros r.
    etransitivity; [apply looked_up_length|].
    apply length_row_candidates_v1.
  - intros r. unfold row_guesses_v1.
    destruct (find _ _); [right | left]; reflexivity.
  - intros g Hg. apply in_flat_map in Hg as (r & _ & Hg).
    unfold row_guesses_v1 in Hg.
    destruct (find _ _) as [d|] eqn:F; [|destruct Hg].
    apply find_some in F as [_ V].
    unfold guesses_v1, GuessV1.generate_emails in Hg.
    rewrite map_map in Hg. apply in_map_iff in Hg as (p & <- & Hp).
    cbn [GuessV1.guessed_domain GuessV1.email].
    split; [exact V|]. now exists p.
Qed.

Lemma X9_acme_witness :
  verified acme_net "acme.com.au" = true
  /\ exists p, In p GuessV1.EMAIL_PREFIXES_AU
               /\ "sales@acme.com.au" = p ++ "@" ++ "acme.com.au".
Proof.
  destruct (@X9_rows_of_the_first_script insertion_order acme_net
              [row_of "Acme Pty Ltd"]) as (_ & _ & _ & _ & H).
  apply (H {| GuessV1.abn := "51824753556";
              GuessV1.legal_name := "Acme Pty Ltd";
              GuessV1.guessed_domain := "acme.com.au";
              GuessV1.email := "sales@acme.com.au";
              GuessV1.method := "guess_mx" |}).
  vm_compute. tauto.
Defined.

(** ** The choice and the fetches of [sysiphe_search_email.py] *)

Section SearchChoice.
Context {order : PySetOrder}.

Lemma pick_fold (expected_domain : option str) (source_url : str)
    (ems seen : list str) (best : option Search.FoundEmail) :
  match best with
  | None => seen = []
  | Some b =>
      (exists em, In em seen /\ b = candidate_of expected_domain source_url em)
      /\ forall em, In em seen ->
           (fst (Search.score_email em expected_domain)
            <= Search.fe_confidence b)%Z
  end ->
  match fold_left
          (fun best em =>
             let '(s, why) := Search.score_email em expected_domain in
             let better :=
               match best with
               | None => true
               | Some b => (Search.fe_confidence b <? s)%Z
               end in
             if better
             then Some {| Search.fe_email := Search.normalize_email em;
                          Search.fe_source_url := source_url;
                          Search.fe_confidence := s;
                          Search.fe_reason := why |}
             else best)
          ems best
  with
  | None => seen ++ ems = []
  | Some b =>
      (exists em, In em (seen ++ ems)
                  /\ b = candidate_of expected_domain source_url em)
      /\ forall em, In em (seen ++ ems) ->
           (fst (Search.score_email em expected_domain)
            <= Search.fe_confidence b)%Z
  end.
Proof.
  revert seen best.
  induction ems as [|e ems IH]; intros seen best Inv; cbn [fold_left].
  - rewrite app_nil_r. exact Inv.
  - replace (seen ++ e :: ems) with ((seen ++ [e]) ++ ems)
      by now rewrite <- app_assoc.
    apply IH. clear IH.
    destruct (Search.score_email e expected_domain) as [s why] eqn:Sc.
    assert (Fs : fst (Search.score_email e expected_domain) = s)
      by now rewrite Sc.
    destruct best as [b|].
    + destruct Inv as [(em & Hem & ->) Hmax].
      destruct (Z.ltb_spec
                  (Search.fe_confidence
                     (candidate_of expected_domain source_url em)) s).
      * split.
        -- exists e. split; [apply in_elt|].
           unfold candidate_of. now rewrite Sc.
        -- intros em' H'. cbn [Search.fe_confidence].
           apply in_app_or in H' as [H' | [<- | []]]; [|lia].
           specialize (Hmax em' H'). lia.
      * split.
        -- exists em. split; [apply in_or_app; now left | reflexivity].
        -- intros em' H'.
           apply in_app_or in H' as [H' | [<- | []]]; [auto | lia].
    + subst seen. split.
      * exists e. split; [now left|].
        unfold candidate_of. now rewrite Sc.
      * intros em' [<- | []]. cbn [Search.fe_confidence]. lia.
Qed.

End SearchChoice.

(** X10.  [pick_best_email] of [sysiphe_search_email.py] returns nothing
    for an empty set only.  For any other set it returns the candidate made
    of one of the addresses of the set, in normalized form and with its
    score and reason, and no address of the set has a higher score. *)
Theorem X10_pick_best_email_is_a_maximum {order : PySetOrder}
    (emails : pyset) (expected_domain : option str) (source_url : str) :
  match Search.pick_best_email emails expected_domain source_url with
  | None => emails = []
  | Some b =>
      (exists em, In em emails
                  /\ b = candidate_of expected_domain source_url em)
      /\ forall em, In em emails ->
           (fst (Search.score_email em expected_domain)
            <= Search.fe_confidence b)%Z
  end.
Proof.
  unfold Search.pick_best_email.
  pose proof (pick_fold expected_domain source_url (set_iter emails) [] None
                eq_refl) as H.
  cbn [app] in H.
  destruct (fold_left _ _ None) as [b|].
  - destruct H as [(em & Hem & ->) Hmax]. split.
    + exists em. split; [now apply In_set_iter | reflexivity].
    + intros em' H'. apply Hmax. now apply In_set_iter.
  - destruct emails as [|e emails]; [reflexivity|].
    assert (X : In e (set_iter (e :: emails)))
      by (apply In_set_iter; now left).
    rewrite H in X. destruct X.
Qed.
Lemma sleeps_app (t1 t2 : list event) : sleeps (t1 ++ t2) = sleeps t1 + sleeps t2.
Proof. unfold sleeps. now rewrite filter_app, length_app. Qed.

Section SearchFetches.
Context {order : PySetOrder} (net : Net) (args : Search.arguments).

Lemma page_step (expected_domain : option str)
    (st : Z * option Search.FoundEmail) (url : str) :
  ((Search.links args <= fst st)%Z
   /\ Search.page net args expected_domain st url = ([], Ok (Break st)))
  \/ ((fst st < Search.links args)%Z
      /\ exists b',
           Search.page net args expected_domain st url
           = ([EvHttp url], Ok (Next ((fst st + 1)%Z, b')))
           \/ Search.page net args expected_domain st url
              = ([EvHttp url], Ok (Break ((fst st + 1)%Z, b')))).
Proof.
  unfold Search.page. destruct st as [fetched best]. cbn [fst].
  destruct (Z.leb_spec (Search.links args) fetched); [left; now split|].
  right. split; [assumption|].
  destruct (fetch_page_run net url) as (v & ->). rewrite bind_ok.
  destruct v as [[|c html]|];
    try (eexists; left; reflexivity).
  destruct (nonempty_list _); cbn [negb];
    [|eexists; left; reflexivity].
  destruct (Search.pick_best_email _ _ _) as [cand|];
    destruct best as [b|];
    try destruct (Search.fe_confidence b <? Search.fe_confidence cand)%Z;
    try destruct (85 <=? Search.fe_confidence _)%Z;
    eexists; ((left; reflexivity) || (right; reflexivity)).
Qed.

Lemma pages_fetch (expected_domain : option str) (urls : list str) :
  forall st : Z * option Search.FoundEmail,
  exists t p k,
    for_each urls st (Search.page net args expected_domain) = (t, Ok p)
    /\ t = map EvHttp (firstn k urls)
    /\ (Z.of_nat k <= Z.max 0 (Search.links args - fst st))%Z.
Proof.
  induction urls as [|url urls IH]; intros st; cbn [for_each].
  - exists [], st, 0. repeat split. lia.
  - destruct (page_step expected_domain st url)
      as [[L ->] | [L (b' & [-> | ->])]]; rewrite bind_ok; cbv beta iota.
    + exists [], st, 0. repeat split. lia.
    + destruct (IH ((fst st + 1)%Z, b')) as (t & p & k & -> & -> & Hk).
      exists (EvHttp url :: map EvHttp (firstn k urls)), p, (S k).
      cbn [fst] in Hk. repeat split. lia.
    + exists [EvHttp url], ((fst st + 1)%Z, b'), 1.
      repeat split. lia.
Qed.

Lemma http_calls_map_EvHttp (l : list str) : http_calls (map EvHttp l) = l.
Proof. induction l; simpl; congruence. Qed.

Lemma sleeps_map_EvHttp (l : list str) : sleeps (map EvHttp l) = 0.
Proof. induction l; simpl; auto. Qed.

Lemma company_fetches (st : Search.totals) (r : row) :
  exists t st' k,
    Search.company net args st r = (t, Ok (Next st'))
    /\ http_calls t = firstn k (row_links net args r)
    /\ (Z.of_nat k <= Z.max 0 (Search.links args))%Z
    /\ sleeps t = if nonempty (Search.row_name r) then 1 else 0.
Proof.
  unfold Search.company, row_links. cbv zeta.
  destruct (nonempty (Search.row_name r)); cbn [negb].
  2:{ eexists; eexists; exists 0. split; [reflexivity|].
      repeat split. lia. }
  fold (row_query r). unfold Search.search_serpapi.
  destruct (serpapi_links net (row_query r)) as [e|organic].
  - eexists; eexists; exists 0. split; [reflexivity|].
    repeat split. lia.
  - cbn [emit lift bind ret try_except app].
    match goal with
    | |- context [for_each ?urls ?s0 (Search.page net args ?x)] =>
        destruct (pages_fetch x urls s0) as (t & p & k & E & -> & Hk)
    end.
    rewrite E. cbn [bind app fst] in *.
    destruct (snd p);
      eexists; eexists; exists k; (split; [reflexivity|]);
      cbn [http_calls flat_map app sleeps filter length];
      fold (http_calls (map EvHttp
              (firstn k (filter nonempty
                 (firstn (Z.to_nat (Z.max 5 (Search.links args)))
                         organic))) ++ [EvSleep]));
      fold (sleeps (map EvHttp
              (firstn k (filter nonempty
                 (firstn (Z.to_nat (Z.max 5 (Search.links args)))
                         organic))) ++ [EvSleep]));
      rewrite http_calls_app, sleeps_app, http_calls_map_EvHttp,
        sleeps_map_EvHttp;
      (split; [now rewrite app_nil_r|]); (split; [lia | reflexivity]).
Qed.

Lemma main_fetches (rows : list row) (st : Search.totals) :
  exists t st',
    for_each rows st (Search.company net args) = (t, Ok st')
    /\ (forall u, In u (http_calls t) ->
                  exists r, In r rows /\ In u (row_links net args r))
    /\ length (http_calls t)
       <= Z.to_nat (Search.links args) * length rows
    /\ sleeps t
       = length (filter (fun r => nonempty (Search.row_name r)) rows).
Proof.
  revert st. induction rows as [|r rows IH]; intros st; cbn [for_each].
  - exists [], st. repeat split; [intros u [] | simpl; lia].
  - destruct (company_fetches st r) as (t1 & st1 & k & -> & H1 & K1 & S1).
    destruct (IH st1) as (t2 & st2 & E2 & H2 & L2 & S2).
    rewrite bind_ok, E2. exists (t1 ++ t2), st2.
    cbn [trace outcome fst snd]. split; [reflexivity|].
    rewrite http_calls_app, sleeps_app, length_app, H1, S1, S2.
    split; [|split].
    + intros u Hu. apply in_app_or in Hu as [Hu | Hu].
      * exists r. split; [now left|].
        rewrite <- (firstn_skipn k). apply in_or_app. now left.
      * destruct (H2 u Hu) as (r' & Hr' & Hu').
        exists r'. split; [now right | exact Hu'].
    + pose proof (firstn_le_length k (row_links net args r)).
      cbn [length]. nia.
    + cbn [filter]. destruct (nonempty (Search.row_name r)); simpl; lia.
Qed.

End SearchFetches.

(** X11.  In a run of [sysiphe_search_email.py] every page fetched is a
    non-empty link among the first [max(5, links)] that the provider
    returned for the query of a row; in all at most [links] pages times
    the number of rows are fetched; and the run pauses once after each row
    that has a name, not after the others. *)
Theorem X11_fetches_of_a_search_run {order : PySetOrder} (net : Net)
    (args : Search.arguments) (rows : list row) :
  (forall u, In u (http_calls (trace (Search.main net args rows))) ->
             u <> ""
             /\ exists r organic,
                  In r rows
                  /\ serpapi_links net (row_query r) = inr organic
                  /\ In u (firstn (Z.to_nat (Z.max 5 (Search.links args)))
                                  organic))
  /\ length (http_calls (trace (Search.main net args rows)))
     <= Z.to_nat (Search.links args) * length rows
  /\ sleeps (trace (Search.main net args rows))
     = length (filter (fun r => nonempty (Search.row_name r)) rows).
Proof.
  unfold Search.main.
  destruct (main_fetches net args rows
              {| Search.results := []; Search.tested := 0;
                 Search.n_found := 0 |}) as (t & st & -> & H & L & S).
  cbn [trace fst]. split; [|split; assumption].
  intros u Hu. destruct (H u Hu) as (r & Hr & Hu').
  unfold row_links in Hu'.
  destruct (serpapi_links net (row_query r)) as [e|organic] eqn:E;
    [destruct Hu'|].
  apply filter_In in Hu' as [Hin Hne]. split.
  - intros ->. discriminate.
  - now exists r, organic.
Qed.

Lemma X11_acme_witness :
  "https://acme.com" <> ""
  /\ exists r organic,
       In r [row_of "Acme Pty Ltd"]
       /\ serpapi_links acme_net (row_query r) = inr organic
       /\ In "https://acme.com"
             (firstn (Z.to_nat (Z.max 5 (Search.links default_args)))
                     organic).
Proof.
  destruct (@X11_fetches_of_a_search_run insertion_order acme_net
              default_args [row_of "Acme Pty Ltd"]) as (H & _).
  apply H. vm_compute. tauto.
Defined.

(** ** The expected domain of [score_email] *)

Lemma lstrip_by_head (p : ascii -> bool) (s : str) :
  match lstrip_by p s with
  | [] => True
  | c :: _ => p c = false
  end.
Proof.
  induction s as [|c s IH]; simpl; [exact I|].
  destruct (p c) eqn:P; [exact IH | exact P].
Qed.

Lemma localpart_bonus_tag (lps : list str) (lp : str) :
  forall i bonus tag,
    Search.localpart_bonus i lps lp = Some (bonus, tag) ->
    In tag (map (fun x => "lp=" ++ x) lps).
Proof.
  induction lps as [|x lps IH]; intros i bonus tag H; simpl in H;
    [discriminate|].
  destruct (str_eqb lp x).
  - injection H as _ <-. now left.
  - right. now apply (IH (i + 1)%Z bonus).
Qed.

(** X12.  [score_email] strips from the expected domain every leading
    ["w"] and ["."] (it calls [lstrip("www.")]).  So an address whose
    domain begins with ["w"] or with ["."] never gets the tag
    [domain_match], whatever the expected domain, its own domain
    included. *)
Theorem X12_no_domain_match_for_w_domains (email : str)
    (expected_domain : option str) :
  startswith "w" (Search.domain_from_email (Search.normalize_email email))
  = true
  \/ startswith "." (Search.domain_from_email (Search.normalize_email email))
     = true ->
  ~ In "domain_match"
       (tags (snd (Search.score_email email expected_domain))).
Proof.
  intros Hw. unfold Search.score_email. cbv zeta.
  set (dom := Search.domain_from_email (Search.normalize_email email)) in *.
  set (lp := hd "" (split_once "@" (Search.normalize_email email))).
  assert (Neq : forall x, str_eqb dom (lstrip_by (one_of "www.") x) = false).
  { intros x. destruct (str_eqb dom _) eqn:E; [|reflexivity].
    apply str_eqb_eq in E. pose proof (lstrip_by_head (one_of "www.") x) as H.
    rewrite <- E in H.
    destruct dom as [|c dom']; [destruct Hw; discriminate|].
    destruct Hw as [W | W]; cbn [startswith] in W;
      apply andb_prop in W as [W _]; apply Ascii.eqb_eq in W; subst c;
      discriminate H. }
  assert (Tag : forall bonus tag,
            Search.localpart_bonus 0 Search.LOCALPART_PRIORITY lp
            = Some (bonus, tag) ->
            In tag (map (fun x => "lp=" ++ x) Search.LOCALPART_PRIORITY)).
  { intros bonus tag. apply localpart_bonus_tag. }
  clear Hw.
  destruct (mem dom Search.free);
    destruct expected_domain as [[|c d]|];
    rewrite ?Neq; try destruct (endswith _ dom);
    destruct (Search.localpart_bonus 0 Search.LOCALPART_PRIORITY lp)
      as [[bonus tag]|];
    try (specialize (Tag bonus tag eq_refl); simpl in Tag;
         repeat destruct Tag as [<- | Tag]; [..|destruct Tag]);
    intros H; apply mem_In in H; vm_compute in H; discriminate H.
Qed.

Lemma X12_westpac_witness :
  ~ In "domain_match"
       (tags (snd (Search.score_email "info@westpac.com.au"
                     (Some "westpac.com.au")))).
Proof.
  apply X12_no_domain_match_for_w_domains. left. vm_compute. reflexivity.
Defined.
(** ** Normal forms of addresses and of domains *)

Lemma lstrip_by_idem (p : ascii -> bool) (s : str) :
  lstrip_by p (lstrip_by p s) = lstrip_by p s.
Proof.
  induction s as [|c s IH]; simpl; [reflexivity|].
  destruct (p c) eqn:P; [exact IH|]. simpl. now rewrite P.
Qed.

Lemma lstrip_by_snoc (p : ascii -> bool) (l : str) (c : ascii) :
  p c = false -> exists y, lstrip_by p (l ++ [c]) = y ++ [c].
Proof.
  intros P. induction l as [|a l (y & IH)]; simpl.
  - rewrite P. now exists [].
  - destruct (p a); [now exists y|]. now exists (a :: l).
Qed.

Lemma rstrip_by_cons (p : ascii -> bool) (c : ascii) (s : str) :
  p c = false -> exists y, rstrip_by p (c :: s) = c :: y.
Proof.
  intros P. unfold rstrip_by. simpl.
  destruct (lstrip_by_snoc p (rev s) c P) as (y & ->).
  exists (rev y). now rewrite rev_app_distr.
Qed.

Lemma strip_idem (s : str) : strip (strip s) = strip s.
Proof.
  unfold strip.
  pose proof (lstrip_by_head is_space s) as H.
  destruct (lstrip_by is_space s) as [|c x] eqn:E; [reflexivity|].
  destruct (rstrip_by_cons is_space c x H) as (y & R).
  rewrite R. simpl. rewrite H. rewrite <- R.
  unfold rstrip_by. now rewrite rev_involutive, lstrip_by_idem.
Qed.

Lemma lstrip_by_lower (s : str) :
  lstrip_by is_space (lower s) = lower (lstrip_by is_space s).
Proof.
  assert (Sp : forall c, is_space (lower_c c) = is_space c).
  { intros c. destruct c as [[] [] [] [] [] [] [] []]; reflexivity. }
  unfold lower. induction s as [|c s IH]; simpl; [reflexivity|].
  rewrite Sp. destruct (is_space c); [exact IH | reflexivity].
Qed.

Lemma strip_lower (s : str) : strip (lower s) = lower (strip s).
Proof.
  unfold strip, rstrip_by. rewrite lstrip_by_lower.
  unfold lower at 1. rewrite <- map_rev. fold (lower (rev (lstrip_by is_space s))).
  rewrite lstrip_by_lower. unfold lower. now rewrite map_rev.
Qed.

Lemma normalize_email_idem (email : str) :
  Search.normalize_email (Search.normalize_email email)
  = Search.normalize_email email.
Proof.
  unfold Search.normalize_email.
  now rewrite strip_lower, strip_idem, lower_idem.
Qed.

(** X13.  [normalize_email] changes nothing in an address it has
    normalized, and [score_email] gives an address and its normalized form
    the same score and the same reason: the case of the letters and the
    white space around the address do not count. *)
Theorem X13_score_of_the_normal_form (email : str)
    (expected_domain : option str) :
  Search.normalize_email (Search.normalize_email email)
  = Search.normalize_email email
  /\ Search.score_email (Search.normalize_email email) expected_domain
     = Search.score_email email expected_domain.
Proof.
  split; [apply normalize_email_idem|].
  unfold Search.score_email. now rewrite normalize_email_idem.
Qed.

Lemma skipn_all_of (P : ascii -> bool) (n : nat) (s : str) :
  all_of P s -> all_of P (skipn n s).
Proof.
  intros A. rewrite <- (firstn_skipn n s) in A.
  unfold all_of in A. apply Forall_app in A. tauto.
Qed.

Lemma replace_from_all_of (P : ascii -> bool) (fuel : nat) (old s : str) :
  all_of P s -> all_of P (replace_from fuel old "" s).
Proof.
  revert s. induction fuel as [|fuel IH]; intros s A; simpl; [exact A|].
  destruct s as [|c s]; [constructor|].
  destruct (startswith old (c :: s)).
  - cbn [app]. apply IH. now apply skipn_all_of.
  - inversion A; subst. constructor; [assumption | now apply IH].
Qed.

Lemma before_first_all_of (P : ascii -> bool) (sep : ascii) (s : str) :
  all_of P s -> all_of P (before_first sep s).
Proof.
  induction 1 as [|c s Pc A IH]; simpl; [constructor|].
  destruct (Ascii.eqb c sep); [constructor | now constructor].
Qed.

Lemma before_first_no_sep (sep : ascii) (s : str) :
  ~ In sep (before_first sep s).
Proof.
  induction s as [|c s IH]; simpl; [tauto|].
  destruct (Ascii.eqb_spec c sep); simpl; [tauto|].
  intros [E | H]; [congruence | contradiction].
Qed.

(** X14.  The domain that [norm_domain] of
    [sysiphe_guess_verify_email.py] returns holds no ["/"] and no capital
    letter, whatever it is given; a missing value gives the empty
    domain. *)
Theorem X14_norm_domain_form (d : option str) :
  ~ In "/"%char (GuessVerify.norm_domain d)
  /\ lower (GuessVerify.norm_domain d) = GuessVerify.norm_domain d
  /\ GuessVerify.norm_domain None = "".
Proof.
  unfold GuessVerify.norm_domain. cbv zeta.
  set (x := replace "http://" "" (replace "https://" "" _)).
  assert (L : all_of (fun c => Ascii.eqb (lower_c c) c) (before_first "/" x)).
  { apply before_first_all_of. unfold x, replace.
    do 2 apply replace_from_all_of.
    unfold lower, all_of. apply Forall_map, Forall_forall.
    intros c _. rewrite lower_c_idem. apply Ascii.eqb_refl. }
  assert (F : forall s, all_of (fun c => Ascii.eqb (lower_c c) c) s ->
                        lower s = s).
  { unfold lower. induction 1 as [|c s Pc A IH]; simpl; [reflexivity|].
    apply Ascii.eqb_eq in Pc. congruence. }
  split; [|split; [|reflexivity]].
  - destruct (startswith "www." _).
    + intros H. apply (before_first_no_sep "/" x).
      rewrite <- (firstn_skipn 4). apply in_or_app. now right.
    + apply before_first_no_sep.
  - destruct (startswith "www." _); apply F; [apply skipn_all_of|]; exact L.
Qed.

(** ** The choice of the site harvesters *)

Lemma for_return_some {A R : Type} (l : list A) (body : A -> option R)
    (v : R) :
  for_return l body = Some v ->
  exists pre a post,
    l = pre ++ a :: post /\ body a = Some v
    /\ forall x, In x pre -> body x = None.
Proof.
  induction l as [|a l IH]; simpl; [discriminate|].
  destruct (body a) as [w|] eqn:E.
  - intros H. injection H as ->. exists [], a, l.
    repeat split; [exact E | intros x []].
  - intros H. destruct (IH H) as (pre & b & post & -> & Hb & Hpre).
    exists (a :: pre), b, post. repeat split; [exact Hb|].
    intros x [<- | Hx]; [exact E | now apply Hpre].
Qed.

Lemma for_return_none {A R : Type} (l : list A) (body : A -> option R) :
  for_return l body = None -> forall x, In x l -> body x = None.
Proof.
  induction l as [|a l IH]; simpl; [intros _ x []|].
  destruct (body a) eqn:E; [discriminate|].
  intros H x [<- | Hx]; [exact E | now apply IH].
Qed.

Lemma first_with_prefix (p : str) (emails : list str) :
  match for_return emails (fun e => if startswith p e then Some e else None)
  with
  | Some e => exists l1 l2, emails = l1 ++ e :: l2
                            /\ startswith p e = true
                            /\ forall e', In e' l1 -> startswith p e' = false
  | None => forall e', In e' emails -> startswith p e' = false
  end.
Proof.
  destruct (for_return emails _) as [e|] eqn:E.
  - apply for_return_some in E as (l1 & a & l2 & -> & Ha & Hpre).
    destruct (startswith p a) eqn:P; [|discriminate].
    injection Ha as ->. exists l1, l2. repeat split; [exact P|].
    intros e' H. specialize (Hpre e' H).
    now destruct (startswith p e').
  - intros e' H. pose proof (for_return_none _ _ E e' H) as N.
    cbv beta in N. now destruct (startswith p e').
Qed.

Lemma preferred_choice (prefixes emails : list str) (e0 : str)
    (rest : list str) :
  emails = e0 :: rest ->
  best_by_prefix prefixes emails
    (match for_return prefixes (fun p =>
             for_return emails (fun e =>
               if startswith p e then Some e else None))
     with
     | Some e => e
     | None => e0
     end).
Proof.
  intros Hem.
  destruct (for_return prefixes _) as [e|] eqn:E.
  - left. apply for_return_some in E as (pre & p & post & -> & Hp & Hpre).
    pose proof (first_with_prefix p emails) as F. rewrite Hp in F.
    destruct F as (l1 & l2 & El & P & Hl1).
    exists pre, p, post, l1, l2. repeat split; try assumption.
    intros q e' Hq He'. specialize (Hpre q Hq).
    pose proof (first_with_prefix q emails) as Fq. rewrite Hpre in Fq.
    now apply Fq.
  - right. split; [|now exists rest].
    intros q e' Hq He'. pose proof (for_return_none _ _ E q Hq) as N.
    pose proof (first_with_prefix q emails) as Fq. cbv beta in N.
    rewrite N in Fq. now apply Fq.
Qed.

Lemma best_by_prefix_In (prefixes emails : list str) (e : str) :
  best_by_prefix prefixes emails e -> In e emails.
Proof.
  intros [(pre & p & post & l1 & l2 & _ & -> & _) | [_ (l & ->)]].
  - apply in_elt.
  - now left.
Qed.

(** X15.  For an empty list, [pick_best_email] returns [None] in
    [sysiphe_guess_verify_email.py] and the empty string in
    [sysiphe_scrape_emails_from_sites.py].  For any other list both return
    an address of the list: the first that starts with the earliest
    preferred prefix that some address starts with, or the first address
    of the list when none starts with a preferred prefix.  So the former
    returns [None] for the empty list only, and the latter returns the
    empty string only for the empty list or for a list that holds the
    empty string. *)
Theorem X15_pick_best_email_by_prefix (emails : list str) :
  match emails with
  | [] => GuessVerify.pick_best_email emails = None
          /\ Scrape.pick_best_email emails = ""
  | _ :: _ =>
      (exists e, GuessVerify.pick_best_email emails = Some e
                 /\ best_by_prefix GuessVerify.preferred emails e)
      /\ best_by_prefix Scrape.preferred_prefixes emails
           (Scrape.pick_best_email emails)
      /\ In (Scrape.pick_best_email emails) emails
  end
  /\ (GuessVerify.pick_best_email emails = None <-> emails = [])
  /\ (Scrape.pick_best_email emails = "" -> emails = [] \/ In "" emails).
Proof.
  destruct emails as [|e0 rest].
  { repeat split; auto. }
  pose proof (preferred_choice GuessVerify.preferred (e0 :: rest) e0 rest
                eq_refl) as HG.
  pose proof (preferred_choice Scrape.preferred_prefixes (e0 :: rest)
                e0 rest eq_refl) as HS.
  assert (G : exists e, GuessVerify.pick_best_email (e0 :: rest) = Some e
                        /\ best_by_prefix GuessVerify.preferred
                             (e0 :: rest) e).
  { unfold GuessVerify.pick_best_email, GuessVerify.preferred_email.
    destruct (for_return GuessVerify.preferred _) as [e|];
      eexists; split; [reflexivity | exact HG | reflexivity | exact HG]. }
  assert (S : best_by_prefix Scrape.preferred_prefixes (e0 :: rest)
                (Scrape.pick_best_email (e0 :: rest))).
  { unfold Scrape.pick_best_email, Scrape.preferred_email.
    destruct (for_return Scrape.preferred_prefixes _); exact HS. }
  pose proof (best_by_prefix_In _ _ _ S) as SIn.
  split; [split; [exact G | split; [exact S | exact SIn]]|].
  split.
  - destruct G as (e & -> & _). split; discriminate.
  - intros E. right. rewrite E in SIn. exact SIn.
Qed.

(** ** Reading the pages of a site, in [sysiphe_guess_verify_email.py] *)

Section VerifyOnSite.
Context {order : PySetOrder} (net : Net).

Lemma fetch_run (url : str) :
  GuessVerify.fetch net url = ([EvHttp url], Ok (page_text net url)).
Proof.
  unfold GuessVerify.fetch, page_text.
  destruct (requests_get net url) as [e|r]; [reflexivity|]. simpl.
  now destruct (status_code r =? 200)%Z.
Qed.

Lemma found_on_clean (url e : str) :
  found_on net url = Some e ->
  e <> ""
  /\ exists html, page_text net url = Some html
                  /\ In e (GuessVerify.extract_emails html)
                  /\ marker_free GuessVerify.BAD_EMAIL_HINTS e
                  /\ lower e = e.
Proof.
  unfold found_on.
  destruct (page_text net url) as [[|c html]|]; try discriminate.
  pose proof (X := I).
  destruct (GuessVerify.extract_emails (c :: html)) as [|e0 rest] eqn:E;
    [discriminate|].
  pose proof (preferred_choice GuessVerify.preferred (e0 :: rest) e0 rest
                eq_refl) as B.
  unfold GuessVerify.pick_best_email, GuessVerify.preferred_email.
  destruct (for_return GuessVerify.preferred _) as [x|];
    apply best_by_prefix_In in B; rewrite <- E in B;
    [destruct x as [|a x] | destruct e0 as [|a x]]; try discriminate;
    intros H; injection H as <-;
    (split; [discriminate|]); exists (c :: html);
    (split; [reflexivity|]); (split; [exact B|]);
    unfold GuessVerify.extract_emails in B;
    (split; [now apply harvest_In in B | now apply harvest_lower in B]).
Qed.

(** The loop of [verify_email_on_site], over any list of paths *)
Lemma verify_loop (base : str) (paths : list str) :
  let url_of path :=
    if nonempty path then rstrip_by (Ascii.eqb "/") base ++ path else base in
  exists k res,
    for_each paths None (fun _ path =>
      let url := url_of path in
      html <- GuessVerify.fetch net url ;;
      match html with
      | None | Some [] => ret (Next None)
      | Some html =>
          let emails := GuessVerify.extract_emails html in
          match GuessVerify.pick_best_email emails with
          | Some (c :: e) => ret (Break (Some (c :: e, url)))
          | _ => ret (Next None)
          end
      end)
    = (map EvHttp (firstn k (map url_of paths)), Ok res)
    /\ match res with
       | Some (e, url) =>
           0 < k /\ nth_error (map url_of paths) (pred k) = Some url
           /\ found_on net url = Some e
           /\ forall u, In u (firstn (pred k) (map url_of paths)) ->
                        found_on net u = None
       | None =>
           k = length paths
           /\ forall url, In url (map url_of paths) ->
                          found_on net url = None
       end.
Proof.
  intros url_of.
  match goal with
  | |- exists k res, for_each paths None ?b = _ /\ _ => set (body := b)
  end.
  assert (Step : forall path,
            body None path
            = ([EvHttp (url_of path)],
               Ok (match found_on net (url_of path) with
                   | Some e => Break (Some (e, url_of path))
                   | None => Next None
                   end))).
  { intros path. unfold body. cbv zeta. fold (url_of path).
    rewrite fetch_run, bind_ok. unfold found_on.
    destruct (page_text net (url_of path)) as [[|c html]|];
      try reflexivity.
    destruct (GuessVerify.pick_best_email _) as [[|a e]|]; reflexivity. }
  clearbody body.
  induction paths as [|path paths (k & res & IH & Hres)]; cbn [for_each map].
  - exists 0, None. repeat split. intros url [].
  - rewrite Step, bind_ok.
    destruct (found_on net (url_of path)) as [e|] eqn:F; cbv beta iota.
    + exists 1, (Some (e, url_of path)).
      split; [reflexivity|]. repeat split; [lia | exact F | intros u []].
    + match goal with
      | |- context [trace ?x] =>
          replace x with (map EvHttp (firstn k (map url_of paths)), Ok res)
            by (symmetry; exact IH)
      end.
      exists (S k), res. split; [reflexivity|].
      destruct res as [[e url]|].
      * destruct Hres as (K & N & Fo & Hn).
        destruct k as [|k]; [lia|]. cbn [pred] in *.
        repeat split; [lia | exact N | exact Fo |].
        intros u [<- | H]; [exact F | now apply Hn].
      * destruct Hres as (-> & Hn). split; [reflexivity|].
        intros url [<- | H]; [exact F | now apply Hn].
Qed.

End VerifyOnSite.
(** X16.  [verify_email_on_site] reads the root of the site and then the
    six contact pages, over HTTPS and in that order, and stops at the first
    page on which it finds an address.  It makes at most seven requests.
    The address it returns was extracted from the text of the page it
    returns, which answered with the status 200; it is in lower case and
    holds no placeholder marker.  When it returns nothing, the seven pages
    were read and none gave an address. *)
Theorem X16_verify_email_on_site {order : PySetOrder} (net : Net)
    (domain : str) :
  exists k res,
    GuessVerify.verify_email_on_site net domain
    = (map EvHttp (firstn k (site_urls domain)), Ok res)
    /\ k <= 7
    /\ match res with
       | Some (e, url) =>
           0 < k
           /\ nth_error (site_urls domain) (pred k) = Some url
           /\ (forall u, In u (firstn (pred k) (site_urls domain)) ->
                         found_on net u = None)
           /\ e <> ""
           /\ exists html,
                page_text net url = Some html
                /\ In e (GuessVerify.extract_emails html)
                /\ marker_free GuessVerify.BAD_EMAIL_HINTS e
                /\ lower e = e
       | None =>
           k = 7
           /\ forall url, In url (site_urls domain) ->
                          found_on net url = None
       end.
Proof.
  destruct (verify_loop net ("https://" ++ domain)
              ("" :: GuessVerify.CONTACT_PATHS)) as (k & res & E & H).
  exists k, res. split; [exact E|].
  destruct res as [[e url]|].
  - destruct H as (K & N & F & Hn).
    assert (L : pred k < length (site_urls domain)).
    { change (nth_error (site_urls domain) (pred k) = Some url) in N.
      apply nth_error_Some. intros No. rewrite No in N. discriminate N. }
    change (length (site_urls domain)) with 7 in L.
    split; [lia|]. split; [exact K|]. split; [exact N|].
    split; [exact Hn|]. now apply found_on_clean in F.
  - destruct H as (-> & Hn). split; [simpl; lia|]. split; [reflexivity|].
    exact Hn.
Qed.

(** ** Loops whose iterations all run *)

Lemma for_each_traced {A S : Type} (Inv : list A -> S -> Prop)
    (body : S -> A -> M (flow S)) (tr : A -> list event) (l : list A) :
  (forall pre s a, Inv pre s ->
                   exists s', body s a = (tr a, Ok (Next s'))
                              /\ Inv (pre ++ [a]) s') ->
  forall pre s, Inv pre s ->
    exists s', for_each l s body = (flat_map tr l, Ok s')
               /\ Inv (pre ++ l) s'.
Proof.
  intros Hbody.
  induction l as [|a l IH]; intros pre s Hs; cbn [for_each flat_map].
  - exists s. rewrite app_nil_r. split; [reflexivity | exact Hs].
  - destruct (Hbody pre s a Hs) as (s1 & -> & H1).
    destruct (IH (pre ++ [a]) s1 H1) as (s2 & E2 & H2).
    rewrite bind_ok. cbv beta iota. rewrite E2.
    exists s2. split; [reflexivity|].
    now rewrite <- app_assoc in H2.
Qed.

Lemma sleeps_flat_map {A : Type} (tr : A -> list event) (p : A -> bool)
    (l : list A) :
  (forall a, sleeps (tr a) = if p a then 1 else 0) ->
  sleeps (flat_map tr l) = length (filter p l).
Proof.
  intros H. induction l as [|a l IH]; [reflexivity|].
  cbn [flat_map filter]. rewrite sleeps_app, H, IH.
  now destruct (p a).
Qed.

(** ** The rows of [sysiphe_guess_verify_email.py] *)

Section VerifyRun.
Context {order : PySetOrder} (net : Net).

Lemma verify_site_run (dom : str) :
  exists k res,
    GuessVerify.verify_email_on_site net dom
    = (map EvHttp (firstn k (site_urls dom)), Ok res)
    /\ match res with
       | Some (e, url) => In url (site_urls dom) /\ found_on net url = Some e
       | None => True
       end.
Proof.
  destruct (verify_loop net ("https://" ++ dom)
              ("" :: GuessVerify.CONTACT_PATHS)) as (k & res & E & H).
  exists k, res. split; [exact E|].
  destruct res as [[e url]|]; [|exact I].
  destruct H as (_ & N & F & _). split; [|exact F].
  now apply nth_error_In in N.
Qed.

(** What [main] does for a row: nothing without a domain, and else the
    requests of [verify_email_on_site] and a pause *)
Let tr (r : row) : list event :=
  if has_domain r
  then trace (GuessVerify.verify_email_on_site net (row_domain r)) ++ [EvSleep]
  else [].

(** What holds of a row that [main] writes, for the rows [pre] read *)
Let written_ok (pre : list row) (w : GuessVerify.verified_row) : Prop :=
  (exists r, In r pre
             /\ GuessVerify.abn w = strip (or_empty (row_get "abn" r))
             /\ GuessVerify.legal_name w
                = strip (or_empty (row_get "legal_name" r))
             /\ GuessVerify.domain w = row_domain r)
  /\ GuessVerify.domain w <> ""
  /\ GuessVerify.method w = "verify_on_site"
  /\ In (GuessVerify.found_url w) (site_urls (GuessVerify.domain w))
  /\ found_on net (GuessVerify.found_url w) = Some (GuessVerify.email w).

Let Inv (pre : list row) (st : GuessVerify.verify_state) : Prop :=
  snd st = length (fst st)
  /\ length (fst st) <= length (filter has_domain pre)
  /\ Forall (written_ok pre) (fst st).

Lemma written_ok_more (pre : list row) (r : row)
    (w : GuessVerify.verified_row) :
  written_ok pre w -> written_ok (pre ++ [r]) w.
Proof.
  intros ((r0 & Hr & H) & H'). split; [|exact H'].
  exists r0. split; [|exact H]. apply in_or_app. now left.
Qed.

Lemma company_verify (pre : list row) (st : GuessVerify.verify_state)
    (r : row) :
  Inv pre st ->
  exists st', GuessVerify.company net st r = (tr r, Ok (Next st'))
              /\ Inv (pre ++ [r]) st'.
Proof.
  intros (Hn & Hl & Hw).
  assert (Hw' : Forall (written_ok (pre ++ [r])) (fst st)).
  { eapply Forall_impl; [|exact Hw]. intros w. apply written_ok_more. }
  unfold GuessVerify.company, tr, has_domain. fold (row_domain r).
  destruct (nonempty (row_domain r)) eqn:D; cbn [negb].
  - destruct (verify_site_run (row_domain r)) as (k & res & E & H).
    rewrite E, bind_ok. cbn [trace fst].
    destruct res as [[e url]|]; cbv beta iota zeta.
    + eexists. split; [reflexivity|].
      unfold Inv. cbn [fst snd]. rewrite filter_app, !length_app.
      cbn [filter]. unfold has_domain at 2. rewrite D. cbn [length].
      split; [lia|]. split; [lia|].
      apply Forall_app. split; [exact Hw'|].
      constructor; [|constructor].
      destruct H as (Hu & F).
      unfold written_ok. cbn [GuessVerify.abn GuessVerify.legal_name
        GuessVerify.domain GuessVerify.method GuessVerify.found_url
        GuessVerify.email].
      split.
      { exists r. repeat split. apply in_or_app. right. now left. }
      split; [|repeat split; assumption].
      intros Z. rewrite Z in D. discriminate D.
    + eexists. split; [reflexivity|].
      unfold Inv. rewrite filter_app, length_app.
      split; [exact Hn|]. split; [lia | exact Hw'].
  - exists st. split; [reflexivity|].
    unfold Inv. rewrite filter_app, length_app.
    split; [exact Hn|]. split; [lia | exact Hw'].
Qed.

Lemma tr_sleeps (r : row) : sleeps (tr r) = if has_domain r then 1 else 0.
Proof.
  unfold tr. destruct (has_domain r); [|reflexivity].
  destruct (verify_site_run (row_domain r)) as (k & res & -> & _).
  cbn [trace fst]. now rewrite sleeps_app, sleeps_map_EvHttp.
Qed.

Lemma tr_requests (rows : list row) :
  length (http_calls (flat_map tr rows)) <= 7 * length (filter has_domain rows)
  /\ forall u, In u (http_calls (flat_map tr rows)) ->
       exists r, In r rows /\ has_domain r = true
                 /\ In u (site_urls (row_domain r)).
Proof.
  induction rows as [|r rows [IHl IHu]]; cbn [flat_map filter].
  - split; [simpl; lia | intros u []].
  - rewrite http_calls_app, length_app. unfold tr at 1 3.
    destruct (has_domain r) eqn:D.
    + destruct (verify_site_run (row_domain r)) as (k & res & -> & _).
      cbn [trace fst]. rewrite http_calls_app, http_calls_map_EvHttp.
      cbn [http_calls flat_map]. rewrite app_nil_r.
      split.
      * rewrite length_firstn.
        change (length (site_urls (row_domain r))) with 7.
        cbn [length]. unfold str in *. lia.
      * intros u H. apply in_app_or in H as [H | H].
        -- exists r. repeat split; [now left | exact D |].
           rewrite <- (firstn_skipn k (site_urls (row_domain r))).
           apply in_or_app. now left.
        -- destruct (IHu u H) as (r0 & Hr & H0). exists r0.
           split; [now right | exact H0].
    + cbn [http_calls flat_map app length]. split; [lia|].
      intros u H. destruct (IHu u H) as (r0 & Hr & H0). exists r0.
      split; [now right | exact H0].
Qed.

Lemma main_verify (rows : list row) :
  exists st, GuessVerify.main net rows = (flat_map tr rows, Ok st)
             /\ Inv rows st.
Proof.
  unfold GuessVerify.main.
  apply (for_each_traced Inv (GuessVerify.company net) tr rows
           company_verify [] ([], 0)).
  unfold Inv. cbn [fst snd length]. repeat split; [lia | constructor].
Qed.

End VerifyRun.

(** X17.  [main] of [sysiphe_guess_verify_email.py] ends without an
    exception, and [found] is the number of rows it writes.  A row of the
    input without a guessed domain costs no request and no pause; each
    other row costs one pause, the requests are all for pages of the
    domain of such a row, at most seven times their number, and the rows
    written are at most as many as they.  Every row written has
    the method [verify_on_site], the ABN, the name and the normalised
    domain of a row of the input, and an address that was extracted from
    the page [found_url], a page of that domain that answered with the
    status 200; the address is in lower case and holds no placeholder
    marker. *)
Theorem X17_rows_of_a_verify_run {order : PySetOrder} (net : Net)
    (rows : list row) :
  let run := GuessVerify.main net rows in
  exists written,
    outcome run = Ok (written, length written)
    /\ sleeps (trace run) = length (filter has_domain rows)
    /\ length (http_calls (trace run)) <= 7 * length (filter has_domain rows)
    /\ (forall u, In u (http_calls (trace run)) ->
          exists r, In r rows /\ has_domain r = true
                    /\ In u (site_urls (row_domain r)))
    /\ length written <= length (filter has_domain rows)
    /\ forall w, In w written ->
         (exists r, In r rows
                    /\ GuessVerify.abn w = strip (or_empty (row_get "abn" r))
                    /\ GuessVerify.legal_name w
                       = strip (or_empty (row_get "legal_name" r))
                    /\ GuessVerify.domain w = row_domain r)
         /\ GuessVerify.domain w <> ""
         /\ GuessVerify.method w = "verify_on_site"
         /\ In (GuessVerify.found_url w) (site_urls (GuessVerify.domain w))
         /\ GuessVerify.email w <> ""
         /\ exists html,
              page_text net (GuessVerify.found_url w) = Some html
              /\ In (GuessVerify.email w) (GuessVerify.extract_emails html)
              /\ marker_free GuessVerify.BAD_EMAIL_HINTS (GuessVerify.email w)
              /\ lower (GuessVerify.email w) = GuessVerify.email w.
Proof.
  intros run. unfold run.
  destruct (main_verify net rows) as ([written found] & -> & Hn & Hl & Hw).
  cbn [fst snd] in Hn, Hl, Hw. subst found.
  exists written. cbn [outcome trace fst snd].
  split; [reflexivity|].
  split; [apply sleeps_flat_map; intros r; apply tr_sleeps|].
  destruct (tr_requests net rows) as [Tl Tu].
  split; [exact Tl|]. split; [exact Tu|]. split; [exact Hl|].
  intros w Hin. rewrite Forall_forall in Hw.
  destruct (Hw w Hin) as (Hr & Hd & Hm & Hu & F).
  split; [exact Hr|]. split; [exact Hd|]. split; [exact Hm|].
  split; [exact Hu|]. now apply found_on_clean in F.
Qed.

(** ** The inserts of [sysiphe_scrape_emails_from_sites.py] *)

(** A loop whose iterations all run as long as the elements are in [P],
    and which an element that raises stops *)
Lemma for_each_traced_on {A S : Type} (P : A -> Prop)
    (Inv : list A -> S -> Prop)
    (body : S -> A -> M (flow S)) (tr : A -> list event) :
  (forall pre s a, P a -> Inv pre s ->
                   exists s', body s a = (tr a, Ok (Next s'))
                              /\ Inv (pre ++ [a]) s') ->
  forall l, Forall P l ->
  forall pre s, Inv pre s ->
    (exists s', for_each l s body = (flat_map tr l, Ok s')
                /\ Inv (pre ++ l) s')
    /\ forall b post e,
         (forall s', body s' b = ([], Raise e)) ->
         for_each (l ++ b :: post) s body = (flat_map tr l, Raise e).
Proof.
  intros Hbody l Hl.
  induction Hl as [|a l Pa Hl IH]; intros pre s Hs.
  - split.
    + exists s. rewrite app_nil_r. split; [reflexivity | exact Hs].
    + intros b post e Hb. cbn [app for_each flat_map]. now rewrite Hb.
  - destruct (Hbody pre s a Pa Hs) as (s1 & E1 & H1).
    destruct (IH (pre ++ [a]) s1 H1) as [(s2 & E2 & H2) Hstop].
    split.
    + cbn [for_each flat_map]. rewrite E1, bind_ok. cbv beta iota.
      rewrite E2. exists s2. split; [reflexivity|].
      now rewrite <- app_assoc in H2.
    + intros b post e Hb. cbn [app for_each flat_map].
      rewrite E1, bind_ok. cbv beta iota.
      now rewrite (Hstop b post e Hb).
Qed.

Lemma filter_split_length {A : Type} (p : A -> bool) (l : list A) :
  length (filter p l) + length (filter (fun a => negb (p a)) l) = length l.
Proof.
  induction l as [|a l IH]; [reflexivity|].
  cbn [filter]. destruct (p a); cbn [negb length]; lia.
Qed.

Section ScrapeRun.
Context {order : PySetOrder} (net : Net) (db : Scrape.Db).

Lemma read_page_run (emails_found : pyset) (u : str) :
  Scrape.read_page net emails_found u
  = ([EvHttp u], Ok (Next (emails_found ++ page_emails net u))).
Proof.
  unfold Scrape.read_page, Scrape.fetch_url, page_emails, scrape_text.
  destruct (requests_get net u) as [e|r].
  - cbn. now rewrite app_nil_r.
  - cbn [lift]. rewrite !bind_ok. cbn [emit trace fst app].
    destruct ((400 <=? status_code r)%Z && (status_code r <? 600)%Z).
    + cbn. now rewrite app_nil_r.
    + reflexivity.
Qed.

Lemma pages_read (us : list str) (emails_found : pyset) :
  for_each us emails_found (Scrape.read_page net)
  = (map EvHttp us, Ok (emails_found ++ flat_map (page_emails net) us)).
Proof.
  revert emails_found.
  induction us as [|u us IH]; intros emails_found; cbn [for_each map flat_map].
  - now rewrite app_nil_r.
  - rewrite read_page_run, bind_ok. cbv beta iota. rewrite IH.
    cbn [trace fst outcome snd app]. now rewrite <- app_assoc.
Qed.

Lemma page_emails_clean (u e : str) :
  In e (page_emails net u) ->
  e <> ""
  /\ exists html, scrape_text net u = Some html
                  /\ In e (Scrape.extract_emails html)
                  /\ marker_free Scrape.BAD_EMAIL_HINTS e
                  /\ lower e = e.
Proof.
  unfold page_emails. destruct (scrape_text net u) as [html|]; [|intros []].
  intros H. split.
  - pose proof H as H'. unfold Scrape.extract_emails in H'.
    apply harvest_In in H' as [(m & Hm & ->) _].
    apply finditer_sound in Hm as [Sh _]. apply scrape_shape in Sh.
    destruct Sh as (l & h & t & -> & NL & _).
    destruct l as [|c l]; [contradiction|]. discriminate.
  - exists html. split; [reflexivity|]. split; [exact H|].
    unfold Scrape.extract_emails in H.
    split; [now apply harvest_In in H | now apply harvest_lower in H].
Qed.

(** The choice of [main] among the addresses of a site *)
Let best (site_url : str) : str :=
  Scrape.pick_best_email (sorted (set_iter (site_emails net site_url))).

Lemma best_of_site (site_url : str) :
  if nonempty (best site_url)
  then (forall tid, site_has_email net (tid, Some site_url) = true)
       /\ In (best site_url) (site_emails net site_url)
  else forall tid, site_has_email net (tid, Some site_url) = false.
Proof.
  unfold best, site_has_email. cbn [snd].
  destruct (sorted (set_iter (site_emails net site_url))) as [|e0 rest] eqn:E.
  - cbn [Scrape.pick_best_email nonempty]. intros _.
    destruct (site_emails net site_url) as [|e l]; [reflexivity|].
    assert (H : In e (sorted (set_iter (e :: l)))).
    { apply (Permutation_in _ (Permutation_sym (sorted_perm _))).
      apply In_set_iter. now left. }
    rewrite E in H. destruct H.
  - pose proof (preferred_choice Scrape.preferred_prefixes (e0 :: rest)
                  e0 rest eq_refl) as B.
    apply best_by_prefix_In in B.
    unfold Scrape.pick_best_email, Scrape.preferred_email.
    set (b := match for_return Scrape.preferred_prefixes _ with
              | Some e => e
              | None => e0
              end) in *.
    rewrite <- E in B. apply (Permutation_in _ (sorted_perm _)) in B.
    apply (proj1 (In_set_iter _ _)) in B.
    assert (N : nonempty b = true).
    { unfold site_emails in B. apply in_flat_map in B as (u & _ & B).
      apply page_emails_clean in B as [B _].
      destruct b; [contradiction | reflexivity]. }
    rewrite N. split; [|exact B]. intros _.
    destruct (site_emails net site_url); [destruct B | reflexivity].
Qed.

Let key (c : Scrape.contact) : option str * option str :=
  (Scrape.target_id c, Some (Scrape.found_url c)).

Let inserted_ok (c : Scrape.contact) : Prop :=
  Scrape.found_method c = "site_scrape"
  /\ In (Scrape.email c) (site_emails net (Scrape.found_url c)).

Let Inv (pre : list (option str * option str)) (st : Scrape.totals)
  : Prop :=
  map key (Scrape.inserted st) = filter (site_has_email net) pre
  /\ Scrape.ok_email st = length (filter (site_has_email net) pre)
  /\ Scrape.fail st
     = length (filter (fun r => negb (site_has_email net r)) pre)
  /\ Forall inserted_ok (Scrape.inserted st).

Lemma site_run (pre : list (option str * option str))
    (st : Scrape.totals) (r : option str * option str) :
  accepts db ->
  has_url r = true ->
  Inv pre st ->
  exists st', Scrape.site net db st r = (site_events r, Ok (Next st'))
              /\ Inv (pre ++ [r]) st'.
Proof.
  intros (_ & Hex & _) Hr (Hk & Ho & Hf & Hi).
  destruct r as [tid [url|]]; [|discriminate Hr].
  unfold Scrape.site, site_events. cbn [snd].
  rewrite pages_read, bind_ok. cbn [app trace fst].
  fold (site_emails net url). fold (best url).
  pose proof (best_of_site url) as B.
  destruct (nonempty (best url)) eqn:N.
  - destruct B as [Hs Hin]. pose proof (Hs tid) as Hs'.
    cbv zeta. rewrite Hex. cbn [lift bind ret emit app].
    eexists. split; [reflexivity|].
    unfold Inv.
    cbn [Scrape.inserted Scrape.ok_email Scrape.fail].
    rewrite !filter_app, !length_app, map_app. cbn [filter map].
    rewrite Hs'. cbn [negb length app key]. unfold key at 2.
    cbn [Scrape.target_id Scrape.found_url].
    repeat split.
    + now rewrite Hk.
    + lia.
    + lia.
    + apply Forall_app. split; [exact Hi|].
      constructor; [|constructor]. split; [reflexivity | exact Hin].
  - specialize (B tid). cbn [lift bind ret emit app].
    eexists. split; [reflexivity|].
    unfold Inv.
    cbn [Scrape.inserted Scrape.ok_email Scrape.fail].
    rewrite !filter_app, !length_app. cbn [filter].
    rewrite B. cbn [negb length]. rewrite app_nil_r.
    repeat split; [exact Hk | lia | lia | exact Hi].
Qed.

Lemma site_raise (st : Scrape.totals) (tid : option str) :
  Scrape.site net db st (tid, None) = ([], Raise "TypeError").
Proof. reflexivity. Qed.

Lemma read_rows_from (csv_rows : list Scrape.csv_row)
    (rows : list (option str * option str)) :
  read_as csv_rows rows ->
  forall acc,
    for_each csv_rows acc
      (fun rows r =>
         target_id <- lift (Scrape.getitem "target_id" r) ;;
         website_url <- lift (Scrape.getitem "website_url" r) ;;
         ret (Next (rows ++ [(target_id, website_url)])))
    = ([], Ok (acc ++ rows)).
Proof.
  induction 1 as [|r p csv_rows rows [Ht Hu] _ IH]; intros acc;
    cbn [for_each].
  - now rewrite app_nil_r.
  - rewrite Ht, Hu. cbn [lift bind ret app]. rewrite IH.
    destruct p as [t u]. cbn [fst snd app]. now rewrite <- app_assoc.
Qed.

Lemma read_rows_run (csv_rows : list Scrape.csv_row)
    (rows : list (option str * option str)) :
  read_as csv_rows rows -> Scrape.read_rows csv_rows = ([], Ok rows).
Proof.
  intros H. exact (read_rows_from csv_rows rows H []).
Qed.

Lemma sites_run (sites : list (option str * option str)) :
  accepts db ->
  forallb has_url sites = true ->
  (exists st,
     for_each sites
       {| Scrape.inserted := []; Scrape.ok_email := 0; Scrape.fail := 0 |}
       (Scrape.site net db)
     = (flat_map site_events sites, Ok st)
     /\ Inv sites st)
  /\ forall tid post,
       for_each (sites ++ (tid, None) :: post)
         {| Scrape.inserted := []; Scrape.ok_email := 0; Scrape.fail := 0 |}
         (Scrape.site net db)
       = (flat_map site_events sites, Raise "TypeError").
Proof.
  intros Hdb Hs.
  assert (F : Forall (fun r => has_url r = true) sites).
  { apply Forall_forall. intros r Hr.
    apply (proj1 (forallb_forall _ _) Hs r Hr). }
  destruct (for_each_traced_on (fun r => has_url r = true) Inv
              (Scrape.site net db) site_events
              (fun pre s a => site_run pre s a Hdb) sites F []
              {| Scrape.inserted := []; Scrape.ok_email := 0;
                 Scrape.fail := 0 |})
    as [Hok Hstop].
  { unfold Inv. cbn. repeat split. constructor. }
  split; [exact Hok|].
  intros tid post. apply Hstop. intros s'. apply site_raise.
Qed.

End ScrapeRun.


(** ** The rows of [sysiphe_search_email.py] *)

Lemma for_each_inv {A S : Type} (Inv : list A -> S -> Prop)
    (body : S -> A -> M (flow S)) (l : list A) :
  (forall pre s a, Inv pre s ->
                   exists t s', body s a = (t, Ok (Next s'))
                                /\ Inv (pre ++ [a]) s') ->
  forall pre s, Inv pre s ->
    exists t s', for_each l s body = (t, Ok s') /\ Inv (pre ++ l) s'.
Proof.
  intros Hbody.
  induction l as [|a l IH]; intros pre s Hs; cbn [for_each].
  - exists [], s. rewrite app_nil_r. split; [reflexivity | exact Hs].
  - destruct (Hbody pre s a Hs) as (t1 & s1 & -> & H1).
    destruct (IH (pre ++ [a]) s1 H1) as (t2 & s2 & E2 & H2).
    rewrite bind_ok. cbv beta iota. rewrite E2.
    exists (t1 ++ t2), s2. split; [reflexivity|].
    now rewrite <- app_assoc in H2.
Qed.

Lemma strip_ends (c z : ascii) (mid : str) :
  is_space c = false -> is_space z = false ->
  strip (c :: mid ++ [z]) = c :: mid ++ [z].
Proof.
  intros Hc Hz. unfold strip. cbn [lstrip_by]. rewrite Hc.
  unfold rstrip_by. change (c :: mid ++ [z]) with ((c :: mid) ++ [z]).
  rewrite rev_app_distr. cbn [rev app lstrip_by]. rewrite Hz.
  change (z :: rev mid ++ [c]) with (rev [z] ++ rev (c :: mid)).
  now rewrite <- rev_app_distr, rev_involutive.
Qed.

(** A text of the form [local@host.tld] has no space at either end. *)
Lemma strip_address (m : str) :
  address_shape Scrape.local_char Scrape.host_char Scrape.tld_char m ->
  strip m = m /\ m <> "".
Proof.
  intros (l & h & t & -> & NL & AL & _ & _ & LT & AT).
  destruct l as [|c l]; [contradiction|]. split; [|discriminate].
  assert (Hc : is_space c = false).
  { inversion AL as [|? ? Hc _]. subst.
    destruct c as [[] [] [] [] [] [] [] []]; vm_compute in Hc |- *;
      congruence. }
  destruct (exists_last (l := t)) as (t' & z & ->).
  { intros ->. simpl in LT. lia. }
  assert (Hz : is_space z = false).
  { apply Forall_app in AT as [_ AT]. inversion AT as [|? ? Hz _]. subst.
    destruct z as [[] [] [] [] [] [] [] []]; vm_compute in Hz |- *;
      congruence. }
  assert (E : (c :: l) ++ "@" ++ h ++ "." ++ t' ++ [z]
              = c :: (l ++ "@" ++ h ++ "." ++ t') ++ [z]).
  { cbn [app]. f_equal. rewrite <- app_assoc. f_equal. cbn [app].
    f_equal. now rewrite <- app_assoc. }
  rewrite E. now apply strip_ends.
Qed.

Section SearchRows.
Context {order : PySetOrder} (net : Net) (args : Search.arguments).

Lemma fetch_page_value (url : str) :
  Search.fetch_page net url = ([EvHttp url], Ok (search_text net url)).
Proof.
  unfold Search.fetch_page, search_text.
  destruct (requests_get net url) as [e|r]; [reflexivity|].
  cbn [lift]. rewrite !bind_ok. cbn [emit trace fst app outcome snd].
  rewrite Z.ltb_antisym, <- negb_orb.
  destruct (400 <=? status_code r)%Z; cbn [negb andb]; [reflexivity|].
  now destruct (contains "text/html" _ || contains "text/plain" _).
Qed.

Lemma search_match_address (txt m : str) :
  In m (Search.extract_emails_from_text (Some txt)) ->
  Search.normalize_email m = lower m /\ lower m <> "".
Proof.
  unfold Search.extract_emails_from_text. cbn [or_empty].
  rewrite (finditer_ext _ _ txt search_pattern_is_scrape_pattern).
  intros H. apply finditer_sound in H as [Sh _].
  apply scrape_shape, strip_address in Sh as [St Ne].
  unfold Search.normalize_email. rewrite St. split; [reflexivity|].
  destruct m; [contradiction | discriminate].
Qed.

Lemma pick_best_email_candidate (emails : pyset)
    (expected_domain : option str) (source_url : str) :
  match Search.pick_best_email emails expected_domain source_url with
  | None => emails = []
  | Some b =>
      (exists em, In em emails
                  /\ b = candidate_of expected_domain source_url em)
      /\ forall em, In em emails ->
           (fst (Search.score_email em expected_domain)
            <= Search.fe_confidence b)%Z
  end.
Proof.
  unfold Search.pick_best_email.
  pose proof (pick_fold expected_domain source_url (set_iter emails) [] None
                eq_refl) as H.
  cbn [app] in H.
  destruct (fold_left _ _ None) as [b|].
  - destruct H as [(em & Hem & ->) Hmax]. split.
    + exists em. split; [now apply In_set_iter | reflexivity].
    + intros em' H'. apply Hmax. now apply In_set_iter.
  - destruct emails as [|e emails]; [reflexivity|].
    assert (X : In e (set_iter (e :: emails)))
      by (apply In_set_iter; now left).
    rewrite H in X. destruct X.
Qed.

(** What holds of the best address so far, for the links [all] of the
    company *)
Let found_ok (expected : option str) (all : list str)
    (b : Search.FoundEmail) : Prop :=
  exists html m,
    In (Search.fe_source_url b) all
    /\ search_text net (Search.fe_source_url b) = Some html
    /\ In m (Search.extract_emails_from_text (Some html))
    /\ b = candidate_of expected (Search.fe_source_url b) m
    /\ forall m', In m' (Search.extract_emails_from_text (Some html)) ->
         (fst (Search.score_email m' expected) <= Search.fe_confidence b)%Z.

Let best_ok (expected : option str) (all : list str)
    (best : option Search.FoundEmail) : Prop :=
  match best with
  | Some b => found_ok expected all b
  | None => True
  end.

Lemma page_best (expected : option str) (all : list str)
    (st : Z * option Search.FoundEmail) (url : str) :
  In url all -> best_ok expected all (snd st) ->
  exists t f,
    Search.page net args expected st url = (t, Ok f)
    /\ best_ok expected all
         (snd (match f with Next s | Break s => s end)).
Proof.
  intros Hu Hb. unfold Search.page. destruct st as [fetched best].
  cbn [snd] in Hb.
  destruct (Search.links args <=? fetched)%Z;
    [eexists; eexists; split; [reflexivity | exact Hb]|].
  rewrite fetch_page_value, bind_ok.
  destruct (search_text net url) as [[|c html]|] eqn:T;
    try (eexists; eexists; split; [reflexivity | exact Hb]).
  destruct (nonempty_list _); cbn [negb];
    [|eexists; eexists; split; [reflexivity | exact Hb]].
  pose proof (pick_best_email_candidate
                (Search.extract_emails_from_text (Some (c :: html)))
                expected url) as P.
  destruct (Search.pick_best_email _ _ _) as [cand|].
  - assert (C : found_ok expected all cand).
    { destruct P as [(em & Hem & ->) Hmax].
      exists (c :: html), em. cbn [candidate_of Search.fe_source_url] in *.
      repeat split; assumption. }
    destruct best as [b|];
      [destruct (Search.fe_confidence b <? Search.fe_confidence cand)%Z|];
      destruct (85 <=? Search.fe_confidence _)%Z;
      eexists; eexists; (split; [reflexivity|]); cbn [snd best_ok];
      assumption.
  - destruct best as [b|]; [destruct (85 <=? Search.fe_confidence _)%Z|];
      eexists; eexists; (split; [reflexivity|]); cbn [snd best_ok];
      assumption.
Qed.

Lemma pages_best (expected : option str) (all urls : list str) :
  incl urls all ->
  forall st : Z * option Search.FoundEmail,
    best_ok expected all (snd st) ->
    exists t p,
      for_each urls st (Search.page net args expected) = (t, Ok p)
      /\ best_ok expected all (snd p).
Proof.
  induction urls as [|url urls IH]; intros Hin st Hb; cbn [for_each].
  - exists [], st. split; [reflexivity | exact Hb].
  - destruct (page_best expected all st url (Hin url (or_introl eq_refl)) Hb)
      as (t1 & f & -> & H1).
    rewrite bind_ok. destruct f as [st'|st']; cbv beta iota.
    + destruct (IH (fun u H => Hin u (or_intror H)) st' H1)
        as (t2 & p & -> & H2).
      exists (t1 ++ t2), p. split; [reflexivity | exact H2].
    + exists (t1 ++ []), st'. split; [reflexivity | exact H1].
Qed.

(** What holds of a row written, for the rows [pre] read *)
Let out_ok (pre : list row) (out : Search.found) : Prop :=
  if nonempty (Search.email out)
  then exists r html m,
         In r pre
         /\ Search.legal_name out = Search.row_name r
         /\ Search.query out = row_query r
         /\ In (Search.source_url out) (row_links net args r)
         /\ search_text net (Search.source_url out) = Some html
         /\ In m (Search.extract_emails_from_text (Some html))
         /\ Search.email out = lower m
         /\ (Search.confidence out, Search.reason out)
            = Search.score_email m (row_expected args r)
         /\ forall m', In m' (Search.extract_emails_from_text (Some html)) ->
              (fst (Search.score_email m' (row_expected args r))
               <= Search.confidence out)%Z
  else Search.confidence out = 0%Z /\ Search.source_url out = "".

Let Inv (pre : list row) (st : Search.totals) : Prop :=
  Search.n_found st
  = length (filter (fun out => nonempty (Search.email out))
                   (Search.results st))
  /\ Forall (out_ok pre) (Search.results st).

Lemma out_ok_more (pre : list row) (r : row) (out : Search.found) :
  out_ok pre out -> out_ok (pre ++ [r]) out.
Proof.
  unfold out_ok. destruct (nonempty (Search.email out)); [|easy].
  intros (r0 & html & m & Hr & H). exists r0, html, m.
  split; [apply in_or_app; now left | exact H].
Qed.

Lemma company_rows (pre : list row) (st : Search.totals) (r : row) :
  Inv pre st ->
  exists t st', Search.company net args st r = (t, Ok (Next st'))
                /\ Inv (pre ++ [r]) st'.
Proof.
  intros (Hn & Hw).
  assert (Hw' : Forall (out_ok (pre ++ [r])) (Search.results st)).
  { eapply Forall_impl; [|exact Hw]. intros w. apply out_ok_more. }
  assert (Empty : forall out,
            Search.email out = "" -> Search.confidence out = 0%Z ->
            Search.source_url out = "" ->
            forall n, n = Search.n_found st ->
            Inv (pre ++ [r])
              {| Search.results := Search.results st ++ [out];
                 Search.tested := S (Search.tested st);
                 Search.n_found := n |}).
  { intros out He Hc Hs n ->. unfold Inv.
    cbn [Search.results Search.n_found].
    rewrite filter_app, length_app. cbn [filter]. rewrite He.
    cbn [nonempty length]. split; [lia|].
    apply Forall_app. split; [exact Hw'|]. constructor; [|constructor].
    unfold out_ok. rewrite He. cbn [nonempty]. now split. }
  unfold Search.company. cbv zeta.
  destruct (nonempty (Search.row_name r)) eqn:Named; cbn [negb].
  2:{ eexists; eexists. split; [reflexivity|]. now apply Empty. }
  fold (row_query r).
  unfold Search.search_serpapi.
  pose proof (eq_refl : row_links net args r = row_links net args r) as L.
  unfold row_links at 2 in L.
  destruct (serpapi_links net (row_query r)) as [e|organic] eqn:Found.
  - eexists; eexists. split; [reflexivity|]. now apply Empty.
  - cbn [emit lift bind ret try_except app]. rewrite <- L.
    match goal with
    | |- context [Search.page net args ?x] =>
        change x with (row_expected args r)
    end.
    destruct (pages_best (row_expected args r) (row_links net args r)
                (row_links net args r) (fun u H => H) (0%Z, None) I)
      as (t & p & E & Hb).
    rewrite E. cbn [bind app outcome snd trace fst].
    destruct (snd p) as [b|].
    + eexists; eexists. split; [reflexivity|].
      destruct Hb as (html & m & Hu & T & Hm & Hc & Hmax).
      destruct (search_match_address html m Hm) as [Nm Ne].
      assert (Eb : Search.fe_email b = lower m).
      { rewrite Hc. cbn [candidate_of Search.fe_email]. exact Nm. }
      assert (Nb : nonempty (Search.fe_email b) = true).
      { rewrite Eb. destruct (lower m); [contradiction | reflexivity]. }
      unfold Inv. cbn [Search.results Search.n_found].
      rewrite filter_app, length_app. cbn [filter Search.email].
      rewrite Nb. cbn [length]. split; [lia|].
      apply Forall_app. split; [exact Hw'|]. constructor; [|constructor].
      unfold out_ok. cbn [Search.email]. rewrite Nb.
      exists r, html, m.
      cbn [Search.legal_name Search.query Search.source_url
           Search.confidence Search.reason].
      split; [apply in_or_app; right; now left|].
      repeat split; try assumption.
      rewrite Hc. cbn [candidate_of Search.fe_confidence Search.fe_reason].
      now destruct (Search.score_email m (row_expected args r)).
    + eexists; eexists. split; [reflexivity|]. now apply Empty.
Qed.

Lemma main_rows (rows : list row) :
  exists t st, Search.main net args rows = (t, Ok st) /\ Inv rows st.
Proof.
  unfold Search.main.
  apply (for_each_inv Inv (Search.company net args) rows company_rows []).
  unfold Inv. cbn. split; [reflexivity | constructor].
Qed.

End SearchRows.

(** X19.  In a run of [sysiphe_search_email.py], [found] is the number of
    rows written with an address.  A row written with an address names a
    company of the input and its query; its [source_url] is one of the
    links of the provider for that query, the page there answered with a
    status under 400 and a text content type, and the address is the
    lower-case form of a match of the pattern in that page; confidence and
    reason are the score of that match against the expected domain of the
    company, and no match of that page scores higher.  A row written
    without an address has the confidence 0 and no [source_url]. *)
Theorem X19_rows_of_a_search_run {order : PySetOrder} (net : Net)
    (args : Search.arguments) (rows : list row) :
  exists st,
    outcome (Search.main net args rows) = Ok st
    /\ Search.n_found st
       = length (filter (fun out => nonempty (Search.email out))
                        (Search.results st))
    /\ forall out, In out (Search.results st) ->
         if nonempty (Search.email out)
         then exists r html m,
                In r rows
                /\ Search.legal_name out = Search.row_name r
                /\ Search.query out = row_query r
                /\ In (Search.source_url out) (row_links net args r)
                /\ search_text net (Search.source_url out) = Some html
                /\ In m (Search.extract_emails_from_text (Some html))
                /\ Search.email out = lower m
                /\ (Search.confidence out, Search.reason out)
                   = Search.score_email m (row_expected args r)
                /\ forall m',
                     In m' (Search.extract_emails_from_text (Some html)) ->
                     (fst (Search.score_email m' (row_expected args r))
                      <= Search.confidence out)%Z
         else Search.confidence out = 0%Z /\ Search.source_url out = "".
Proof.
  destruct (main_rows net args rows) as (t & st & E & Hn & Hw).
  exists st. rewrite E. split; [reflexivity|]. split; [exact Hn|].
  intros out Hin. rewrite Forall_forall in Hw. exact (Hw out Hin).
Qed.

(** ** The site readers and the search on the network of Acme *)

Lemma X16_acme_witness :
  exists k,
    @GuessVerify.verify_email_on_site insertion_order acme_net "acme.com"
    = (map EvHttp (firstn k (site_urls "acme.com")),
       Ok (Some ("info@acme.com", "https://acme.com")))
    /\ k <= 7.
Proof.
  destruct (@X16_verify_email_on_site insertion_order acme_net "acme.com")
    as (k & res & E & K & _).
  exists k. split; [|exact K].
  pose proof E as E'. vm_compute in E'. injection E' as _ <-. exact E.
Defined.

Lemma X17_acme_witness :
  exists written,
    outcome (@GuessVerify.main insertion_order acme_net
               [[("abn", "51824753556"); ("legal_name", "Acme Pty Ltd");
                 ("guessed_domain", "https://Acme.com/")];
                [("abn", "90000000001"); ("legal_name", "No Site Pty Ltd")]])
    = Ok (written, length written)
    /\ map GuessVerify.email written = ["info@acme.com"]
    /\ map GuessVerify.found_url written = ["https://acme.com"].
Proof.
  destruct (@X17_rows_of_a_verify_run insertion_order acme_net
              [[("abn", "51824753556"); ("legal_name", "Acme Pty Ltd");
                ("guessed_domain", "https://Acme.com/")];
               [("abn", "90000000001"); ("legal_name", "No Site Pty Ltd")]])
    as (written & E & _).
  exists written. split; [exact E|].
  vm_compute in E. injection E as <-. split; reflexivity.
Defined.


Lemma X19_acme_witness :
  exists st,
    outcome (@Search.main insertion_order acme_net default_args
               [row_of "Acme Pty Ltd"]) = Ok st
    /\ map Search.email (Search.results st) = ["info@acme.com"]
    /\ Search.n_found st = 1.
Proof.
  destruct (@X19_rows_of_a_search_run insertion_order acme_net default_args
              [row_of "Acme Pty Ltd"]) as (st & E & _).
  exists st. split; [exact E|].
  vm_compute in E. injection E as <-. split; reflexivity.
Defined.
